(** * MindlessGen: random molecule generation

    A shallow embedding of [mindlessgen/molecules/generate_molecule.py]:
    the composition sampler [generate_atom_list], the geometry sampler
    [generate_coordinates] with its helpers, and the element classifier
    tables.

    Conventions of the embedding:
    - numpy's [float64] is IEEE binary64, given by [SpecFloat] at
      precision 53 and maximal exponent 1024;
    - the integer array [natoms] is a [list Z]; subscripting follows
      Python (negative subscripts count from the end, anything else
      outside the array raises [IndexError]);
    - the process-wide random generator is an explicit state threaded
      through a state-and-exception monad;
    - [while] loops take a fuel argument; running out of fuel is the
      distinguished outcome [OutOfFuel], never a value;
    - integers are unbounded: the counts the sampler builds stay far
      inside [int64] unless the configuration itself holds a bound
      outside it;
    - [print] calls are left out. *)

From Stdlib Require Import ZArith List Bool Lia.
From Stdlib Require Import Floats.SpecFloat.
Import ListNotations.
Local Open Scope Z_scope.

(** ** Binary64 arithmetic *)

Definition float : Type := spec_float.

Module F64.

Definition prec : Z := 53.
Definition emax : Z := 1024.

Definition of_dyadic (m e : Z) : float := binary_normalize prec emax m e false.
(** Conversion of an integer, as numpy does when an [int64] meets a
    [float64]. *)
Definition of_Z (n : Z) : float := of_dyadic n 0.

Definition zero : float := S754_zero false.
Definition one : float := of_Z 1.
Definition two : float := of_Z 2.
Definition three : float := of_Z 3.
Definition three_halves : float := of_dyadic 3 (-1).
(** The literal [1.2]: the binary64 number nearest to 6/5. *)
Definition one_point_two : float := of_dyadic 5404319552844595 (-52).

Definition mul : float -> float -> float := SFmul prec emax.
Definition add : float -> float -> float := SFadd prec emax.
Definition sub : float -> float -> float := SFsub prec emax.
Definition sqrt : float -> float := SFsqrt prec emax.
Definition ltb : float -> float -> bool := SFltb.
Definition leb : float -> float -> bool := SFleb.

Definition is_nan (x : float) : bool :=
  match x with S754_nan => true | _ => false end.

End F64.

(** ** Outcomes of a Python computation *)

Inductive exn : Type := ValueError | IndexError | OverflowError.

Inductive outcome (A : Type) : Type :=
| Ok (a : A)
| Raise (e : exn)
| OutOfFuel.

Arguments Ok {A} a.
Arguments Raise {A} e.
Arguments OutOfFuel {A}.

Definition obind {A B : Type} (o : outcome A) (f : A -> outcome B) : outcome B :=
  match o with
  | Ok a => f a
  | Raise e => Raise e
  | OutOfFuel => OutOfFuel
  end.

Notation "x <~ c1 ;; c2" := (obind c1 (fun x => c2))
  (at level 61, c1 at next level, right associativity).

(** [int(x)] for a float [x]: truncation towards zero; infinities and
    NaN raise. *)
Definition py_int (x : float) : outcome Z :=
  match x with
  | S754_zero _ => Ok 0
  | S754_finite s m e =>
      let a := Z.shiftl (Zpos m) e in
      Ok (if s then - a else a)
  | S754_infinity _ => Raise OverflowError
  | S754_nan => Raise ValueError
  end.

(** ** The random source

    numpy's generator is external to the repository.  It is modelled as
    an infinite tape of raw draws and a cursor; each sampling primitive
    consumes one raw draw and maps it onto its documented range, so every
    value of the range can occur and no other. *)

Record RandomState : Type := { tape : nat -> Z; cursor : nat }.

Definition M (A : Type) : Type := RandomState -> outcome (A * RandomState).

Definition ret {A : Type} (a : A) : M A := fun s => Ok (a, s).

Definition bind {A B : Type} (m : M A) (f : A -> M B) : M B :=
  fun s =>
    match m s with
    | Ok (a, s') => f a s'
    | Raise e => Raise e
    | OutOfFuel => OutOfFuel
    end.

Definition lift {A : Type} (o : outcome A) : M A :=
  fun s =>
    match o with
    | Ok a => Ok (a, s)
    | Raise e => Raise e
    | OutOfFuel => OutOfFuel
    end.

Definition raise {A : Type} (e : exn) : M A := fun _ => Raise e.
Definition out_of_fuel {A : Type} : M A := fun _ => OutOfFuel.

Notation "x <- c1 ;; c2" := (bind c1 (fun x => c2))
  (at level 61, c1 at next level, right associativity).
Notation "' pat <- c1 ;; c2" := (bind c1 (fun x => match x with pat => c2 end))
  (at level 61, pat pattern, c1 at next level, right associativity).

Definition next_raw : M Z :=
  fun s => Ok (tape s (cursor s), {| tape := tape s; cursor := S (cursor s) |}).

(** [np.random.randint(low, high)]: an integer of [[low, high)]. *)
Definition randint (low high : Z) : M Z :=
  if high <=? low then raise ValueError
  else r <- next_raw ;; ret (low + r mod (high - low)).

(** [np.random.choice(l)]: an element of the non-empty list [l]. *)
Definition choice (l : list Z) : M Z :=
  match l with
  | [] => raise ValueError
  | _ :: _ => r <- next_raw ;; ret (nth (Z.to_nat (r mod Z.of_nat (length l))) l 0)
  end.

(** [np.random.rand()]: a float [k / 2^53] with [0 <= k < 2^53]. *)
Definition rand : M float :=
  r <- next_raw ;; ret (F64.of_dyadic (r mod 2 ^ 53) (-53)).

(** ** Arrays *)

Definition py_index (n : nat) (i : Z) : option nat :=
  if (0 <=? i) && (i <? Z.of_nat n) then Some (Z.to_nat i)
  else if (- Z.of_nat n <=? i) && (i <? 0) then Some (Z.to_nat (i + Z.of_nat n))
  else None.

Fixpoint list_set {A : Type} (k : nat) (v : A) (l : list A) : list A :=
  match l, k with
  | [], _ => []
  | _ :: t, O => v :: t
  | h :: t, S k' => h :: list_set k' v t
  end.

Definition getitem {A : Type} (d : A) (a : list A) (i : Z) : outcome A :=
  match py_index (length a) i with
  | Some k => Ok (nth k a d)
  | None => Raise IndexError
  end.

Definition setitem {A : Type} (a : list A) (i : Z) (v : A) : outcome (list A) :=
  match py_index (length a) i with
  | Some k => Ok (list_set k v a)
  | None => Raise IndexError
  end.

(** [np.sum] of an integer array. *)
Definition zsum (a : list Z) : Z := fold_right Z.add 0 a.

(** [d.get(k, default)] on a dictionary kept as its item list. *)
Fixpoint dict_get {V : Type} (d : list (Z * V)) (k : Z) (default : V) : V :=
  match d with
  | [] => default
  | (k', v) :: rest => if k' =? k then v else dict_get rest k default
  end.

(** ** Configuration *)

Record GenerateConfig : Type := {
  min_num_atoms : Z;
  max_num_atoms : Z;
  init_coord_scaling : float;
  dist_threshold : float;
  increase_scaling_factor : float;
  element_composition : list (Z * (option Z * option Z));
  forbidden_elements : list Z
}.

(** ** Element classifier *)

Definition py_range (lo hi : Z) : list Z :=
  map (fun k => lo + Z.of_nat k) (seq 0 (Z.to_nat (hi - lo))).

Definition get_alkali_metals : list Z := [2; 10; 18; 36; 54].
Definition get_alkaline_earth_metals : list Z := [3; 11; 19; 37; 55].
Definition get_three_d_metals : list Z := py_range 20 30.
Definition get_four_d_metals : list Z := py_range 38 48.
Definition get_five_d_metals : list Z := py_range 71 80.
Definition get_lanthanides : list Z := py_range 56 71.

(** ** Composition sampler *)

Definition MAX_ELEM : Z := 86.

(** [set(range(0, MAX_ELEM)) - set(cfg.forbidden_elements)], listed in the
    order in which CPython iterates a set of small integers (ascending). *)
Definition valid_elems (cfg : GenerateConfig) : list Z :=
  filter (fun e => negb (existsb (Z.eqb e) (forbidden_elements cfg)))
         (py_range 0 MAX_ELEM).

(** The first loop: [rounds] times, pick a valid element and add 0, 1 or
    2 atoms of it. *)
Fixpoint add_random_atoms (rounds : nat) (valid : list Z) (natoms : list Z)
  : M (list Z) :=
  match rounds with
  | O => ret natoms
  | S r =>
      ati <- choice valid ;;
      cur <- lift (getitem 0 natoms ati) ;;
      k <- randint 0 3 ;;
      natoms' <- lift (setitem natoms ati (cur + k)) ;;
      add_random_atoms r valid natoms'
  end.

(** [for i in group: nmetals += natoms[i]]. *)
Fixpoint count_group (group : list Z) (natoms : list Z) (nmetals : Z)
  : outcome Z :=
  match group with
  | [] => Ok nmetals
  | i :: rest => c <~ getitem 0 natoms i ;; count_group rest natoms (nmetals + c)
  end.

(** One execution of the inner [for] loop of a metal-limiting pass,
    with its [break]. *)
Fixpoint scan_group (group : list Z) (natoms : list Z) (nmetals : Z)
  : outcome (list Z * Z) :=
  match group with
  | [] => Ok (natoms, nmetals)
  | i :: rest =>
      c <~ getitem 0 natoms i ;;
      st <~ (if 0 <? c
             then natoms' <~ setitem natoms i (c - 1) ;; Ok (natoms', nmetals - 1)
             else Ok (natoms, nmetals)) ;;
      if snd st <=? 3 then Ok st else scan_group rest (fst st) (snd st)
  end.

(** [while nmetals > 3: for i in group: ...]. *)
Fixpoint reduce_metals (fuel : nat) (group : list Z) (natoms : list Z) (nmetals : Z)
  : outcome (list Z) :=
  if 3 <? nmetals then
    match fuel with
    | O => OutOfFuel
    | S f =>
        st <~ scan_group group natoms nmetals ;;
        reduce_metals f group (fst st) (snd st)
    end
  else Ok natoms.

Definition limit_metals (fuel : nat) (group : list Z) (natoms : list Z)
  : outcome (list Z) :=
  nmetals <~ count_group group natoms 0 ;;
  reduce_metals fuel group natoms nmetals.

Definition group_one_two : list Z :=
  get_alkali_metals ++ get_alkaline_earth_metals.

Definition other_metals : list Z :=
  get_three_d_metals ++ get_four_d_metals ++ get_five_d_metals ++ get_lanthanides.

(** [for _ in range(5)]: add 0, 1 or 2 atoms of an element of 4..9. *)
Fixpoint add_organic (rounds : nat) (natoms : list Z) : M (list Z) :=
  match rounds with
  | O => ret natoms
  | S r =>
      i <- randint 4 10 ;;
      cur <- lift (getitem 0 natoms i) ;;
      k <- randint 0 3 ;;
      natoms' <- lift (setitem natoms i (cur + k)) ;;
      add_organic r natoms'
  end.

(** The number of hydrogen atoms added when none is present:
    [1 + int(randint * minnat * 1.2)]. *)
Definition hydrogen_number (randint_ : float) (minnat : Z) : outcome Z :=
  t <~ py_int (F64.mul (F64.mul randint_ (F64.of_Z minnat)) F64.one_point_two) ;;
  Ok (1 + t).

(** [if natoms[0] == 0: ...]. *)
Definition add_hydrogen (natoms : list Z) : M (list Z) :=
  h <- lift (getitem 0 natoms 0) ;;
  if h =? 0 then
    let nat_ := zsum natoms in
    let minnat := Z.min nat_ 10 in
    randint_ <- rand ;;
    j <- lift (hydrogen_number randint_ minnat) ;;
    h' <- lift (getitem 0 natoms 0) ;;
    lift (setitem natoms 0 (h' + j))
  else ret natoms.

(** The [elif] branch of one clamp. *)
Definition clamp_max (natoms : list Z) (elem : Z) (max_count : option Z)
  : outcome (list Z) :=
  match max_count with
  | Some mx =>
      c <~ getitem 0 natoms elem ;;
      if mx <? c then setitem natoms elem mx else Ok natoms
  | None => Ok natoms
  end.

Definition clamp (natoms : list Z) (elem : Z) (count_range : option Z * option Z)
  : outcome (list Z) :=
  let (min_count, max_count) := count_range in
  match min_count with
  | Some mn =>
      c <~ getitem 0 natoms elem ;;
      if c <? mn then setitem natoms elem mn else clamp_max natoms elem max_count
  | None => clamp_max natoms elem max_count
  end.

(** [for elem, count_range in cfg.element_composition.items(): ...]. *)
Fixpoint apply_composition (items : list (Z * (option Z * option Z)))
  (natoms : list Z) : outcome (list Z) :=
  match items with
  | [] => Ok natoms
  | (elem, count_range) :: rest =>
      natoms' <~ clamp natoms elem count_range ;;
      apply_composition rest natoms'
  end.

(** Body of the grow loop once [ati] is drawn; [continue] leaves the
    array as it is.  Every path reads [natoms[ati]] before any write, so
    it is read once here. *)
Definition grow_step (cfg : GenerateConfig) (natoms : list Z) (ati : Z)
  : outcome (list Z) :=
  let max_limit := snd (dict_get (element_composition cfg) ati (None, None)) in
  c <~ getitem 0 natoms ati ;;
  match max_limit with
  | Some mx => if mx <=? c then Ok natoms else setitem natoms ati (c + 1)
  | None => setitem natoms ati (c + 1)
  end.

(** [while np.sum(natoms) < cfg.min_num_atoms: ...]. *)
Fixpoint grow_loop (fuel : nat) (cfg : GenerateConfig) (valid : list Z)
  (natoms : list Z) : M (list Z) :=
  if zsum natoms <? min_num_atoms cfg then
    match fuel with
    | O => out_of_fuel
    | S f =>
        ati <- choice valid ;;
        natoms' <- lift (grow_step cfg natoms ati) ;;
        grow_loop f cfg valid natoms'
    end
  else ret natoms.

(** Body of the shrink loop once the index [i] is drawn. *)
Definition shrink_step (cfg : GenerateConfig) (natoms : list Z) (i : Z)
  : outcome (list Z) :=
  c <~ getitem 0 natoms i ;;
  if 0 <? c then
    let min_limit := fst (dict_get (element_composition cfg) i (None, None)) in
    match min_limit with
    | Some mn => if mn <? c then setitem natoms i (c - 1) else Ok natoms
    | None => Ok natoms
    end
  else Ok natoms.

(** [while np.sum(natoms) > cfg.max_num_atoms: ...]. *)
Fixpoint shrink_loop (fuel : nat) (cfg : GenerateConfig) (natoms : list Z)
  : M (list Z) :=
  if max_num_atoms cfg <? zsum natoms then
    match fuel with
    | O => out_of_fuel
    | S f =>
        i <- randint 0 MAX_ELEM ;;
        natoms' <- lift (shrink_step cfg natoms i) ;;
        shrink_loop f cfg natoms'
    end
  else ret natoms.

(** The sampler up to and including the two metal-limiting passes. *)
Definition sample_and_limit (fuel : nat) (cfg : GenerateConfig) : M (list Z) :=
  let natoms := repeat 0 102 in
  numatoms_all <- randint 1 7 ;;
  natoms <- add_random_atoms (Z.to_nat numatoms_all) (valid_elems cfg) natoms ;;
  natoms <- lift (limit_metals fuel group_one_two natoms) ;;
  lift (limit_metals fuel other_metals natoms).

(** The sampler up to the hydrogen backfill, before the constraint
    clamps. *)
Definition sample_unconstrained (fuel : nat) (cfg : GenerateConfig) : M (list Z) :=
  natoms <- sample_and_limit fuel cfg ;;
  natoms <- add_organic 5 natoms ;;
  add_hydrogen natoms.

Definition generate_atom_list (fuel : nat) (cfg : GenerateConfig) : M (list Z) :=
  natoms <- sample_unconstrained fuel cfg ;;
  natoms <- lift (apply_composition (element_composition cfg) natoms) ;;
  natoms <- grow_loop fuel cfg (valid_elems cfg) natoms ;;
  shrink_loop fuel cfg natoms.

(** ** Geometry sampler *)

Definition vec3 : Type := (float * float * float)%type.

Definition vec3_zero : vec3 := (F64.zero, F64.zero, F64.zero).

Definition vec3_map (f : float -> float) (v : vec3) : vec3 :=
  let '(x, y, z) := v in (f x, f y, f z).

Definition vec3_sub (v w : vec3) : vec3 :=
  let '(x, y, z) := v in
  let '(x', y', z') := w in
  (F64.sub x x', F64.sub y y', F64.sub z z').

(** [np.linalg.norm] of a vector of three floats: the square root of its
    dot product with itself. *)
Definition norm (v : vec3) : float :=
  let '(x, y, z) := v in
  F64.sqrt (F64.add (F64.add (F64.mul x x) (F64.mul y y)) (F64.mul z z)).

(** [np.random.rand(3)]. *)
Definition rand3 : M vec3 :=
  x <- rand ;; y <- rand ;; z <- rand ;; ret (x, y, z).

(** [xyz * eff_scaling]. *)
Definition scale (xyz : list vec3) (s : float) : list vec3 :=
  map (vec3_map (fun c => F64.mul c s)) xyz.

(** [for m in range(count)] for one element; [todo] counts the remaining
    iterations and [m] is the loop variable. *)
Fixpoint place_element (todo : nat) (m : Z) (elem numatoms : Z)
  (xyz : list vec3) (atilist : list Z) : M (list vec3 * list Z) :=
  match todo with
  | O => ret (xyz, atilist)
  | S t =>
      r <- rand3 ;;
      let row :=
        if elem =? 0
        then vec3_map (fun c => F64.sub (F64.mul c F64.three) F64.three_halves) r
        else vec3_map (fun c => F64.sub (F64.mul c F64.two) F64.one) r in
      xyz' <- lift (setitem xyz (numatoms + m) row) ;;
      place_element t (m + 1) elem numatoms xyz' (atilist ++ [elem])
  end.

(** [for elem, count in enumerate(at)]. *)
Fixpoint place_all (at_ : list Z) (elem numatoms : Z)
  (xyz : list vec3) (atilist : list Z) : M (list vec3 * list Z) :=
  match at_ with
  | [] => ret (xyz, atilist)
  | count :: rest =>
      '(xyz', atilist') <- place_element (Z.to_nat count) 0 elem numatoms xyz atilist ;;
      place_all rest (elem + 1) (numatoms + count) xyz' atilist'
  end.

Definition generate_random_coordinates (at_ : list Z) : M (list vec3 * list Z) :=
  let n := zsum at_ in
  if n <? 0 then raise ValueError
  else place_all at_ 0 0 (repeat vec3_zero (Z.to_nat n)) [].

Definition check_distances (xyz : list vec3) (threshold : float) : bool :=
  let n := length xyz in
  forallb
    (fun i =>
       forallb
         (fun j =>
            let r := norm (vec3_sub (nth i xyz vec3_zero) (nth j xyz vec3_zero)) in
            negb (F64.ltb r threshold))
         (seq (i + 1) (n - (i + 1))))
    (seq 0 (n - 1)).

(** [while not check_distances(xyz, dist_threshold): ...]. *)
Fixpoint rescale_loop (fuel : nat) (at_ : list Z)
  (dist_threshold_ inc_scaling_factor eff_scaling : float)
  (xyz : list vec3) (ati : list Z) : M (list vec3 * list Z) :=
  if check_distances xyz dist_threshold_ then ret (xyz, ati)
  else
    match fuel with
    | O => out_of_fuel
    | S f =>
        '(xyz', ati') <- generate_random_coordinates at_ ;;
        let eff_scaling' := F64.mul eff_scaling inc_scaling_factor in
        rescale_loop f at_ dist_threshold_ inc_scaling_factor eff_scaling'
                     (scale xyz' eff_scaling') ati'
    end.

Definition generate_coordinates (fuel : nat) (at_ : list Z)
  (scaling dist_threshold_ inc_scaling_factor : float)
  : M (list vec3 * list Z) :=
  '(xyz, ati) <- generate_random_coordinates at_ ;;
  rescale_loop fuel at_ dist_threshold_ inc_scaling_factor scaling
               (scale xyz scaling) ati.

(** ** Molecule assembler *)

Record Molecule : Type := {
  atlist : list Z;
  num_atoms : Z;
  xyz_ : list vec3;
  ati_ : list Z
}.

(** [generate_random_molecule], up to the charge and the name, which are
    computed by other modules from [ati] and [atlist]. *)
Definition generate_random_molecule (fuel : nat) (cfg : GenerateConfig)
  : M Molecule :=
  natoms <- generate_atom_list fuel cfg ;;
  '(xyz, ati) <- generate_coordinates fuel natoms (init_coord_scaling cfg)
                   (dist_threshold cfg) (increase_scaling_factor cfg) ;;
  ret {| atlist := natoms; num_atoms := zsum natoms; xyz_ := xyz; ati_ := ati |}.

(** ** Running a computation *)

Definition tape_of (l : list Z) : RandomState :=
  {| tape := fun n => nth n l 0; cursor := O |}.

Definition run {A : Type} (m : M A) (s : RandomState) : outcome A :=
  match m s with
  | Ok (a, _) => Ok a
  | Raise e => Raise e
  | OutOfFuel => OutOfFuel
  end.

(** ** Notions used to state the properties *)

(** *** Arrays of counts *)

Definition nonneg (a : list Z) : Prop := Forall (fun c => 0 <= c) a.

(** Every index of [group] is a position of an array of [n] counts. *)
Definition in_range (n : nat) (group : list Z) : Prop :=
  Forall (fun i => 0 <= i < Z.of_nat n) group.

(** The sum of the counts of the elements of a group. *)
Definition group_count (group natoms : list Z) : Z :=
  zsum (map (fun i => nth (Z.to_nat i) natoms 0) group).

(** What a metal-limiting loop leaves behind. *)
Definition limited (n : nat) (G a a' : list Z) : Prop :=
  length a' = n /\ nonneg a' /\
  (forall k, ~ In (Z.of_nat k) G -> nth k a' 0 = nth k a 0) /\
  group_count G a' <= 3.

(** Boolean checks for lists of indices given in full. *)
Fixpoint nodupb (l : list Z) : bool :=
  match l with
  | [] => true
  | x :: t => negb (existsb (Z.eqb x) t) && nodupb t
  end.

Definition in_rangeb (n : nat) (g : list Z) : bool :=
  forallb (fun i => (0 <=? i) && (i <? Z.of_nat n)) g.

Definition disjointb (g1 g2 : list Z) : bool :=
  forallb (fun i => negb (existsb (Z.eqb i) g2)) g1.

(** *** The constraint map *)

(** A well-formed entry of [element_composition] for an array of [n]
    counts: the key is an element index, the bounds are counts, and the
    minimum does not exceed the maximum. *)
Definition wf_item (n : nat) (it : Z * (option Z * option Z)) : Prop :=
  0 <= fst it < Z.of_nat n /\
  (forall m, fst (snd it) = Some m -> 0 <= m) /\
  (forall x, snd (snd it) = Some x -> 0 <= x) /\
  (forall m x, fst (snd it) = Some m -> snd (snd it) = Some x -> m <= x).

(** A dictionary has one entry per key. *)
Definition wf_composition (ec : list (Z * (option Z * option Z))) : Prop :=
  NoDup (map fst ec) /\ Forall (wf_item 102) ec.

(** The sum of the configured per-element minimums. *)
Definition sum_minimums (ec : list (Z * (option Z * option Z))) : Z :=
  zsum (map (fun it => match fst (snd it) with Some m => m | None => 0 end) ec).

(** Every configured minimum is met. *)
Definition meets_minimums (ec : list (Z * (option Z * option Z))) (a : list Z) : Prop :=
  forall k m x, In (k, (Some m, x)) ec -> m <= nth (Z.to_nat k) a 0.

(** Every configured maximum is met. *)
Definition meets_maximums (ec : list (Z * (option Z * option Z))) (a : list Z) : Prop :=
  forall k m x, In (k, (m, Some x)) ec -> nth (Z.to_nat k) a 0 <= x.

(** Every valid element has a configured maximum and has reached it. *)
Definition all_capped (cfg : GenerateConfig) (valid a : list Z) : Prop :=
  forall ati, In ati valid ->
    0 <= ati < Z.of_nat (length a) /\
    exists mx, snd (dict_get (element_composition cfg) ati (None, None)) = Some mx /\
               mx <= nth (Z.to_nat ati) a 0.

(** *** Geometry *)

(** The distance the check computes for the atoms at positions [i], [j]. *)
Definition distance (xyz : list vec3) (i j : nat) : float :=
  norm (vec3_sub (nth i xyz vec3_zero) (nth j xyz vec3_zero)).

(** The element-index sequence of a composition vector: [count] copies of
    each element index, in increasing index order. *)
Fixpoint expand (at_ : list Z) (elem : Z) : list Z :=
  match at_ with
  | [] => []
  | count :: rest => repeat elem (Z.to_nat count) ++ expand rest (elem + 1)
  end.

(** Non-decreasing order, read on positions. *)
Definition nondecreasing (l : list Z) : Prop :=
  forall i j, (i <= j < length l)%nat -> nth i l 0 <= nth j l 0.

(** *** Binary64 *)

(** A non-negative finite float whose mantissa has at most [K] bits and
    whose exponent is at most [E]. *)
Definition bounded_float (K E : Z) (x : float) : Prop :=
  match x with
  | S754_zero s => s = false
  | S754_finite s m e => s = false /\ Zpos m < 2 ^ K /\ e <= E
  | _ => False
  end.

(** *** The random source *)

(** The state after one draw. *)
Definition advance (s : RandomState) : RandomState :=
  {| tape := tape s; cursor := S (cursor s) |}.

(** Two states of the random source that deliver the same draws. *)
Definition same_draws (s1 s2 : RandomState) : Prop :=
  cursor s1 = cursor s2 /\ forall i, tape s1 i = tape s2 i.

(** Two runs that end alike: the same value and the same remaining draws,
    the same exception, or both still running. *)
Definition same_result {A : Type} (r1 r2 : outcome (A * RandomState)) : Prop :=
  match r1, r2 with
  | Ok (a1, t1), Ok (a2, t2) => a1 = a2 /\ same_draws t1 t2
  | Raise e1, Raise e2 => e1 = e2
  | OutOfFuel, OutOfFuel => True
  | _, _ => False
  end.

Definition deterministic {A : Type} (m : M A) : Prop :=
  forall s1 s2, same_draws s1 s2 -> same_result (m s1) (m s2).

(** ** Sample inputs *)

Definition config (min_ max_ : Z) (ec : list (Z * (option Z * option Z)))
  (forbidden : list Z) : GenerateConfig :=
  {| min_num_atoms := min_;
     max_num_atoms := max_;
     init_coord_scaling := F64.three;
     dist_threshold := F64.of_dyadic 1 (-1);
     increase_scaling_factor := F64.of_dyadic 13 (-3);
     element_composition := ec;
     forbidden_elements := forbidden |}.

(** Hydrogen is forbidden and nothing is constrained. *)
Definition cfg_no_hydrogen : GenerateConfig := config 2 100 [] [0].

(** Every element is capped at zero atoms, and one atom is asked for. *)
Definition cfg_capped : GenerateConfig :=
  config 1 1 (map (fun k => (k, (None, Some 0))) (py_range 0 102)) [].

(** At least five hydrogen atoms, at most three atoms in all. *)
Definition cfg_five_hydrogens : GenerateConfig :=
  config 1 3 [(0, (Some 5, None))] [].

(** Hydrogen and carbon may be removed down to zero; at most four atoms. *)
Definition cfg_small : GenerateConfig :=
  config 1 4 [(0, (Some 0, None)); (5, (Some 0, None))] [].

(** Composition vectors. *)
Definition two_hydrogens : list Z := 2 :: repeat 0 101.
Definition three_carbons : list Z := [0; 0; 0; 0; 0; 3] ++ repeat 0 96.
Definition three_heliums : list Z := [0; 3] ++ repeat 0 100.

(** Raw draws: one round adding two carbon atoms, five boosts of carbon by
    two, one hydrogen, then nine shrink draws of carbon. *)
Definition carbon_dozen : list Z :=
  [0; 5; 2; 1; 2; 1; 2; 1; 2; 1; 2; 1; 2; 0; 5; 5; 5; 5; 5; 5; 5; 5; 5].

(** Raw draws: six rounds, each adding two atoms of element index 2. *)
Definition six_rounds_same_metal : list Z := [5; 1; 2; 1; 2; 1; 2; 1; 2; 1; 2; 1; 2].

(** A run of the whole generator that returns: one hydrogen and three
    carbon atoms, placed apart. *)
Definition demo_tape : list Z :=
  carbon_dozen ++ [0; 0; 0; 0; 0; 0; 2 ^ 52; 0; 0; 0; 2 ^ 52; 0].

(** The same draws as [tape_of demo_tape], delivered by another function. *)
Definition demo_tape_again : RandomState :=
  {| tape := fun n => nth n demo_tape 0 + 0 * Z.of_nat n; cursor := O |}.

(** ** Notions and inputs for the further properties *)

(** No count of [a'] exceeds the count of [a] at the same position. *)
Definition pointwise_le (a' a : list Z) : Prop :=
  forall k, nth k a' 0 <= nth k a 0.

(** An entry that makes the clamp loop subscript [natoms]. *)
Definition has_bound (r : option Z * option Z) : bool :=
  match r with
  | (None, None) => false
  | _ => true
  end.

(** An entry with a bound whose key is no subscript of an array of [n]
    counts. *)
Definition bad_item (n : nat) (it : Z * (option Z * option Z)) : Prop :=
  has_bound (snd it) = true /\ py_index n (fst it) = None.

(** No element of the range the shrink loop draws from can lose an atom:
    its count is not positive, or it has no configured minimum, or it is
    not above its configured minimum. *)
Definition frozen (cfg : GenerateConfig) (a : list Z) : Prop :=
  forall i, 0 <= i < 86 ->
    nth (Z.to_nat i) a 0 <= 0 \/
    match fst (dict_get (element_composition cfg) i (None, None)) with
    | None => True
    | Some mn => nth (Z.to_nat i) a 0 <= mn
    end.

(** Counts of the metal groups: six atoms over two elements of the first
    group. *)
Definition six_metals : list Z := [0; 0; 4; 2] ++ repeat 0 98.

(** A map that fixes the number of hydrogen atoms at two. *)
Definition cfg_two_hydrogens : GenerateConfig :=
  config 1 50 [(0, (Some 2, Some 2))] [].

(** Every generatable element is forbidden. *)
Definition cfg_all_forbidden : GenerateConfig := config 1 50 [] (py_range 0 86).

(** The random source after [k] more draws. *)
Definition skip (k : nat) (s : RandomState) : RandomState :=
  {| tape := tape s; cursor := (cursor s + k)%nat |}.

(** The float [np.random.rand()] makes of the [k]-th draw from now. *)
Definition unit_draw (s : RandomState) (k : nat) : float :=
  F64.of_dyadic (tape s (cursor s + k)%nat mod 2 ^ 53) (-53).

(** The coordinate rule of an element: [c * 3 - 1.5] for hydrogen,
    [c * 2 - 1] for every other element. *)
Definition box_rule (elem : Z) (c : float) : float :=
  if elem =? 0 then F64.sub (F64.mul c F64.three) F64.three_halves
  else F64.sub (F64.mul c F64.two) F64.one.

(** The row of the [p]-th atom placed from the state [s], were it an atom
    of element [elem]. *)
Definition drawn_row (s : RandomState) (elem : Z) (p : nat) : vec3 :=
  (box_rule elem (unit_draw s (3 * p)),
   box_rule elem (unit_draw s (3 * p + 1)),
   box_rule elem (unit_draw s (3 * p + 2))).

(** The effective scaling after [n] retries: the initial scaling
    multiplied [n] times, in binary64, by the growth factor. *)
Fixpoint grown_scaling (n : nat) (scaling inc : float) : float :=
  match n with
  | O => scaling
  | S k => F64.mul (grown_scaling k scaling inc) inc
  end.

(** The geometry of attempt number [k] (the first has number 0): the raw
    coordinates made of the draws that follow the [k] earlier attempts,
    times the effective scaling of that attempt. *)
Definition attempt (at_ : list Z) (scaling inc : float) (s : RandomState) (k : nat)
  : list vec3 :=
  match generate_random_coordinates at_ (skip (k * (3 * Z.to_nat (zsum at_))) s) with
  | Ok ((xyz, _), _) => scale xyz (grown_scaling k scaling inc)
  | _ => []
  end.

(** Raw draws for two hydrogen atoms: a first attempt that puts both at
    the same place, a second one that puts them apart. *)
Definition retry_tape : list Z := [0; 0; 0; 0; 0; 0; 0; 0; 0; 2 ^ 52; 2 ^ 52; 2 ^ 52].

(** A float that is a number: a zero or a finite value. *)
Definition is_finite (x : float) : bool :=
  match x with
  | S754_zero _ | S754_finite _ _ _ => true
  | _ => false
  end.

Definition finite3 (v : vec3) : bool :=
  let '(x, y, z) := v in is_finite x && is_finite y && is_finite z.

(** A zero of sign [s], or a finite float of sign [s] whose magnitude is
    at most that of the binary64 number with mantissa [B] and exponent
    [eb], read as the comparison of floats reads it: by exponent first,
    then by mantissa. *)
Definition not_above (s : bool) (B eb : Z) (x : float) : Prop :=
  match x with
  | S754_zero s' => s' = s
  | S754_finite s' m e =>
      s' = s /\ Zpos m < 2 ^ 53 /\ (e < eb \/ (e = eb /\ Zpos m <= B))
  | _ => False
  end.

(** The half-width of the cube in which the atoms of an element are
    placed: 1.5 for hydrogen, 1 for every other element. *)
Definition half_width (elem : Z) : float :=
  if elem =? 0 then F64.three_halves else F64.one.

(** [- w <= c <= w]. *)
Definition within (w c : float) : bool :=
  F64.leb (SFopp w) c && F64.leb c w.

Definition in_box (w : float) (v : vec3) : bool :=
  let '(x, y, z) := v in within w x && within w y && within w z.

(** A configuration without constraints that leaves room for every
    unconstrained sample. *)
Definition cfg_roomy : GenerateConfig := config 2 40 [] [].

(** A zero of either sign. *)
Definition is_zero (x : float) : bool :=
  match x with S754_zero _ => true | _ => false end.

Definition zero3 (v : vec3) : bool :=
  let '(x, y, z) := v in is_zero x && is_zero y && is_zero z.

(** * Basic facts *)

(** ** The monads *)

Lemma obind_Ok {A B : Type} (o : outcome A) (f : A -> outcome B) (b : B) :
  obind o f = Ok b -> exists a, o = Ok a /\ f a = Ok b.
Proof.
  destruct o as [a| |]; simpl; intros H; try discriminate.
  exists a; split; [reflexivity | exact H].
Qed.

Lemma bind_Ok {A B : Type} (m : M A) (f : A -> M B) s b s' :
  bind m f s = Ok (b, s') ->
  exists a s1, m s = Ok (a, s1) /\ f a s1 = Ok (b, s').
Proof.
  unfold bind. destruct (m s) as [[a s1]| |]; intros H; try discriminate.
  exists a, s1; split; [reflexivity | exact H].
Qed.

Lemma lift_Ok {A : Type} (o : outcome A) s a s' :
  lift o s = Ok (a, s') -> o = Ok a /\ s' = s.
Proof.
  unfold lift. destruct o; intros H; inversion H; subst; auto.
Qed.

Lemma ret_Ok {A : Type} (x a : A) s s' :
  ret x s = Ok (a, s') -> a = x /\ s' = s.
Proof. unfold ret. intros H; inversion H; auto. Qed.

Lemma bind_eq_Ok {A B : Type} (m : M A) (f : A -> M B) s a s1 :
  m s = Ok (a, s1) -> bind m f s = f a s1.
Proof. unfold bind. intros ->. reflexivity. Qed.

(** Decompose hypotheses stating that a monadic computation returned. *)
Ltac inv_ok :=
  repeat match goal with
  | H : bind _ _ _ = Ok (_, _) |- _ =>
      let a := fresh "a" in let s := fresh "s" in
      let H1 := fresh "Hm" in let H2 := fresh "Hk" in
      apply bind_Ok in H; destruct H as (a & s & H1 & H2)
  | H : lift _ _ = Ok (_, _) |- _ =>
      let H1 := fresh "Hl" in
      apply lift_Ok in H; destruct H as (H1 & ->)
  | H : ret _ _ = Ok (_, _) |- _ =>
      apply ret_Ok in H; destruct H as (-> & ->)
  | H : obind _ _ = Ok _ |- _ =>
      let a := fresh "a" in
      let H1 := fresh "Ho" in let H2 := fresh "Hk" in
      apply obind_Ok in H; destruct H as (a & H1 & H2)
  | H : Ok _ = Ok _ |- _ => inversion H; subst; clear H
  end.

(** ** Subscripts *)

Lemma py_index_inrange (n : nat) (i : Z) :
  0 <= i < Z.of_nat n -> py_index n i = Some (Z.to_nat i).
Proof.
  intros H. unfold py_index.
  replace (0 <=? i) with true by (symmetry; apply Z.leb_le; lia).
  replace (i <? Z.of_nat n) with true by (symmetry; apply Z.ltb_lt; lia).
  reflexivity.
Qed.

Lemma py_index_lt (n : nat) (i : Z) (k : nat) :
  py_index n i = Some k -> (k < n)%nat.
Proof.
  unfold py_index.
  destruct ((0 <=? i) && (i <? Z.of_nat n)) eqn:E1.
  - apply andb_prop in E1. destruct E1 as [E1 E2].
    apply Z.leb_le in E1. apply Z.ltb_lt in E2.
    intros H; inversion H; subst. lia.
  - destruct ((- Z.of_nat n <=? i) && (i <? 0)) eqn:E2; [|discriminate].
    apply andb_prop in E2. destruct E2 as [E2 E3].
    apply Z.leb_le in E2. apply Z.ltb_lt in E3.
    intros H; inversion H; subst. lia.
Qed.

Lemma py_index_nonneg (n : nat) (i : Z) (k : nat) :
  0 <= i -> py_index n i = Some k -> k = Z.to_nat i /\ i < Z.of_nat n.
Proof.
  intros Hi. unfold py_index.
  destruct ((0 <=? i) && (i <? Z.of_nat n)) eqn:E1.
  - apply andb_prop in E1. destruct E1 as [_ E2]. apply Z.ltb_lt in E2.
    intros H; inversion H; auto.
  - replace (i <? 0) with false by (symmetry; apply Z.ltb_ge; lia).
    rewrite andb_false_r. discriminate.
Qed.

Lemma list_set_length {A : Type} (k : nat) (v : A) (l : list A) :
  length (list_set k v l) = length l.
Proof.
  revert k; induction l as [|h t IH]; intros [|k]; simpl; auto.
Qed.

Lemma nth_list_set_eq {A : Type} (k : nat) (v d : A) (l : list A) :
  (k < length l)%nat -> nth k (list_set k v l) d = v.
Proof.
  revert k; induction l as [|h t IH]; intros [|k]; simpl; intros H;
    try lia; auto. apply IH. lia.
Qed.

Lemma nth_list_set_neq {A : Type} (k k' : nat) (v d : A) (l : list A) :
  k <> k' -> nth k' (list_set k v l) d = nth k' l d.
Proof.
  revert k k'; induction l as [|h t IH]; intros [|k] [|k'] H; simpl; auto;
    try congruence.
Qed.

Lemma zsum_list_set (k : nat) (v : Z) (l : list Z) :
  (k < length l)%nat -> zsum (list_set k v l) = zsum l - nth k l 0 + v.
Proof.
  revert k; induction l as [|h t IH]; intros [|k]; simpl; intros H; try lia.
  unfold zsum in *. simpl. rewrite IH by lia. lia.
Qed.

Lemma getitem_Ok {A : Type} (d : A) (a : list A) (i : Z) (c : A) :
  getitem d a i = Ok c ->
  exists k, py_index (length a) i = Some k /\ c = nth k a d /\ (k < length a)%nat.
Proof.
  unfold getitem. destruct (py_index (length a) i) as [k|] eqn:E; [|discriminate].
  intros H; inversion H; subst. exists k. repeat split.
  eapply py_index_lt; eauto.
Qed.

Lemma setitem_Ok {A : Type} (a : list A) (i : Z) (v : A) (a' : list A) :
  setitem a i v = Ok a' ->
  exists k, py_index (length a) i = Some k /\ a' = list_set k v a /\ (k < length a)%nat.
Proof.
  unfold setitem. destruct (py_index (length a) i) as [k|] eqn:E; [|discriminate].
  intros H; inversion H; subst. exists k. repeat split.
  eapply py_index_lt; eauto.
Qed.

Lemma getitem_inrange {A : Type} (d : A) (a : list A) (i : Z) :
  0 <= i < Z.of_nat (length a) -> getitem d a i = Ok (nth (Z.to_nat i) a d).
Proof. intros H. unfold getitem. rewrite py_index_inrange by exact H. reflexivity. Qed.

Lemma setitem_inrange {A : Type} (a : list A) (i : Z) (v : A) :
  0 <= i < Z.of_nat (length a) -> setitem a i v = Ok (list_set (Z.to_nat i) v a).
Proof. intros H. unfold setitem. rewrite py_index_inrange by exact H. reflexivity. Qed.

Lemma setitem_length {A : Type} (a : list A) (i : Z) (v : A) (a' : list A) :
  setitem a i v = Ok a' -> length a' = length a.
Proof.
  intros H. apply setitem_Ok in H. destruct H as (k & _ & -> & _).
  apply list_set_length.
Qed.

(** * Geometry sampler *)

Lemma binary_round_aux_cases (s : bool) (mx ex : Z) (lx : location) :
  let r := binary_round_aux F64.prec F64.emax s mx ex lx in
  r = S754_zero s \/ r = S754_infinity s \/ r = S754_nan \/
  exists m e, r = S754_finite s m e.
Proof.
  unfold binary_round_aux.
  destruct (shr_fexp F64.prec F64.emax mx ex lx) as [mrs' e'].
  destruct (shr_fexp F64.prec F64.emax _ e' loc_Exact) as [mrs'' e''].
  destruct (shr_m mrs'') as [|m|m]; auto.
  destruct (e'' <=? F64.emax - F64.prec); eauto 6.
Qed.

Lemma sqrt_not_below_zero (x : float) (sgn : bool) :
  F64.ltb (F64.sqrt x) (S754_zero sgn) = false.
Proof.
  destruct x as [s|s| |s m e]; try (destruct s; reflexivity); try reflexivity.
  destruct s; [reflexivity|].
  unfold F64.sqrt, SFsqrt.
  destruct (SFsqrt_core_binary F64.prec F64.emax (Z.pos m) e) as [[mz ez] lz].
  destruct (binary_round_aux_cases false mz ez lz) as [H|[H|[H|(m' & e' & H)]]];
    rewrite H; reflexivity.
Qed.

Lemma norm_not_below_zero (v : vec3) (sgn : bool) :
  F64.ltb (norm v) (S754_zero sgn) = false.
Proof. destruct v as [[x y] z]. unfold norm. apply sqrt_not_below_zero. Qed.

Lemma check_distances_spec (xyz : list vec3) (threshold : float) :
  check_distances xyz threshold = true <->
  forall i j, (i < j < length xyz)%nat -> F64.ltb (distance xyz i j) threshold = false.
Proof.
  unfold check_distances, distance. rewrite forallb_forall. split.
  - intros H i j Hij.
    assert (Hi : In i (seq 0 (length xyz - 1))) by (apply in_seq; lia).
    specialize (H i Hi). rewrite forallb_forall in H.
    assert (Hj : In j (seq (i + 1) (length xyz - (i + 1)))) by (apply in_seq; lia).
    specialize (H j Hj). apply negb_true_iff in H. exact H.
  - intros H i Hi. apply in_seq in Hi. apply forallb_forall. intros j Hj.
    apply in_seq in Hj. apply negb_true_iff. apply H. lia.
Qed.

Lemma check_distances_zero (xyz : list vec3) (sgn : bool) :
  check_distances xyz (S754_zero sgn) = true.
Proof.
  apply check_distances_spec. intros i j _. apply norm_not_below_zero.
Qed.

Lemma check_distances_short (xyz : list vec3) (threshold : float) :
  (length xyz <= 1)%nat -> check_distances xyz threshold = true.
Proof.
  intros H. apply check_distances_spec. intros i j Hij. lia.
Qed.

Lemma place_element_spec (todo : nat) :
  forall m elem numatoms xyz atilist s xyz' ati' s',
    place_element todo m elem numatoms xyz atilist s = Ok ((xyz', ati'), s') ->
    length xyz' = length xyz /\ ati' = atilist ++ repeat elem todo.
Proof.
  induction todo as [|t IH]; simpl; intros m elem numatoms xyz atilist s xyz' ati' s' H.
  - inv_ok. inversion H; subst. rewrite app_nil_r. auto.
  - inv_ok. apply IH in Hk0. destruct Hk0 as [Hlen ->].
    apply setitem_length in Hl. rewrite <- app_assoc. simpl. split; [congruence|reflexivity].
Qed.

Lemma place_all_spec (at_ : list Z) :
  forall elem numatoms xyz atilist s xyz' ati' s',
    place_all at_ elem numatoms xyz atilist s = Ok ((xyz', ati'), s') ->
    length xyz' = length xyz /\ ati' = atilist ++ expand at_ elem.
Proof.
  induction at_ as [|count rest IH]; simpl; intros elem numatoms xyz atilist s xyz' ati' s' H.
  - inv_ok. inversion H; subst. rewrite app_nil_r. auto.
  - inv_ok. destruct a as [xyz1 ati1].
    apply place_element_spec in Hm. destruct Hm as [Hlen1 ->].
    apply IH in Hk. destruct Hk as [Hlen2 ->].
    rewrite <- app_assoc. split; [congruence|reflexivity].
Qed.

Lemma generate_random_coordinates_spec (at_ : list Z) s xyz ati s' :
  generate_random_coordinates at_ s = Ok ((xyz, ati), s') ->
  length xyz = Z.to_nat (zsum at_) /\ ati = expand at_ 0.
Proof.
  unfold generate_random_coordinates.
  destruct (zsum at_ <? 0); [discriminate|].
  intros H. apply place_all_spec in H. rewrite repeat_length in H. exact H.
Qed.

Lemma bind_lift_Ok {A B : Type} (o : outcome A) (f : A -> M B) a s :
  o = Ok a -> bind (lift o) f s = f a s.
Proof. intros ->. reflexivity. Qed.

Lemma rand_total s : exists u, rand s = Ok (u, {| tape := tape s; cursor := S (cursor s) |}).
Proof. eexists. reflexivity. Qed.

Lemma rand3_total s : exists v s', rand3 s = Ok (v, s').
Proof. eexists. eexists. reflexivity. Qed.

Lemma place_element_total (todo : nat) :
  forall m elem numatoms xyz atilist s,
    0 <= numatoms + m ->
    numatoms + m + Z.of_nat todo <= Z.of_nat (length xyz) ->
    exists r s', place_element todo m elem numatoms xyz atilist s = Ok (r, s').
Proof.
  induction todo as [|t IH]; intros m elem numatoms xyz atilist s Hlo Hhi.
  - simpl. eexists. eexists. reflexivity.
  - cbn [place_element].
    destruct (rand3_total s) as (v & s1 & Hr).
    rewrite (bind_eq_Ok _ _ _ _ _ Hr).
    assert (Hin : 0 <= numatoms + m < Z.of_nat (length xyz)) by lia.
    rewrite (bind_lift_Ok _ _ _ _ (setitem_inrange xyz _ _ Hin)).
    apply IH; rewrite ?list_set_length; lia.
Qed.

Lemma zsum_nonneg (a : list Z) : Forall (fun c => 0 <= c) a -> 0 <= zsum a.
Proof.
  induction 1 as [|c rest Hc _ IH]; unfold zsum in *; simpl; lia.
Qed.

Lemma zsum_cons (c : Z) (a : list Z) : zsum (c :: a) = c + zsum a.
Proof. reflexivity. Qed.

Lemma place_all_total (at_ : list Z) :
  Forall (fun c => 0 <= c) at_ ->
  forall elem numatoms xyz atilist s,
    0 <= numatoms ->
    numatoms + zsum at_ <= Z.of_nat (length xyz) ->
    exists r s', place_all at_ elem numatoms xyz atilist s = Ok (r, s').
Proof.
  induction 1 as [|count rest Hc Hrest IH]; intros elem numatoms xyz atilist s Hlo Hhi.
  - simpl. eexists. eexists. reflexivity.
  - cbn [place_all]. rewrite zsum_cons in Hhi.
    pose proof (zsum_nonneg rest Hrest) as Hs.
    destruct (place_element_total (Z.to_nat count) 0 elem numatoms xyz atilist s
                ltac:(lia) ltac:(lia)) as ([xyz1 ati1] & s1 & Hp).
    rewrite (bind_eq_Ok _ _ _ _ _ Hp).
    apply place_element_spec in Hp. destruct Hp as [Hlen _].
    apply IH; [lia | rewrite Hlen; lia].
Qed.

Lemma generate_random_coordinates_total (at_ : list Z) s :
  Forall (fun c => 0 <= c) at_ ->
  exists xyz ati s', generate_random_coordinates at_ s = Ok ((xyz, ati), s').
Proof.
  intros Hnn. pose proof (zsum_nonneg at_ Hnn) as Hs.
  unfold generate_random_coordinates.
  replace (zsum at_ <? 0) with false by (symmetry; apply Z.ltb_ge; lia).
  destruct (place_all_total at_ Hnn 0 0 (repeat vec3_zero (Z.to_nat (zsum at_))) [] s
              ltac:(lia) ltac:(rewrite repeat_length; lia)) as ([xyz ati] & s' & H).
  eauto.
Qed.

Lemma expand_length (at_ : list Z) :
  Forall (fun c => 0 <= c) at_ ->
  forall elem, length (expand at_ elem) = Z.to_nat (zsum at_).
Proof.
  induction 1 as [|count rest Hc Hrest IH]; intros elem; cbn [expand]; [reflexivity|].
  rewrite length_app, repeat_length, IH, zsum_cons.
  pose proof (zsum_nonneg rest Hrest). lia.
Qed.

Lemma expand_lower (at_ : list Z) :
  forall elem x, In x (expand at_ elem) -> elem <= x.
Proof.
  induction at_ as [|count rest IH]; simpl; intros elem x H; [contradiction|].
  apply in_app_or in H. destruct H as [H|H].
  - apply repeat_spec in H. lia.
  - apply IH in H. lia.
Qed.

Lemma expand_nondecreasing (at_ : list Z) :
  forall elem, nondecreasing (expand at_ elem).
Proof.
  induction at_ as [|count rest IH]; intros elem i j Hij; simpl in *; [lia|].
  rewrite length_app, repeat_length in Hij.
  destruct (Nat.lt_ge_cases j (Z.to_nat count)) as [Hj|Hj].
  - rewrite !app_nth1 by (rewrite repeat_length; lia).
    rewrite !nth_repeat_lt by lia. lia.
  - rewrite (app_nth2 _ _ _ (n := j)) by (rewrite repeat_length; lia).
    rewrite repeat_length.
    assert (Hin : In (nth (j - Z.to_nat count) (expand rest (elem + 1)) 0)
                     (expand rest (elem + 1))) by (apply nth_In; lia).
    apply expand_lower in Hin.
    destruct (Nat.lt_ge_cases i (Z.to_nat count)) as [Hi|Hi].
    + rewrite app_nth1 by (rewrite repeat_length; lia).
      rewrite nth_repeat_lt by lia. lia.
    + rewrite app_nth2 by (rewrite repeat_length; lia).
      rewrite repeat_length. apply IH. lia.
Qed.

Lemma scale_length (xyz : list vec3) (c : float) : length (scale xyz c) = length xyz.
Proof. apply length_map. Qed.

Lemma rescale_loop_spec (at_ : list Z) (thr inc : float) (fuel : nat) :
  forall eff xyz ati s xyz' ati' s',
    length xyz = Z.to_nat (zsum at_) -> ati = expand at_ 0 ->
    rescale_loop fuel at_ thr inc eff xyz ati s = Ok ((xyz', ati'), s') ->
    check_distances xyz' thr = true /\
    length xyz' = Z.to_nat (zsum at_) /\ ati' = expand at_ 0.
Proof.
  induction fuel as [|f IH]; intros eff xyz ati s xyz' ati' s' Hlen Hati H;
    cbn [rescale_loop] in H;
    destruct (check_distances xyz thr) eqn:Hc.
  - inv_ok. inversion H; subst. auto.
  - discriminate.
  - inv_ok. inversion H; subst. auto.
  - inv_ok. destruct a as [raw ati1].
    apply generate_random_coordinates_spec in Hm. destruct Hm as [Hl1 Ha1].
    eapply IH; [| exact Ha1 | exact Hk]. rewrite scale_length. exact Hl1.
Qed.

Lemma SFcompare_antisym (x y : float) (c : comparison) :
  SFcompare x y = Some c -> SFcompare y x = Some (CompOpp c).
Proof.
  destruct x as [sx|sx| |sx mx ex], y as [sy|sy| |sy my ey]; simpl;
    try discriminate; intros H; inversion H; subst; clear H;
    try reflexivity;
    try (destruct sx; reflexivity);
    try (destruct sy; reflexivity);
    try (destruct sx, sy; reflexivity).
  f_equal. rewrite (Z.compare_antisym ex ey).
  destruct sx, sy; try reflexivity;
    destruct (ex ?= ey); simpl; try reflexivity;
    pose proof (Pos.compare_cont_antisym mx my Eq) as P; simpl in P;
    rewrite <- P; rewrite ?CompOpp_involutive; reflexivity.
Qed.

Lemma not_below_is_at_least (x y : float) :
  F64.is_nan x = false -> F64.is_nan y = false ->
  F64.ltb x y = false -> F64.leb y x = true.
Proof.
  unfold F64.ltb, F64.leb, SFltb, SFleb. intros Hx Hy.
  destruct (SFcompare x y) as [c|] eqn:E.
  - rewrite (SFcompare_antisym _ _ _ E). destruct c; simpl; congruence.
  - destruct x, y; simpl in *; discriminate.
Qed.

(** * Composition sampler: metal-abundance limiting *)

(** ** Sampling primitives *)

Lemma randint_spec (lo hi : Z) s :
  lo < hi -> exists k, lo <= k < hi /\ randint lo hi s = Ok (k, advance s).
Proof.
  intros H. unfold randint.
  replace (hi <=? lo) with false by (symmetry; apply Z.leb_gt; lia).
  exists (lo + tape s (cursor s) mod (hi - lo)). split; [|reflexivity].
  pose proof (Z.mod_pos_bound (tape s (cursor s)) (hi - lo)). lia.
Qed.

Lemma choice_spec (l : list Z) s :
  l <> [] -> exists x, In x l /\ choice l s = Ok (x, advance s).
Proof.
  intros H. destruct l as [|h t]; [congruence|].
  unfold choice.
  exists (nth (Z.to_nat (tape s (cursor s) mod Z.of_nat (length (h :: t)))) (h :: t) 0).
  split; [|reflexivity].
  apply nth_In.
  pose proof (Z.mod_pos_bound (tape s (cursor s)) (Z.of_nat (length (h :: t)))).
  simpl length in *. lia.
Qed.

Lemma choice_Ok (l : list Z) s x s' :
  choice l s = Ok (x, s') -> In x l /\ s' = advance s.
Proof.
  intros H. destruct l as [|h t]; [discriminate|].
  destruct (choice_spec (h :: t) s ltac:(discriminate)) as (y & Hy & E).
  rewrite E in H. inversion H; subst. auto.
Qed.

Lemma randint_Ok (lo hi : Z) s k s' :
  randint lo hi s = Ok (k, s') -> lo <= k < hi /\ s' = advance s.
Proof.
  intros H. destruct (Z.lt_ge_cases lo hi) as [Hlt|Hge].
  - destruct (randint_spec lo hi s Hlt) as (y & Hy & E).
    rewrite E in H. inversion H; subst. auto.
  - unfold randint in H.
    replace (hi <=? lo) with true in H by (symmetry; apply Z.leb_le; lia).
    discriminate.
Qed.

Lemma py_range_In (lo hi x : Z) : In x (py_range lo hi) <-> lo <= x < hi.
Proof.
  unfold py_range. rewrite in_map_iff. split.
  - intros (k & <- & Hk). apply in_seq in Hk. lia.
  - intros H. exists (Z.to_nat (x - lo)). split; [lia|]. apply in_seq. lia.
Qed.

Lemma valid_elems_range (cfg : GenerateConfig) : in_range 86 (valid_elems cfg).
Proof.
  apply Forall_forall. intros x Hx. unfold valid_elems in Hx.
  apply filter_In in Hx. destruct Hx as [Hx _].
  apply py_range_In in Hx. unfold MAX_ELEM in Hx. lia.
Qed.

(** ** Arrays of counts *)

Lemma nonneg_nth (a : list Z) (k : nat) : nonneg a -> 0 <= nth k a 0.
Proof.
  intros H. destruct (Nat.lt_ge_cases k (length a)) as [Hk|Hk].
  - unfold nonneg in H. rewrite Forall_forall in H. apply H. apply nth_In. exact Hk.
  - rewrite nth_overflow by exact Hk. lia.
Qed.

Lemma nonneg_list_set (a : list Z) (k : nat) (v : Z) :
  nonneg a -> 0 <= v -> nonneg (list_set k v a).
Proof.
  intros H Hv. revert k. induction H as [|h t Hh Ht IH]; intros [|k]; simpl;
    constructor; auto. apply IH.
Qed.

Lemma nonneg_repeat (n : nat) : nonneg (repeat 0 n).
Proof. apply Forall_forall. intros x Hx. apply repeat_spec in Hx. lia. Qed.

Lemma group_count_cons (i : Z) (g a : list Z) :
  group_count (i :: g) a = nth (Z.to_nat i) a 0 + group_count g a.
Proof. reflexivity. Qed.

Lemma group_count_list_set_out (g a : list Z) (k : nat) (v : Z) :
  Forall (fun i => 0 <= i) g -> ~ In (Z.of_nat k) g ->
  group_count g (list_set k v a) = group_count g a.
Proof.
  induction 1 as [|i rest Hi Hrest IH]; intros Hout; [reflexivity|].
  rewrite !group_count_cons. rewrite IH by (intros F; apply Hout; right; exact F).
  rewrite nth_list_set_neq; [reflexivity|].
  intros E. apply Hout. left. lia.
Qed.

Lemma group_count_list_set_in (g a : list Z) (i : Z) (v : Z) :
  NoDup g -> Forall (fun i => 0 <= i) g -> In i g ->
  (Z.to_nat i < length a)%nat ->
  group_count g (list_set (Z.to_nat i) v a) =
  group_count g a - nth (Z.to_nat i) a 0 + v.
Proof.
  induction 1 as [|h rest Hh Hnd IH]; intros Hpos Hin Hlen; [contradiction|].
  inversion Hpos as [|? ? Hh0 Hrest0]; subst.
  rewrite !group_count_cons. destruct Hin as [->|Hin].
  - rewrite nth_list_set_eq by exact Hlen.
    rewrite group_count_list_set_out; auto; [lia|].
    rewrite Z2Nat.id by (inversion Hpos; assumption). exact Hh.
  - rewrite IH by assumption.
    rewrite nth_list_set_neq; [lia|].
    intros E. apply Hh. 
    assert (0 <= i) by (rewrite Forall_forall in Hrest0; apply Hrest0; exact Hin).
    replace h with i by lia. exact Hin.
Qed.

Lemma group_count_ext (g a a' : list Z) :
  (forall i, In i g -> nth (Z.to_nat i) a' 0 = nth (Z.to_nat i) a 0) ->
  group_count g a' = group_count g a.
Proof.
  induction g as [|i rest IH]; intros H; [reflexivity|].
  rewrite !group_count_cons, H, IH; auto with datatypes.
Qed.

Lemma count_group_spec (n : nat) (g a : list Z) :
  in_range n g -> length a = n ->
  forall acc, count_group g a acc = Ok (acc + group_count g a).
Proof.
  intros Hg Hlen. induction Hg as [|i rest Hi Hrest IH]; intros acc; simpl.
  - f_equal. unfold group_count, zsum. simpl. lia.
  - rewrite getitem_inrange by lia. simpl. rewrite IH, group_count_cons. f_equal. lia.
Qed.

(** ** Metal-limiting passes *)

Lemma in_range_nonneg (n : nat) (g : list Z) :
  in_range n g -> Forall (fun i => 0 <= i) g.
Proof. apply Forall_impl. intros; lia. Qed.

Lemma in_range_incl (n : nat) (g G : list Z) :
  incl g G -> in_range n G -> in_range n g.
Proof.
  intros Hi HG. apply Forall_forall. intros x Hx.
  unfold in_range in HG. rewrite Forall_forall in HG. auto.
Qed.

Lemma scan_group_spec (n : nat) (G : list Z) :
  NoDup G -> in_range n G ->
  forall g a m,
    incl g G -> NoDup g -> length a = n -> nonneg a ->
    exists a' m',
      scan_group g a m = Ok (a', m') /\
      length a' = n /\ nonneg a' /\
      (forall k, ~ In (Z.of_nat k) g -> nth k a' 0 = nth k a 0) /\
      group_count G a' - m' = group_count G a - m /\
      m' <= m /\
      (3 < m -> 0 < group_count g a -> m' < m).
Proof.
  intros HndG HG. induction g as [|i rest IH]; intros a m Hincl Hnd Hlen Hnn.
  - exists a, m. simpl. repeat split; auto; try lia.
    unfold group_count, zsum; simpl; lia.
  - assert (HiG : In i G) by (apply Hincl; left; reflexivity).
    assert (Hi : 0 <= i < Z.of_nat n)
      by (unfold in_range in HG; rewrite Forall_forall in HG; auto).
    assert (Hrest : incl rest G) by (intros x Hx; apply Hincl; right; exact Hx).
    apply NoDup_cons_iff in Hnd. destruct Hnd as [Hirest Hndrest].
    cbn [scan_group]. rewrite getitem_inrange by lia. cbn [obind].
    set (c := nth (Z.to_nat i) a 0).
    assert (Hc : 0 <= c) by (apply nonneg_nth; exact Hnn).
    destruct (0 <? c) eqn:Ec.
    + apply Z.ltb_lt in Ec.
      rewrite setitem_inrange by lia. cbn [obind fst snd].
      set (a1 := list_set (Z.to_nat i) (c - 1) a).
      assert (Hlen1 : length a1 = length a) by apply list_set_length.
      assert (Hnn1 : nonneg a1) by (apply nonneg_list_set; [exact Hnn | lia]).
      assert (Hcnt1 : group_count G a1 = group_count G a - 1).
      { unfold a1. rewrite group_count_list_set_in; auto; try lia.
        eapply in_range_nonneg; eauto. }
      assert (Hout1 : forall k, ~ In (Z.of_nat k) (i :: rest) -> nth k a1 0 = nth k a 0).
      { intros k Hk. unfold a1. apply nth_list_set_neq.
        intros E. apply Hk. left. lia. }
      destruct (m - 1 <=? 3) eqn:Em.
      * exists a1, (m - 1). repeat split; auto; try lia.
      * destruct (IH a1 (m - 1) Hrest Hndrest ltac:(lia) Hnn1)
          as (a' & m' & Hs & Hl' & Hn' & Ho' & Hc' & Hle' & _).
        exists a', m'. repeat split; auto; try lia.
        intros k Hk. rewrite Ho' by (intros F; apply Hk; right; exact F).
        apply Hout1. exact Hk.
    + apply Z.ltb_ge in Ec. cbn [obind fst snd].
      destruct (m <=? 3) eqn:Em.
      * apply Z.leb_le in Em. exists a, m. repeat split; auto; try lia.
      * destruct (IH a m Hrest Hndrest Hlen Hnn)
          as (a' & m' & Hs & Hl' & Hn' & Ho' & Hc' & Hle' & Hlt').
        exists a', m'. repeat split; auto.
        -- intros k Hk. apply Ho'. intros F; apply Hk; right; exact F.
        -- intros H3 Hpos. apply Hlt'; [exact H3|].
           rewrite group_count_cons in Hpos. fold c in Hpos. lia.
Qed.

Lemma reduce_metals_spec (n : nat) (G : list Z) :
  NoDup G -> in_range n G ->
  forall fuel a m,
    length a = n -> nonneg a -> m = group_count G a ->
    match reduce_metals fuel G a m with
    | Ok a' => limited n G a a'
    | Raise _ => False
    | OutOfFuel => (fuel < Z.to_nat (m - 3))%nat
    end.
Proof.
  intros HndG HG. induction fuel as [|f IH]; intros a m Hlen Hnn Hm;
    cbn [reduce_metals]; destruct (3 <? m) eqn:E3;
    try (apply Z.ltb_ge in E3; unfold limited; repeat split; auto; lia);
    apply Z.ltb_lt in E3.
  - lia.
  - destruct (scan_group_spec n G HndG HG G a m (incl_refl G) HndG Hlen Hnn)
      as (a1 & m1 & Hs & Hl1 & Hn1 & Ho1 & Hc1 & Hle1 & Hlt1).
    rewrite Hs. cbn [obind fst snd].
    specialize (IH a1 m1 Hl1 Hn1 ltac:(lia)).
    specialize (Hlt1 E3 ltac:(lia)).
    destruct (reduce_metals f G a1 m1) as [a'| |]; auto; [|lia].
    destruct IH as (Hl' & Hn' & Ho' & Hc').
    unfold limited. repeat split; auto.
    intros k Hk. rewrite Ho' by exact Hk. apply Ho1. exact Hk.
Qed.

Lemma limit_metals_spec (n : nat) (G : list Z) (fuel : nat) (a : list Z) :
  NoDup G -> in_range n G -> length a = n -> nonneg a ->
  match limit_metals fuel G a with
  | Ok a' => limited n G a a'
  | Raise _ => False
  | OutOfFuel => (fuel < Z.to_nat (group_count G a - 3))%nat
  end.
Proof.
  intros HndG HG Hlen Hnn. unfold limit_metals.
  rewrite (count_group_spec n G a HG Hlen). cbn [obind]. rewrite Z.add_0_l.
  apply reduce_metals_spec; auto.
Qed.

(** ** Decidable side conditions on index lists *)

Lemma existsb_Zeqb (x : Z) (l : list Z) : existsb (Z.eqb x) l = true <-> In x l.
Proof.
  rewrite existsb_exists. split.
  - intros (y & Hy & E). apply Z.eqb_eq in E. subst. exact Hy.
  - intros H. exists x. split; [exact H | apply Z.eqb_refl].
Qed.

Lemma nodupb_sound (l : list Z) : nodupb l = true -> NoDup l.
Proof.
  induction l as [|x t IH]; simpl; intros H; constructor;
    apply andb_prop in H; destruct H as [H1 H2]; auto.
  intros F. apply existsb_Zeqb in F. rewrite F in H1. discriminate.
Qed.

Lemma in_rangeb_sound (n : nat) (g : list Z) : in_rangeb n g = true -> in_range n g.
Proof.
  unfold in_rangeb, in_range. rewrite forallb_forall, Forall_forall.
  intros H x Hx. specialize (H x Hx). apply andb_prop in H. destruct H as [H1 H2].
  apply Z.leb_le in H1. apply Z.ltb_lt in H2. lia.
Qed.

Lemma disjointb_sound (g1 g2 : list Z) :
  disjointb g1 g2 = true -> forall i, In i g1 -> ~ In i g2.
Proof.
  unfold disjointb. rewrite forallb_forall. intros H i Hi F.
  specialize (H i Hi). apply existsb_Zeqb in F. rewrite F in H. discriminate.
Qed.

Lemma group_one_two_nodup : NoDup group_one_two.
Proof. apply nodupb_sound. reflexivity. Qed.

Lemma other_metals_nodup : NoDup other_metals.
Proof. apply nodupb_sound. reflexivity. Qed.

Lemma group_one_two_range : in_range 102 group_one_two.
Proof. apply in_rangeb_sound. reflexivity. Qed.

Lemma other_metals_range : in_range 102 other_metals.
Proof. apply in_rangeb_sound. reflexivity. Qed.

Lemma metal_groups_disjoint : forall i, In i group_one_two -> ~ In i other_metals.
Proof. apply disjointb_sound. reflexivity. Qed.

Lemma metal_group_members (i : Z) :
  (In i group_one_two <-> In i [2; 10; 18; 36; 54; 3; 11; 19; 37; 55]) /\
  (In i other_metals <->
   20 <= i <= 29 \/ 38 <= i <= 47 \/ 71 <= i <= 79 \/ 56 <= i <= 70).
Proof.
  split; [reflexivity|].
  unfold other_metals, get_three_d_metals, get_four_d_metals,
    get_five_d_metals, get_lanthanides.
  rewrite !in_app_iff, !py_range_In. lia.
Qed.

Lemma group_count_le_zsum (g : list Z) :
  NoDup g -> forall a, in_range (length a) g -> nonneg a -> group_count g a <= zsum a.
Proof.
  induction 1 as [|i rest Hi Hnd IH]; intros a Hr Hnn.
  - unfold group_count. simpl. apply zsum_nonneg. exact Hnn.
  - inversion Hr as [|? ? Hi0 Hrest0]; subst.
    rewrite group_count_cons.
    rewrite <- (group_count_list_set_out rest a (Z.to_nat i) 0).
    + specialize (IH (list_set (Z.to_nat i) 0 a)).
      rewrite list_set_length in IH.
      specialize (IH Hrest0 (nonneg_list_set a (Z.to_nat i) 0 Hnn (Z.le_refl 0))).
      rewrite zsum_list_set in IH by lia. lia.
    + eapply in_range_nonneg; eauto.
    + rewrite Z2Nat.id by lia. exact Hi.
Qed.

(** ** The first loop *)

Lemma add_random_atoms_spec (n : nat) (valid : list Z) :
  in_range n valid ->
  forall rounds a s,
    length a = n -> nonneg a ->
    match add_random_atoms rounds valid a s with
    | Ok (a', _) =>
        length a' = n /\ nonneg a' /\ zsum a' <= zsum a + 2 * Z.of_nat rounds
    | Raise _ => valid = []
    | OutOfFuel => False
    end.
Proof.
  intros Hv. induction rounds as [|r IH]; intros a s Hlen Hnn.
  - simpl. repeat split; auto. lia.
  - cbn [add_random_atoms].
    destruct valid as [|v0 vs] eqn:Ev; [reflexivity|]. rewrite <- Ev in *.
    destruct (choice_spec valid s ltac:(rewrite Ev; discriminate)) as (ati & Hati & Ec).
    rewrite (bind_eq_Ok _ _ _ _ _ Ec).
    assert (Hr : 0 <= ati < Z.of_nat (length a))
      by (unfold in_range in Hv; rewrite Forall_forall in Hv; rewrite Hlen; auto).
    rewrite (bind_lift_Ok _ _ _ _ (getitem_inrange 0 a ati Hr)).
    destruct (randint_spec 0 3 (advance s) ltac:(lia)) as (k & Hk & Er).
    rewrite (bind_eq_Ok _ _ _ _ _ Er).
    rewrite (bind_lift_Ok _ _ _ _ (setitem_inrange a ati _ Hr)).
    pose proof (nonneg_nth a (Z.to_nat ati) Hnn) as Hc.
    specialize (IH (list_set (Z.to_nat ati) (nth (Z.to_nat ati) a 0 + k) a)
                   (advance (advance s))).
    rewrite list_set_length in IH.
    assert (Hck : 0 <= nth (Z.to_nat ati) a 0 + k) by lia.
    specialize (IH Hlen (nonneg_list_set a _ _ Hnn Hck)).
    destruct (add_random_atoms r valid _ _) as [[a' s']| |]; auto.
    destruct IH as (H1 & H2 & H3). repeat split; auto.
    rewrite zsum_list_set in H3 by lia. lia.
Qed.

(** ** The sampler up to the limiting passes *)

Lemma in_range_weaken (n m : nat) (g : list Z) :
  (n <= m)%nat -> in_range n g -> in_range m g.
Proof. intros H. apply Forall_impl. intros; lia. Qed.

Lemma limited_other_group (n : nat) (G G' a a' : list Z) :
  limited n G a a' -> in_range n G' -> (forall i, In i G' -> ~ In i G) ->
  group_count G' a' = group_count G' a.
Proof.
  intros (_ & _ & Ho & _) Hr Hd. apply group_count_ext. intros i Hi.
  apply Ho. unfold in_range in Hr. rewrite Forall_forall in Hr.
  specialize (Hr i Hi). rewrite Z2Nat.id by lia. apply Hd. exact Hi.
Qed.

Lemma sample_and_limit_spec (fuel : nat) (cfg : GenerateConfig) s :
  match sample_and_limit fuel cfg s with
  | Ok (a, _) =>
      length a = 102%nat /\ nonneg a /\
      group_count group_one_two a <= 3 /\ group_count other_metals a <= 3
  | Raise _ => valid_elems cfg = []
  | OutOfFuel => (fuel < 9)%nat
  end.
Proof.
  unfold sample_and_limit.
  destruct (randint_spec 1 7 s ltac:(lia)) as (k & Hk & Er).
  rewrite (bind_eq_Ok _ _ _ _ _ Er).
  pose proof (add_random_atoms_spec 102 (valid_elems cfg)
                (in_range_weaken 86 102 _ ltac:(lia) (valid_elems_range cfg))
                (Z.to_nat k) (repeat 0 102) (advance s)
                (repeat_length 0 102) (nonneg_repeat 102)) as H0.
  unfold bind at 1.
  destruct (add_random_atoms _ _ _ _) as [[a0 s0]| |]; auto; [|contradiction].
  destruct H0 as (Hl0 & Hn0 & Hs0).
  assert (Hz0 : zsum a0 <= 12).
  { replace (zsum (repeat 0 102)) with 0 in Hs0 by reflexivity. lia. }
  pose proof (limit_metals_spec 102 group_one_two fuel a0
                group_one_two_nodup group_one_two_range Hl0 Hn0) as H1.
  pose proof (group_count_le_zsum _ group_one_two_nodup a0
                ltac:(rewrite Hl0; apply group_one_two_range) Hn0) as Hb1.
  unfold bind at 1. unfold lift at 1.
  destruct (limit_metals fuel group_one_two a0) as [a1| |]; [|contradiction|lia].
  pose proof H1 as (Hl1 & Hn1 & Ho1 & Hc1).
  pose proof (limit_metals_spec 102 other_metals fuel a1
                other_metals_nodup other_metals_range Hl1 Hn1) as H2.
  assert (Hb2 : group_count other_metals a1 <= 12).
  { rewrite (limited_other_group _ _ _ _ _ H1 other_metals_range).
    - pose proof (group_count_le_zsum _ other_metals_nodup a0
                    ltac:(rewrite Hl0; apply other_metals_range) Hn0). lia.
    - intros i Hi F. exact (metal_groups_disjoint i F Hi). }
  unfold lift.
  destruct (limit_metals fuel other_metals a1) as [a2| |]; [|contradiction|lia].
  pose proof H2 as (Hl2 & Hn2 & Ho2 & Hc2).
  repeat split; auto.
  rewrite (limited_other_group _ _ _ _ _ H2 group_one_two_range); [exact Hc1|].
  exact metal_groups_disjoint.
Qed.

(** * Binary64 bounds for the hydrogen backfill *)

Lemma digits2_pos_bound (p : positive) :
  forall K, 0 <= K -> Zpos p < 2 ^ K -> Zpos (digits2_pos p) <= K.
Proof.
  induction p as [q IH|q IH|]; intros K HK H; cbn [digits2_pos];
    rewrite ?Pos2Z.inj_succ.
  - assert (K <> 0) by (intros ->; simpl in H; lia).
    replace K with (Z.succ (K - 1)) in H by lia.
    rewrite Z.pow_succ_r in H by lia.
    specialize (IH (K - 1) ltac:(lia) ltac:(lia)). lia.
  - assert (K <> 0) by (intros ->; simpl in H; lia).
    replace K with (Z.succ (K - 1)) in H by lia.
    rewrite Z.pow_succ_r in H by lia.
    specialize (IH (K - 1) ltac:(lia) ltac:(lia)). lia.
  - assert (K <> 0) by (intros ->; simpl in H; lia). lia.
Qed.

Lemma Zdigits2_bound (m K : Z) :
  0 <= K -> 0 <= m < 2 ^ K -> Zdigits2 m <= K.
Proof.
  intros HK [H0 H]. destruct m as [|p|p]; simpl; try lia.
  apply digits2_pos_bound; assumption.
Qed.

Lemma Zdigits2_nonneg (m : Z) : 0 <= Zdigits2 m.
Proof. destruct m; simpl; lia. Qed.

Lemma shr_1_bound (mrs : shr_record) :
  0 <= shr_m mrs -> 0 <= shr_m (shr_1 mrs) <= shr_m mrs.
Proof.
  destruct mrs as [m r s]. destruct m as [|p|p]; simpl; try lia;
    destruct p; simpl; lia.
Qed.

Lemma iter_pos_shr_1_bound (p : positive) :
  forall mrs, 0 <= shr_m mrs ->
    0 <= shr_m (iter_pos shr_1 p mrs) <= shr_m mrs.
Proof.
  induction p as [q IH|q IH|]; intros mrs H; cbn [iter_pos].
  - pose proof (shr_1_bound mrs H) as H1.
    pose proof (IH (shr_1 mrs) ltac:(lia)) as H2.
    pose proof (IH (iter_pos shr_1 q (shr_1 mrs)) ltac:(lia)). lia.
  - pose proof (IH mrs H) as H1.
    pose proof (IH (iter_pos shr_1 q mrs) ltac:(lia)). lia.
  - apply shr_1_bound. exact H.
Qed.

Lemma shr_fexp_bound (m e : Z) (l : location) (mrs' : shr_record) (e' : Z) :
  0 <= m ->
  shr_fexp F64.prec F64.emax m e l = (mrs', e') ->
  0 <= shr_m mrs' <= m /\
  (e' = e \/ e' = fexp F64.prec F64.emax (Zdigits2 m + e)).
Proof.
  intros Hm. unfold shr_fexp, shr.
  assert (Hrec : shr_m (shr_record_of_loc m l) = m)
    by (destruct l as [|[ | | ]]; reflexivity).
  destruct (fexp F64.prec F64.emax (Zdigits2 m + e) - e) as [|p|p] eqn:En;
    intros H; inversion H; subst; clear H; rewrite ?Hrec; try (split; [lia|auto]).
  split.
  - pose proof (iter_pos_shr_1_bound p (shr_record_of_loc m l)) as Hb.
    rewrite Hrec in Hb. apply Hb. exact Hm.
  - right. lia.
Qed.

Lemma round_nearest_even_bound (m : Z) (l : location) :
  m <= round_nearest_even m l <= m + 1.
Proof.
  unfold round_nearest_even. destruct l as [|[ | | ]]; try lia.
  destruct (Z.even m); lia.
Qed.

Lemma fexp_eq (x : Z) : fexp F64.prec F64.emax x = Z.max (x - 53) (-1074).
Proof. reflexivity. Qed.

Lemma binary_round_aux_bounded (mx ex K E : Z) (lx : location) :
  52 <= K -> 0 <= mx < 2 ^ K -> ex <= E ->
  Z.max (Z.max E (K + E - 53)) (-1074) + K - 52 <= 971 ->
  bounded_float (K + 1) (Z.max (Z.max E (K + E - 53)) (-1074) + K - 52)
    (binary_round_aux F64.prec F64.emax false mx ex lx).
Proof.
  intros HK Hmx Hex Hfin. unfold binary_round_aux.
  destruct (shr_fexp F64.prec F64.emax mx ex lx) as [mrs' e'] eqn:E1.
  apply shr_fexp_bound in E1; [|lia]. destruct E1 as [Hm1 He1].
  pose proof (Zdigits2_bound mx K ltac:(lia) Hmx) as Hd.
  pose proof (Zdigits2_nonneg mx) as Hd0.
  rewrite fexp_eq in He1.
  set (m1 := round_nearest_even (shr_m mrs') (loc_of_shr_record mrs')).
  pose proof (round_nearest_even_bound (shr_m mrs') (loc_of_shr_record mrs')) as Hr.
  fold m1 in Hr.
  assert (Hpow : 2 ^ K < 2 ^ (K + 1)) by (apply Z.pow_lt_mono_r; lia).
  assert (Hm1b : 0 <= m1 < 2 ^ (K + 1)) by lia.
  destruct (shr_fexp F64.prec F64.emax m1 e' loc_Exact) as [mrs'' e''] eqn:E2.
  apply shr_fexp_bound in E2; [|lia]. destruct E2 as [Hm2 He2].
  pose proof (Zdigits2_bound m1 (K + 1) ltac:(lia) Hm1b) as Hd1.
  pose proof (Zdigits2_nonneg m1) as Hd10.
  rewrite fexp_eq in He2.
  destruct (shr_m mrs'') as [|m|m] eqn:Em; simpl; try lia.
  replace (e'' <=? 971) with true by (symmetry; apply Z.leb_le; lia).
  simpl. repeat split; lia.
Qed.

Lemma bounded_float_weaken (K E K' E' : Z) (x : float) :
  bounded_float K E x -> 0 <= K <= K' -> E <= E' -> bounded_float K' E' x.
Proof.
  destruct x as [s|s| |s m e]; simpl; auto.
  intros (Hs & Hm & He) HK HE. repeat split; auto; [|lia].
  assert (2 ^ K <= 2 ^ K') by (apply Z.pow_le_mono_r; lia). lia.
Qed.

Lemma mul_bounded (K1 E1 K2 E2 : Z) (x y : float) :
  bounded_float K1 E1 x -> bounded_float K2 E2 y ->
  0 <= K1 -> 0 <= K2 -> 52 <= K1 + K2 ->
  Z.max (Z.max (E1 + E2) (K1 + K2 + (E1 + E2) - 53)) (-1074) + (K1 + K2) - 52 <= 971 ->
  bounded_float (K1 + K2 + 1)
    (Z.max (Z.max (E1 + E2) (K1 + K2 + (E1 + E2) - 53)) (-1074) + (K1 + K2) - 52)
    (F64.mul x y).
Proof.
  intros Hx Hy HK1 HK2 HK Hfin.
  destruct x as [sx|sx| |sx mx ex], y as [sy|sy| |sy my ey]; simpl in Hx, Hy;
    try contradiction.
  - subst. reflexivity.
  - destruct Hy as (-> & _). subst. reflexivity.
  - destruct Hx as (-> & _). subst. reflexivity.
  - destruct Hx as (-> & Hmx & Hex), Hy as (-> & Hmy & Hey).
    unfold F64.mul, SFmul. cbn [xorb].
    apply binary_round_aux_bounded; try lia.
    rewrite Pos2Z.inj_mul, Z.pow_add_r by lia.
    split; [lia|]. apply Z.mul_lt_mono_nonneg; lia.
Qed.

Lemma pos_iter_xO (d m : positive) : Zpos (Pos.iter xO m d) = Zpos m * 2 ^ Zpos d.
Proof.
  induction d as [|d IH] using Pos.peano_ind.
  - simpl. lia.
  - rewrite Pos.iter_succ, Pos2Z.inj_succ, Z.pow_succ_r by lia.
    rewrite Pos2Z.inj_xO, IH. lia.
Qed.

Lemma of_dyadic_bounded (k e : Z) :
  0 <= k < 2 ^ 53 -> e <= 0 ->
  bounded_float 106 105 (F64.of_dyadic k e).
Proof.
  intros Hk He. unfold F64.of_dyadic, binary_normalize.
  destruct k as [|p|p]; [reflexivity| |lia].
  unfold binary_round.
  pose proof (digits2_pos_bound p 53 ltac:(lia) ltac:(lia)) as Hd.
  assert (Hd0 : 0 < Zpos (digits2_pos p)) by lia.
  destruct (shl_align p e (fexp F64.prec F64.emax (Zpos (digits2_pos p) + e)))
    as [mz ez] eqn:Es.
  assert (Hb : Zpos mz < 2 ^ 105 /\ ez <= e).
  { unfold shl_align in Es. rewrite fexp_eq in Es.
    destruct (Z.max (Zpos (digits2_pos p) + e - 53) (-1074) - e) as [|d|d] eqn:Ed;
      apply pair_equal_spec in Es; destruct Es as [<- <-]; (split; [|lia]).
    - assert (2 ^ 53 < 2 ^ 105) by (apply Z.pow_lt_mono_r; lia). lia.
    - assert (2 ^ 53 < 2 ^ 105) by (apply Z.pow_lt_mono_r; lia). lia.
    - rewrite pos_iter_xO.
      assert (Hd52 : Zpos d <= 52) by lia.
      assert (2 ^ Zpos d <= 2 ^ 52) by (apply Z.pow_le_mono_r; lia).
      replace (2 ^ 105) with (2 ^ 53 * 2 ^ 52) by reflexivity.
      apply Z.le_lt_trans with (Zpos p * 2 ^ 52).
      + apply Z.mul_le_mono_nonneg_l; lia.
      + apply Z.mul_lt_mono_pos_r; lia. }
  destruct Hb as [Hmz Hez].
  eapply bounded_float_weaken.
  - apply (binary_round_aux_bounded (Zpos mz) ez 105 0); lia.
  - lia.
  - lia.
Qed.

Lemma py_int_bounded (K E : Z) (x : float) :
  bounded_float K E x -> exists t, py_int x = Ok t /\ 0 <= t.
Proof.
  destruct x as [s|s| |s m e]; simpl; try contradiction.
  - intros _. exists 0. split; [reflexivity|lia].
  - intros (-> & _). eexists. split; [reflexivity|].
    apply Z.shiftl_nonneg. lia.
Qed.

Lemma one_point_two_bounded : bounded_float 53 (-52) F64.one_point_two.
Proof. vm_compute. repeat split; congruence. Qed.

Lemma hydrogen_number_spec (k minnat : Z) :
  0 <= k < 2 ^ 53 -> 0 <= minnat < 2 ^ 53 ->
  exists j, hydrogen_number (F64.of_dyadic k (-53)) minnat = Ok j /\ 1 <= j.
Proof.
  intros Hk Hn. unfold hydrogen_number.
  pose proof (of_dyadic_bounded k (-53) Hk ltac:(lia)) as Hu.
  pose proof (of_dyadic_bounded minnat 0 Hn ltac:(lia)) as Hm.
  pose proof (mul_bounded 106 105 106 105 _ _ Hu Hm
                ltac:(lia) ltac:(lia) ltac:(lia) ltac:(lia)) as Hp.
  pose proof (mul_bounded _ _ 53 (-52) _ _ Hp one_point_two_bounded
                ltac:(lia) ltac:(lia) ltac:(lia) ltac:(lia)) as Hq.
  destruct (py_int_bounded _ _ _ Hq) as (t & Ht & Ht0).
  unfold F64.of_Z. rewrite Ht. cbn [obind]. exists (1 + t). split; [reflexivity|lia].
Qed.

(** ** The draws of [rand] lie in the unit interval *)

Lemma digits2_pos_iter_xO (n p : positive) :
  Zpos (digits2_pos (Pos.iter xO p n)) = Zpos (digits2_pos p) + Zpos n.
Proof.
  induction n as [|n IH] using Pos.peano_ind.
  - cbn [Pos.iter digits2_pos]. lia.
  - rewrite Pos.iter_succ. cbn [digits2_pos]. rewrite !Pos2Z.inj_succ, IH. lia.
Qed.

Lemma digits2_pos_positive (p : positive) : 0 < Zpos (digits2_pos p).
Proof. lia. Qed.

Lemma binary_round_aux_exact (m : positive) (e : Z) :
  Zpos (digits2_pos m) = 53 -> -1021 <= e <= 971 ->
  binary_round_aux F64.prec F64.emax false (Zpos m) e loc_Exact = S754_finite false m e.
Proof.
  intros Hd He. unfold binary_round_aux.
  assert (Hs : shr_fexp F64.prec F64.emax (Zpos m) e loc_Exact =
               ({| shr_m := Zpos m; shr_r := false; shr_s := false |}, e)).
  { unfold shr_fexp. rewrite fexp_eq. cbn [Zdigits2]. rewrite Hd.
    replace (Z.max (53 + e - 53) (-1074) - e) with 0 by lia. reflexivity. }
  rewrite Hs. cbn [shr_m loc_of_shr_record round_nearest_even]. rewrite Hs.
  cbn [shr_m].
  replace (e <=? F64.emax - F64.prec) with true
    by (symmetry; apply Z.leb_le; unfold F64.emax, F64.prec; lia).
  reflexivity.
Qed.

Lemma of_dyadic_grid (k : Z) :
  0 < k < 2 ^ 53 ->
  exists m e, F64.of_dyadic k (-53) = S754_finite false m e /\ e <= -53.
Proof.
  intros Hk. unfold F64.of_dyadic, binary_normalize.
  destruct k as [|p|p]; try lia.
  unfold binary_round.
  pose proof (digits2_pos_bound p 53 ltac:(lia) ltac:(lia)) as Hd.
  pose proof (digits2_pos_positive p) as Hd0.
  unfold shl_align. rewrite fexp_eq.
  replace (Z.max (Zpos (digits2_pos p) + -53 - 53) (-1074) - -53)
    with (Zpos (digits2_pos p) - 53) by lia.
  destruct (Zpos (digits2_pos p) - 53) as [|d|d] eqn:Ed; try lia.
  - exists p, (-53). split; [|lia]. apply binary_round_aux_exact; lia.
  - eexists. eexists. split.
    + apply binary_round_aux_exact.
      * rewrite digits2_pos_iter_xO. lia.
      * lia.
    + lia.
Qed.

Lemma rand_unit_interval s :
  exists u,
    rand s = Ok (u, advance s) /\
    F64.leb F64.zero u = true /\ F64.ltb u F64.one = true.
Proof.
  exists (F64.of_dyadic (tape s (cursor s) mod 2 ^ 53) (-53)).
  split; [reflexivity|].
  pose proof (Z.mod_pos_bound (tape s (cursor s)) (2 ^ 53) ltac:(lia)) as Hk.
  destruct (Z.eq_dec (tape s (cursor s) mod 2 ^ 53) 0) as [E|E].
  - rewrite E. split; reflexivity.
  - destruct (of_dyadic_grid (tape s (cursor s) mod 2 ^ 53) ltac:(lia))
      as (m & e & -> & He).
    split; [reflexivity|].
    assert (H1 : F64.one = S754_finite false 4503599627370496 (-52))
      by (vm_compute; reflexivity).
    rewrite H1. unfold F64.ltb, SFltb, SFcompare.
    destruct (Z.compare_spec e (-52)); try lia; reflexivity.
Qed.

(** * Composition sampler: backfill, clamps and the two target loops *)

(** ** The p-block boost and the hydrogen backfill *)

Lemma add_organic_spec (n : nat) :
  (10 <= n)%nat ->
  forall rounds a s,
    length a = n -> nonneg a ->
    exists a' s', add_organic rounds a s = Ok (a', s') /\ length a' = n /\ nonneg a'.
Proof.
  intros Hn. induction rounds as [|r IH]; intros a s Hlen Hnn.
  - exists a, s. auto.
  - cbn [add_organic].
    destruct (randint_spec 4 10 s ltac:(lia)) as (i & Hi & Ei).
    rewrite (bind_eq_Ok _ _ _ _ _ Ei).
    assert (Hr : 0 <= i < Z.of_nat (length a)) by lia.
    rewrite (bind_lift_Ok _ _ _ _ (getitem_inrange 0 a i Hr)).
    destruct (randint_spec 0 3 (advance s) ltac:(lia)) as (k & Hk & Ek).
    rewrite (bind_eq_Ok _ _ _ _ _ Ek).
    rewrite (bind_lift_Ok _ _ _ _ (setitem_inrange a i _ Hr)).
    pose proof (nonneg_nth a (Z.to_nat i) Hnn) as Hc.
    assert (Hck : 0 <= nth (Z.to_nat i) a 0 + k) by lia.
    apply IH; [rewrite list_set_length; exact Hlen|].
    apply nonneg_list_set; assumption.
Qed.

Lemma rand_eq s :
  rand s = Ok (F64.of_dyadic (tape s (cursor s) mod 2 ^ 53) (-53), advance s).
Proof. reflexivity. Qed.

Lemma add_hydrogen_zero (natoms : list Z) s :
  (0 < length natoms)%nat -> nonneg natoms -> nth 0 natoms 0 = 0 ->
  exists t,
    py_int (F64.mul (F64.mul (F64.of_dyadic (tape s (cursor s) mod 2 ^ 53) (-53))
                             (F64.of_Z (Z.min (zsum natoms) 10)))
                    F64.one_point_two) = Ok t /\
    0 <= t /\
    add_hydrogen natoms s = Ok (list_set 0 (1 + t) natoms, advance s).
Proof.
  intros Hlen Hnn H0.
  assert (Hr : 0 <= 0 < Z.of_nat (length natoms)) by lia.
  unfold add_hydrogen.
  rewrite (bind_lift_Ok _ _ _ _ (getitem_inrange 0 natoms 0 Hr)).
  change (Z.to_nat 0) with O. rewrite H0. cbn [Z.eqb].
  rewrite (bind_eq_Ok _ _ _ _ _ (rand_eq s)).
  pose proof (zsum_nonneg natoms Hnn) as Hs.
  pose proof (Z.mod_pos_bound (tape s (cursor s)) (2 ^ 53) ltac:(lia)) as Hk.
  destruct (hydrogen_number_spec (tape s (cursor s) mod 2 ^ 53)
              (Z.min (zsum natoms) 10) Hk) as (j & Hj & Hj1).
  { split; [lia|]. assert (10 < 2 ^ 53) by reflexivity. lia. }
  rewrite (bind_lift_Ok _ _ _ _ Hj).
  rewrite (bind_lift_Ok _ _ _ _ (getitem_inrange 0 natoms 0 Hr)).
  change (Z.to_nat 0) with O. rewrite H0, Z.add_0_l.
  unfold hydrogen_number in Hj. apply obind_Ok in Hj.
  destruct Hj as (t & Ht & Hj).
  assert (Ej : j = 1 + t) by congruence. subst j. clear Hj.
  exists t. repeat split; auto; try lia.
  unfold lift. rewrite (setitem_inrange natoms 0 _ Hr). reflexivity.
Qed.

Lemma add_hydrogen_nonzero (natoms : list Z) s :
  (0 < length natoms)%nat -> nth 0 natoms 0 <> 0 ->
  add_hydrogen natoms s = Ok (natoms, s).
Proof.
  intros Hlen H0.
  assert (Hr : 0 <= 0 < Z.of_nat (length natoms)) by lia.
  unfold add_hydrogen.
  rewrite (bind_lift_Ok _ _ _ _ (getitem_inrange 0 natoms 0 Hr)).
  change (Z.to_nat 0) with O. apply Z.eqb_neq in H0. rewrite H0. reflexivity.
Qed.

Lemma add_hydrogen_spec (n : nat) (a : list Z) s :
  (0 < n)%nat -> length a = n -> nonneg a ->
  exists a' s',
    add_hydrogen a s = Ok (a', s') /\ length a' = n /\ nonneg a' /\ 1 <= nth 0 a' 0.
Proof.
  intros Hn Hlen Hnn.
  assert (Hpos : (0 < length a)%nat) by lia.
  destruct (Z.eq_dec (nth 0 a 0) 0) as [E|E].
  - destruct (add_hydrogen_zero a s Hpos Hnn E) as (t & _ & Ht & Ha).
    exists (list_set 0 (1 + t) a), (advance s). repeat split; auto.
    + rewrite list_set_length. exact Hlen.
    + apply nonneg_list_set; [exact Hnn | lia].
    + rewrite nth_list_set_eq by exact Hpos. lia.
  - exists a, s. split; [apply add_hydrogen_nonzero; assumption|].
    repeat split; auto.
    pose proof (nonneg_nth a 0 Hnn). lia.
Qed.

(** The state the backfill finds in the sampler. *)
Lemma before_backfill (fuel : nat) (cfg : GenerateConfig) s a0 s0 a1 s1 :
  sample_and_limit fuel cfg s = Ok (a0, s0) ->
  add_organic 5 a0 s0 = Ok (a1, s1) ->
  length a1 = 102%nat /\ nonneg a1.
Proof.
  intros H0 H1.
  pose proof (sample_and_limit_spec fuel cfg s) as Hs. rewrite H0 in Hs.
  destruct Hs as (Hl0 & Hn0 & _).
  destruct (add_organic_spec 102 ltac:(lia) 5 a0 s0 Hl0 Hn0) as (a & s' & E & Hl & Hn).
  rewrite E in H1. inversion H1; subst. auto.
Qed.

Lemma sample_unconstrained_spec (fuel : nat) (cfg : GenerateConfig) s :
  match sample_unconstrained fuel cfg s with
  | Ok (a, _) => length a = 102%nat /\ nonneg a /\ 1 <= nth 0 a 0
  | Raise _ => valid_elems cfg = []
  | OutOfFuel => (fuel < 9)%nat
  end.
Proof.
  unfold sample_unconstrained.
  pose proof (sample_and_limit_spec fuel cfg s) as H0.
  unfold bind at 1.
  destruct (sample_and_limit fuel cfg s) as [[a0 s0]| |]; auto.
  destruct H0 as (Hl0 & Hn0 & _).
  destruct (add_organic_spec 102 ltac:(lia) 5 a0 s0 Hl0 Hn0) as (a1 & s1 & E1 & Hl1 & Hn1).
  rewrite (bind_eq_Ok _ _ _ _ _ E1).
  destruct (add_hydrogen_spec 102 a1 s1 ltac:(lia) Hl1 Hn1) as (a2 & s2 & E2 & H2).
  rewrite E2. exact H2.
Qed.

(** ** Constraint clamps *)

Lemma clamp_max_spec (a : list Z) (k : Z) (mx : option Z) :
  0 <= k < Z.of_nat (length a) -> nonneg a -> (forall x, mx = Some x -> 0 <= x) ->
  exists a',
    clamp_max a k mx = Ok a' /\ length a' = length a /\ nonneg a' /\
    (forall j, j <> Z.to_nat k -> nth j a' 0 = nth j a 0) /\
    nth (Z.to_nat k) a' 0 <= nth (Z.to_nat k) a 0 /\
    (forall x, mx = Some x -> nth (Z.to_nat k) a' 0 <= x).
Proof.
  intros Hk Hnn Hx. unfold clamp_max. destruct mx as [x|].
  - rewrite getitem_inrange by exact Hk. cbn [obind].
    destruct (x <? nth (Z.to_nat k) a 0) eqn:E.
    + apply Z.ltb_lt in E. rewrite setitem_inrange by exact Hk.
      eexists. split; [reflexivity|]. rewrite list_set_length.
      repeat split; auto.
      * apply nonneg_list_set; auto.
      * intros j Hj. apply nth_list_set_neq. congruence.
      * rewrite nth_list_set_eq by lia. lia.
      * intros x' Ex. inversion Ex; subst. rewrite nth_list_set_eq by lia. lia.
    + apply Z.ltb_ge in E. exists a. repeat split; auto; try lia.
      intros x' Ex. inversion Ex; subst. lia.
  - exists a. repeat split; auto; try lia. discriminate.
Qed.

Lemma clamp_spec (a : list Z) (k : Z) (mn mx : option Z) :
  wf_item (length a) (k, (mn, mx)) -> nonneg a ->
  exists a',
    clamp a k (mn, mx) = Ok a' /\ length a' = length a /\ nonneg a' /\
    (forall j, j <> Z.to_nat k -> nth j a' 0 = nth j a 0) /\
    (forall m, mn = Some m -> m <= nth (Z.to_nat k) a' 0) /\
    (forall x, mx = Some x -> nth (Z.to_nat k) a' 0 <= x).
Proof.
  intros (Hk & Hm & Hx & Hmx) Hnn. cbn [fst snd] in *. unfold clamp.
  destruct mn as [m|].
  - rewrite getitem_inrange by exact Hk. cbn [obind].
    destruct (nth (Z.to_nat k) a 0 <? m) eqn:E.
    + apply Z.ltb_lt in E. rewrite setitem_inrange by exact Hk.
      eexists. split; [reflexivity|]. rewrite list_set_length.
      repeat split; auto.
      * apply nonneg_list_set; auto.
      * intros j Hj. apply nth_list_set_neq. congruence.
      * intros m' Em. inversion Em; subst. rewrite nth_list_set_eq by lia. lia.
      * intros x Ex. rewrite nth_list_set_eq by lia. eauto.
    + apply Z.ltb_ge in E.
      destruct (clamp_max_spec a k mx Hk Hnn Hx) as (a' & Hc & Hl & Hn & Ho & Hle & Hb).
      exists a'. repeat split; auto.
      intros m' Em. inversion Em; subst m'.
      destruct mx as [x|].
      * unfold clamp_max in Hc. rewrite getitem_inrange in Hc by exact Hk.
        cbn [obind] in Hc. specialize (Hmx m x eq_refl eq_refl).
        destruct (x <? nth (Z.to_nat k) a 0) eqn:E2.
        -- rewrite setitem_inrange in Hc by exact Hk. inversion Hc; subst.
           rewrite nth_list_set_eq by lia. exact Hmx.
        -- inversion Hc; subst. exact E.
      * inversion Hc; subst. exact E.
  - destruct (clamp_max_spec a k mx Hk Hnn Hx) as (a' & Hc & Hl & Hn & Ho & Hle & Hb).
    exists a'. repeat split; auto. discriminate.
Qed.

Lemma apply_composition_spec (n : nat) (items : list (Z * (option Z * option Z))) :
  NoDup (map fst items) -> Forall (wf_item n) items ->
  forall a, length a = n -> nonneg a ->
  exists a',
    apply_composition items a = Ok a' /\ length a' = n /\ nonneg a' /\
    (forall j, ~ In (Z.of_nat j) (map fst items) -> nth j a' 0 = nth j a 0) /\
    meets_minimums items a' /\ meets_maximums items a'.
Proof.
  induction items as [|[k [mn mx]] rest IH]; intros Hnd Hwf a Hlen Hnn.
  - exists a. repeat split; auto; intros ? ? ? [].
  - cbn [map fst] in Hnd. apply NoDup_cons_iff in Hnd. destruct Hnd as [Hk Hnd].
    inversion Hwf as [|? ? Hit Hrest]; subst.
    pose proof Hit as (Hkr & _). cbn [fst] in Hkr.
    destruct (clamp_spec a k mn mx Hit Hnn) as (a1 & Hc & Hl1 & Hn1 & Ho1 & Hmn & Hmx).
    destruct (IH Hnd Hrest a1 Hl1 Hn1) as (a' & Ha & Hl' & Hn' & Ho' & Hmin' & Hmax').
    exists a'. cbn [apply_composition]. rewrite Hc. cbn [obind].
    split; [exact Ha|]. split; [exact Hl'|]. split; [exact Hn'|].
    assert (Hsame : nth (Z.to_nat k) a' 0 = nth (Z.to_nat k) a1 0).
    { apply Ho'. rewrite Z2Nat.id by lia. exact Hk. }
    split; [|split].
    + intros j Hj. rewrite Ho' by (intros F; apply Hj; right; exact F).
      apply Ho1. intros E. apply Hj. left. cbn [fst]. lia.
    + intros k' m x [E|Hin].
      * inversion E; subst. rewrite Hsame. auto.
      * eapply Hmin'; eauto.
    + intros k' m x [E|Hin].
      * inversion E; subst. rewrite Hsame. auto.
      * eapply Hmax'; eauto.
Qed.

(** ** The grow loop *)

Lemma grow_step_spec (cfg : GenerateConfig) (a : list Z) (ati : Z) :
  0 <= ati < Z.of_nat (length a) ->
  exists a',
    grow_step cfg a ati = Ok a' /\ length a' = length a /\
    (nonneg a -> nonneg a') /\ (forall j, nth j a 0 <= nth j a' 0).
Proof.
  intros Hr. unfold grow_step. rewrite getitem_inrange by exact Hr. cbn [obind].
  set (c := nth (Z.to_nat ati) a 0).
  assert (Hset : exists a',
             setitem a ati (c + 1) = Ok a' /\ length a' = length a /\
             (nonneg a -> nonneg a') /\ (forall j, nth j a 0 <= nth j a' 0)).
  { rewrite setitem_inrange by exact Hr. eexists. split; [reflexivity|].
    rewrite list_set_length. repeat split.
    - intros Hnn. apply nonneg_list_set; [exact Hnn|].
      pose proof (nonneg_nth a (Z.to_nat ati) Hnn). fold c in H. lia.
    - intros j. destruct (Nat.eq_dec (Z.to_nat ati) j) as [<-|Hne].
      + rewrite nth_list_set_eq by lia. fold c. lia.
      + rewrite nth_list_set_neq by exact Hne. lia. }
  destruct (snd (dict_get (element_composition cfg) ati (None, None))) as [mx|];
    [|exact Hset].
  destruct (mx <=? c); [|exact Hset].
  exists a. repeat split; auto. intros j. lia.
Qed.

Lemma grow_loop_spec (cfg : GenerateConfig) (valid : list Z) (n : nat) :
  valid <> [] -> in_range n valid ->
  forall fuel a s,
    length a = n -> nonneg a ->
    match grow_loop fuel cfg valid a s with
    | Ok (a', _) =>
        length a' = n /\ nonneg a' /\ (forall j, nth j a 0 <= nth j a' 0) /\
        min_num_atoms cfg <= zsum a'
    | Raise _ => False
    | OutOfFuel => True
    end.
Proof.
  intros Hv Hr. induction fuel as [|f IH]; intros a s Hlen Hnn; cbn [grow_loop];
    destruct (zsum a <? min_num_atoms cfg) eqn:E;
    try (apply Z.ltb_ge in E; cbn; repeat split; auto; intros; lia).
  - exact I.
  - destruct (choice_spec valid s Hv) as (ati & Hati & Ec).
    rewrite (bind_eq_Ok _ _ _ _ _ Ec).
    assert (Ha : 0 <= ati < Z.of_nat (length a))
      by (unfold in_range in Hr; rewrite Forall_forall in Hr; rewrite Hlen; auto).
    destruct (grow_step_spec cfg a ati Ha) as (a1 & Hs & Hl1 & Hn1 & Hm1).
    rewrite (bind_lift_Ok _ _ _ _ Hs).
    specialize (IH a1 (advance s) ltac:(congruence) (Hn1 Hnn)).
    destruct (grow_loop f cfg valid a1 (advance s)) as [[a' s']| |]; auto.
    destruct IH as (H1 & H2 & H3 & H4). repeat split; auto.
    intros j. specialize (Hm1 j). specialize (H3 j). lia.
Qed.

Lemma grow_loop_Ok (cfg : GenerateConfig) (valid : list Z) (fuel : nat) :
  forall a s a' s',
    grow_loop fuel cfg valid a s = Ok (a', s') -> min_num_atoms cfg <= zsum a'.
Proof.
  induction fuel as [|f IH]; intros a s a' s' H; cbn [grow_loop] in H;
    destruct (zsum a <? min_num_atoms cfg) eqn:E;
    try (apply Z.ltb_ge in E; inv_ok; exact E).
  - discriminate.
  - inv_ok. eapply IH; eauto.
Qed.

(** ** The shrink loop *)

Lemma dict_get_In {V : Type} (d : list (Z * V)) (k : Z) (v default : V) :
  NoDup (map fst d) -> In (k, v) d -> dict_get d k default = v.
Proof.
  induction d as [|[k' v'] rest IH]; intros Hnd Hin; [contradiction|].
  cbn [map fst] in Hnd. apply NoDup_cons_iff in Hnd. destruct Hnd as [Hk Hnd].
  cbn [dict_get]. destruct Hin as [E|Hin].
  - inversion E; subst. rewrite Z.eqb_refl. reflexivity.
  - destruct (k' =? k) eqn:Ek.
    + apply Z.eqb_eq in Ek. subst. exfalso. apply Hk.
      apply in_map_iff. exists (k, v). auto.
    + auto.
Qed.

Lemma shrink_step_cases (cfg : GenerateConfig) (a : list Z) (i : Z) (a' : list Z) :
  shrink_step cfg a i = Ok a' ->
  a' = a \/
  exists k mn,
    py_index (length a) i = Some k /\ (k < length a)%nat /\
    fst (dict_get (element_composition cfg) i (None, None)) = Some mn /\
    0 < nth k a 0 /\ mn < nth k a 0 /\
    a' = list_set k (nth k a 0 - 1) a.
Proof.
  unfold shrink_step. intros H. apply obind_Ok in H. destruct H as (c & Hc & H).
  apply getitem_Ok in Hc. destruct Hc as (k & Hk & -> & Hlt).
  destruct (0 <? nth k a 0) eqn:E0; [|inversion H; auto].
  apply Z.ltb_lt in E0.
  destruct (fst (dict_get (element_composition cfg) i (None, None))) as [mn|] eqn:Em;
    [|inversion H; auto].
  destruct (mn <? nth k a 0) eqn:E1; [|inversion H; auto].
  apply Z.ltb_lt in E1. right. exists k, mn.
  unfold setitem in H. rewrite Hk in H. inversion H; subst. auto 8.
Qed.

Lemma shrink_step_skip (cfg : GenerateConfig) (natoms : list Z) (i : Z) :
  0 <= i < Z.of_nat (length natoms) ->
  fst (dict_get (element_composition cfg) i (None, None)) = None ->
  shrink_step cfg natoms i = Ok natoms.
Proof.
  intros Hr Hm. unfold shrink_step. rewrite getitem_inrange by exact Hr.
  cbn [obind]. rewrite Hm. destruct (0 <? _); reflexivity.
Qed.

Lemma shrink_loop_Ok (cfg : GenerateConfig) (fuel : nat) :
  forall a s a' s',
    shrink_loop fuel cfg a s = Ok (a', s') ->
    zsum a' <= max_num_atoms cfg /\
    (zsum a <= max_num_atoms cfg -> a' = a) /\
    (max_num_atoms cfg < zsum a -> zsum a' = max_num_atoms cfg).
Proof.
  induction fuel as [|f IH]; intros a s a' s' H; cbn [shrink_loop] in H;
    destruct (max_num_atoms cfg <? zsum a) eqn:E;
    try (apply Z.ltb_ge in E; inv_ok; repeat split; auto; lia).
  - discriminate.
  - apply Z.ltb_lt in E. inv_ok.
    apply IH in Hk0. destruct Hk0 as (H1 & H2 & H3).
    split; [exact H1|]. split; [lia|]. intros _.
    apply shrink_step_cases in Hl.
    destruct Hl as [->|(k & mn & Hk & Hlt & _ & _ & _ & ->)].
    + apply H3. exact E.
    + rewrite zsum_list_set in H2, H3 by exact Hlt.
      destruct (Z.eq_dec (zsum a) (max_num_atoms cfg + 1)) as [Eq|Ne].
      * rewrite H2 by lia. rewrite zsum_list_set by exact Hlt. lia.
      * apply H3. lia.
Qed.

Lemma wf_item_key (n : nat) (ec : list (Z * (option Z * option Z))) k v :
  Forall (wf_item n) ec -> In (k, v) ec -> 0 <= k < Z.of_nat n.
Proof.
  intros Hwf Hin. rewrite Forall_forall in Hwf. apply (Hwf _ Hin).
Qed.

Lemma shrink_step_spec (cfg : GenerateConfig) (a : list Z) (i : Z) :
  NoDup (map fst (element_composition cfg)) ->
  Forall (wf_item (length a)) (element_composition cfg) ->
  0 <= i < Z.of_nat (length a) -> nonneg a ->
  meets_minimums (element_composition cfg) a ->
  exists a',
    shrink_step cfg a i = Ok a' /\ length a' = length a /\ nonneg a' /\
    meets_minimums (element_composition cfg) a'.
Proof.
  intros Hnd Hwf Hr Hnn Hmin.
  destruct (shrink_step cfg a i) as [a'| |] eqn:Hs.
  - exists a'. split; [reflexivity|].
    apply shrink_step_cases in Hs.
    destruct Hs as [->|(k & mn & Hk & Hlt & Hget & Hpos & Hgt & ->)]; auto.
    apply py_index_nonneg in Hk; [|lia]. destruct Hk as [-> _].
    rewrite list_set_length. repeat split; auto.
    + apply nonneg_list_set; [exact Hnn | lia].
    + intros k' m x Hin.
      pose proof (wf_item_key _ _ _ _ Hwf Hin) as Hk'.
      destruct (Z.eq_dec k' i) as [->|Hne].
      * rewrite (dict_get_In _ _ _ _ Hnd Hin) in Hget. cbn [fst] in Hget.
        inversion Hget; subst. rewrite nth_list_set_eq by lia. lia.
      * rewrite nth_list_set_neq by lia. eapply Hmin; eauto.
  - unfold shrink_step in Hs. rewrite getitem_inrange in Hs by exact Hr.
    cbn [obind] in Hs. destruct (0 <? _); [|discriminate].
    destruct (fst _); [|discriminate].
    destruct (_ <? _); [|discriminate].
    rewrite setitem_inrange in Hs by exact Hr. discriminate.
  - unfold shrink_step in Hs. rewrite getitem_inrange in Hs by exact Hr.
    cbn [obind] in Hs. destruct (0 <? _); [|discriminate].
    destruct (fst _); [|discriminate].
    destruct (_ <? _); [|discriminate].
    rewrite setitem_inrange in Hs by exact Hr. discriminate.
Qed.

Lemma sum_minimums_cons it (ec : list (Z * (option Z * option Z))) :
  sum_minimums (it :: ec) =
  match fst (snd it) with Some m => m | None => 0 end + sum_minimums ec.
Proof. reflexivity. Qed.

Lemma sum_minimums_le (n : nat) (ec : list (Z * (option Z * option Z))) :
  NoDup (map fst ec) -> Forall (wf_item n) ec ->
  forall a, length a = n -> nonneg a -> meets_minimums ec a ->
  sum_minimums ec <= zsum a.
Proof.
  induction ec as [|[k [mn mx]] rest IH]; intros Hnd Hwf a Hlen Hnn Hmin.
  - apply zsum_nonneg. exact Hnn.
  - cbn [map fst] in Hnd. apply NoDup_cons_iff in Hnd. destruct Hnd as [Hk Hnd].
    inversion Hwf as [|? ? Hit Hrest]; subst.
    pose proof Hit as (Hkr & _). cbn [fst] in Hkr.
    rewrite sum_minimums_cons. cbn [fst snd].
    assert (Hhead : match mn with Some m => m | None => 0 end <= nth (Z.to_nat k) a 0).
    { destruct mn as [m|].
      - apply (Hmin k m mx). left. reflexivity.
      - apply nonneg_nth. exact Hnn. }
    specialize (IH Hnd Hrest (list_set (Z.to_nat k) 0 a)).
    rewrite list_set_length in IH.
    specialize (IH eq_refl (nonneg_list_set a (Z.to_nat k) 0 Hnn (Z.le_refl 0))).
    rewrite zsum_list_set in IH by lia.
    assert (Hm' : meets_minimums rest (list_set (Z.to_nat k) 0 a)).
    { intros k' m x Hin.
      pose proof (wf_item_key _ _ _ _ Hrest Hin) as Hk'.
      rewrite nth_list_set_neq.
      - apply (Hmin k' m x). right. exact Hin.
      - intros E. apply Hk. apply in_map_iff. exists (k', (Some m, x)).
        split; [cbn [fst]; lia | exact Hin]. }
    specialize (IH Hm'). lia.
Qed.

Lemma shrink_loop_stuck (cfg : GenerateConfig) :
  wf_composition (element_composition cfg) ->
  max_num_atoms cfg < sum_minimums (element_composition cfg) ->
  forall fuel a s,
    length a = 102%nat -> nonneg a ->
    meets_minimums (element_composition cfg) a ->
    shrink_loop fuel cfg a s = OutOfFuel.
Proof.
  intros [Hnd Hwf] Hlt. induction fuel as [|f IH]; intros a s Hlen Hnn Hmin;
    cbn [shrink_loop];
    pose proof (sum_minimums_le 102 _ Hnd Hwf a Hlen Hnn Hmin) as Hsum;
    replace (max_num_atoms cfg <? zsum a) with true
      by (symmetry; apply Z.ltb_lt; lia).
  - reflexivity.
  - destruct (randint_spec 0 MAX_ELEM s ltac:(unfold MAX_ELEM; lia)) as (i & Hi & Ei).
    rewrite (bind_eq_Ok _ _ _ _ _ Ei). unfold MAX_ELEM in Hi.
    rewrite <- Hlen in Hwf.
    destruct (shrink_step_spec cfg a i Hnd Hwf ltac:(lia) Hnn Hmin)
      as (a1 & Hs & Hl1 & Hn1 & Hm1).
    rewrite (bind_lift_Ok _ _ _ _ Hs). apply IH; auto. congruence.
Qed.

Lemma shrink_loop_unconstrained (cfg : GenerateConfig) (fuel : nat) :
  element_composition cfg = [] ->
  forall a s a' s', shrink_loop fuel cfg a s = Ok (a', s') -> a' = a.
Proof.
  intros Hec. induction fuel as [|f IH]; intros a s a' s' H; cbn [shrink_loop] in H;
    destruct (max_num_atoms cfg <? zsum a); try (inv_ok; reflexivity).
  - discriminate.
  - inv_ok. apply IH in Hk0. subst a'.
    apply shrink_step_cases in Hl.
    destruct Hl as [->|(k & mn & _ & _ & Hget & _)]; [reflexivity|].
    rewrite Hec in Hget. discriminate.
Qed.

Lemma shrink_loop_spins_unconstrained (cfg : GenerateConfig) :
  element_composition cfg = [] ->
  forall fuel a s,
    (86 <= length a)%nat -> max_num_atoms cfg < zsum a ->
    shrink_loop fuel cfg a s = OutOfFuel.
Proof.
  intros Hec. induction fuel as [|f IH]; intros a s Hlen Hlt; cbn [shrink_loop];
    replace (max_num_atoms cfg <? zsum a) with true
      by (symmetry; apply Z.ltb_lt; lia).
  - reflexivity.
  - destruct (randint_spec 0 MAX_ELEM s ltac:(unfold MAX_ELEM; lia)) as (i & Hi & Ei).
    rewrite (bind_eq_Ok _ _ _ _ _ Ei). unfold MAX_ELEM in Hi.
    rewrite (bind_lift_Ok _ _ _ _
               (shrink_step_skip cfg a i ltac:(lia)
                  ltac:(rewrite Hec; reflexivity))).
    apply IH; assumption.
Qed.

Lemma grow_loop_stuck (cfg : GenerateConfig) (valid a : list Z) :
  valid <> [] -> all_capped cfg valid a -> zsum a < min_num_atoms cfg ->
  forall fuel s, grow_loop fuel cfg valid a s = OutOfFuel.
Proof.
  intros Hv Hcap Hlt. induction fuel as [|f IH]; intros s; cbn [grow_loop];
    replace (zsum a <? min_num_atoms cfg) with true
      by (symmetry; apply Z.ltb_lt; lia).
  - reflexivity.
  - destruct (choice_spec valid s Hv) as (ati & Hati & Ec).
    rewrite (bind_eq_Ok _ _ _ _ _ Ec).
    destruct (Hcap ati Hati) as (Hr & mx & Hmx & Hle).
    assert (Hs : grow_step cfg a ati = Ok a).
    { unfold grow_step. rewrite getitem_inrange by exact Hr. cbn [obind].
      rewrite Hmx.
      replace (mx <=? nth (Z.to_nat ati) a 0) with true
        by (symmetry; apply Z.leb_le; exact Hle).
      reflexivity. }
    rewrite (bind_lift_Ok _ _ _ _ Hs). apply IH.
Qed.

(** * Composition sampler: the sampler as a whole *)

Lemma generate_atom_list_stages (fuel : nat) (cfg : GenerateConfig) s a s' :
  generate_atom_list fuel cfg s = Ok (a, s') ->
  exists a1 s1 a2 a3 s3,
    sample_unconstrained fuel cfg s = Ok (a1, s1) /\
    apply_composition (element_composition cfg) a1 = Ok a2 /\
    grow_loop fuel cfg (valid_elems cfg) a2 s1 = Ok (a3, s3) /\
    shrink_loop fuel cfg a3 s3 = Ok (a, s').
Proof.
  unfold generate_atom_list. intros H. inv_ok. eauto 10.
Qed.

Lemma generate_atom_list_unsatisfiable (fuel : nat) (cfg : GenerateConfig) s :
  wf_composition (element_composition cfg) ->
  valid_elems cfg <> [] ->
  max_num_atoms cfg < sum_minimums (element_composition cfg) ->
  generate_atom_list fuel cfg s = OutOfFuel.
Proof.
  intros Hwf Hv Hlt. unfold generate_atom_list.
  pose proof (sample_unconstrained_spec fuel cfg s) as H1.
  unfold bind at 1.
  destruct (sample_unconstrained fuel cfg s) as [[a1 s1]| |];
    [|contradiction|reflexivity].
  destruct H1 as (Hl1 & Hn1 & _).
  destruct Hwf as [Hnd Hit].
  destruct (apply_composition_spec 102 _ Hnd Hit a1 Hl1 Hn1)
    as (a2 & E2 & Hl2 & Hn2 & _ & Hmin2 & _).
  rewrite (bind_lift_Ok _ _ _ _ E2).
  pose proof (grow_loop_spec cfg (valid_elems cfg) 102 Hv
                (in_range_weaken 86 102 _ ltac:(lia) (valid_elems_range cfg))
                fuel a2 s1 Hl2 Hn2) as H3.
  unfold bind.
  destruct (grow_loop fuel cfg (valid_elems cfg) a2 s1) as [[a3 s3]| |];
    [|contradiction|reflexivity].
  destruct H3 as (Hl3 & Hn3 & Hmono & _).
  apply shrink_loop_stuck; auto; [split; assumption|].
  intros k m x Hin. specialize (Hmin2 k m x Hin). specialize (Hmono (Z.to_nat k)). lia.
Qed.

(** ** Sample configurations *)

Lemma zsum_nonpos (a : list Z) : (forall j, nth j a 0 <= 0) -> zsum a <= 0.
Proof.
  induction a as [|h t IH]; intros H; [unfold zsum; simpl; lia|].
  rewrite zsum_cons. pose proof (H O) as H0. cbn in H0.
  assert (zsum t <= 0) by (apply IH; intros j; apply (H (S j))). lia.
Qed.

Lemma cfg_capped_composition :
  element_composition cfg_capped =
  map (fun k => (k, (None, Some 0))) (py_range 0 102).
Proof. reflexivity. Qed.

Lemma cfg_capped_wf : wf_composition (element_composition cfg_capped).
Proof.
  split.
  - apply nodupb_sound. vm_compute. reflexivity.
  - apply Forall_forall. intros it Hit. rewrite cfg_capped_composition in Hit.
    apply in_map_iff in Hit. destruct Hit as (k & <- & Hk).
    apply py_range_In in Hk. unfold wf_item. cbn [fst snd].
    repeat split; try lia; intros; try discriminate.
    match goal with H : Some _ = Some _ |- _ => inversion H; lia end.
Qed.

Lemma cfg_capped_spins (fuel : nat) s :
  generate_atom_list fuel cfg_capped s = OutOfFuel.
Proof.
  unfold generate_atom_list.
  assert (Hv : valid_elems cfg_capped <> []) by (vm_compute; discriminate).
  pose proof (sample_unconstrained_spec fuel cfg_capped s) as H1.
  unfold bind at 1.
  destruct (sample_unconstrained fuel cfg_capped s) as [[a1 s1]| |];
    [|contradiction|reflexivity].
  destruct H1 as (Hl1 & Hn1 & _).
  destruct cfg_capped_wf as [Hnd Hit].
  destruct (apply_composition_spec 102 _ Hnd Hit a1 Hl1 Hn1)
    as (a2 & E2 & Hl2 & Hn2 & _ & _ & Hmax2).
  rewrite (bind_lift_Ok _ _ _ _ E2).
  assert (Hin : forall k, 0 <= k < 102 ->
                  In (k, (@None Z, Some 0)) (element_composition cfg_capped)).
  { intros k Hk. rewrite cfg_capped_composition. apply in_map_iff. exists k. split; [reflexivity|].
    apply py_range_In. lia. }
  assert (Hz : forall j, nth j a2 0 <= 0).
  { intros j. destruct (Nat.lt_ge_cases j 102) as [Hj|Hj].
    - assert (Hj' : 0 <= Z.of_nat j < 102) by lia.
      specialize (Hmax2 (Z.of_nat j) None 0 (Hin _ Hj')).
      rewrite Nat2Z.id in Hmax2. exact Hmax2.
    - rewrite nth_overflow by lia. lia. }
  unfold bind. rewrite grow_loop_stuck; auto.
  - intros ati Hati.
    pose proof (valid_elems_range cfg_capped) as Hr.
    unfold in_range in Hr. rewrite Forall_forall in Hr. specialize (Hr ati Hati).
    assert (Hati' : 0 <= ati < 102) by lia.
    split; [lia|]. exists 0. split.
    + rewrite (dict_get_In _ _ _ _ Hnd (Hin ati Hati')). reflexivity.
    + apply nonneg_nth. exact Hn2.
  - pose proof (zsum_nonpos a2 Hz). change (min_num_atoms cfg_capped) with 1. lia.
Qed.

Lemma cfg_five_hydrogens_wf : wf_composition (element_composition cfg_five_hydrogens).
Proof.
  split.
  - apply nodupb_sound. reflexivity.
  - repeat constructor; cbn; try lia; intros; try discriminate;
      match goal with H : Some _ = Some _ |- _ => inversion H; lia end.
Qed.

(** * Determinism *)

Lemma det_ret {A : Type} (a : A) : deterministic (ret a).
Proof. intros s1 s2 H. cbn. auto. Qed.

Lemma det_raise {A : Type} (e : exn) : deterministic (@raise A e).
Proof. intros s1 s2 H. reflexivity. Qed.

Lemma det_out_of_fuel {A : Type} : deterministic (@out_of_fuel A).
Proof. intros s1 s2 H. exact I. Qed.

Lemma det_lift {A : Type} (o : outcome A) : deterministic (lift o).
Proof. intros s1 s2 H. destruct o; cbn; auto. Qed.

Lemma det_bind {A B : Type} (m : M A) (f : A -> M B) :
  deterministic m -> (forall a, deterministic (f a)) -> deterministic (bind m f).
Proof.
  intros Hm Hf s1 s2 H. specialize (Hm s1 s2 H). unfold bind.
  destruct (m s1) as [[a1 t1]| |], (m s2) as [[a2 t2]| |]; cbn in Hm;
    try contradiction; auto.
  destruct Hm as [-> Ht]. apply Hf. exact Ht.
Qed.

Lemma det_next_raw : deterministic next_raw.
Proof.
  intros s1 s2 [Hc Ht]. cbn. rewrite Hc, Ht. repeat split; cbn; auto.
Qed.

Create HintDb det.

#[local] Hint Resolve det_ret det_raise det_out_of_fuel det_lift det_next_raw : det.

Ltac det :=
  repeat first
    [ apply det_bind; [|intros ?]
    | match goal with
      | |- deterministic (match ?x with _ => _ end) => destruct x
      | |- deterministic (if ?b then _ else _) => destruct b
      end
    | solve [auto with det] ].

Lemma det_randint (lo hi : Z) : deterministic (randint lo hi).
Proof. unfold randint. det. Qed.

Lemma det_choice (l : list Z) : deterministic (choice l).
Proof. unfold choice. det. Qed.

Lemma det_rand : deterministic rand.
Proof. unfold rand. det. Qed.

#[local] Hint Resolve det_randint det_choice det_rand : det.

Lemma det_rand3 : deterministic rand3.
Proof. unfold rand3. det. Qed.

#[local] Hint Resolve det_rand3 : det.

Lemma det_add_random_atoms rounds valid : forall a, deterministic (add_random_atoms rounds valid a).
Proof. induction rounds as [|r IH]; intros a; cbn [add_random_atoms]; det. Qed.

Lemma det_add_organic rounds : forall a, deterministic (add_organic rounds a).
Proof. induction rounds as [|r IH]; intros a; cbn [add_organic]; det. Qed.

Lemma det_add_hydrogen a : deterministic (add_hydrogen a).
Proof. unfold add_hydrogen. det. Qed.

Lemma det_grow_loop fuel cfg valid : forall a, deterministic (grow_loop fuel cfg valid a).
Proof. induction fuel as [|f IH]; intros a; cbn [grow_loop]; det. Qed.

Lemma det_shrink_loop fuel cfg : forall a, deterministic (shrink_loop fuel cfg a).
Proof. induction fuel as [|f IH]; intros a; cbn [shrink_loop]; det. Qed.

#[local] Hint Resolve det_add_random_atoms det_add_organic det_add_hydrogen
  det_grow_loop det_shrink_loop : det.

Lemma det_generate_atom_list fuel cfg : deterministic (generate_atom_list fuel cfg).
Proof.
  unfold generate_atom_list, sample_unconstrained, sample_and_limit. det.
Qed.

Lemma det_place_element todo :
  forall m elem numatoms xyz atilist,
    deterministic (place_element todo m elem numatoms xyz atilist).
Proof.
  induction todo as [|t IH]; intros m elem numatoms xyz atilist;
    cbn [place_element]; det.
Qed.

#[local] Hint Resolve det_place_element : det.

Lemma det_place_all at_ :
  forall elem numatoms xyz atilist,
    deterministic (place_all at_ elem numatoms xyz atilist).
Proof.
  induction at_ as [|c rest IH]; intros elem numatoms xyz atilist;
    cbn [place_all]; det.
Qed.

#[local] Hint Resolve det_place_all : det.

Lemma det_generate_random_coordinates at_ :
  deterministic (generate_random_coordinates at_).
Proof. unfold generate_random_coordinates. det. Qed.

#[local] Hint Resolve det_generate_random_coordinates : det.

Lemma det_rescale_loop fuel at_ thr inc :
  forall eff xyz ati, deterministic (rescale_loop fuel at_ thr inc eff xyz ati).
Proof.
  induction fuel as [|f IH]; intros eff xyz ati; cbn [rescale_loop]; det.
Qed.

#[local] Hint Resolve det_rescale_loop : det.

Lemma det_generate_coordinates fuel at_ scaling thr inc :
  deterministic (generate_coordinates fuel at_ scaling thr inc).
Proof. unfold generate_coordinates. det. Qed.

#[local] Hint Resolve det_generate_atom_list det_generate_coordinates : det.

(** * The properties of the specification *)

(** ** Shrink to maximum *)

(** C1.  While the total exceeds [max_num_atoms], an iteration of the
    shrink loop draws an index [i] of the whole range [0, 85] and runs the
    loop body on it.  The body removes one atom of element [i] exactly
    when a minimum is configured for [i] and the count of [i] is positive
    and above that minimum; when no minimum is configured it leaves
    [natoms] as it is, whatever the count. *)
Theorem shrink_iteration (cfg : GenerateConfig) (natoms : list Z) :
  (forall f s,
      max_num_atoms cfg < zsum natoms ->
      exists i,
        0 <= i <= 85 /\
        shrink_loop (S f) cfg natoms s =
        (natoms' <- lift (shrink_step cfg natoms i) ;; shrink_loop f cfg natoms')
          (advance s)) /\
  (forall i,
      0 <= i < Z.of_nat (length natoms) ->
      let c := nth (Z.to_nat i) natoms 0 in
      shrink_step cfg natoms i =
      Ok (match fst (dict_get (element_composition cfg) i (None, None)) with
          | Some mn =>
              if (0 <? c) && (mn <? c)
              then list_set (Z.to_nat i) (c - 1) natoms
              else natoms
          | None => natoms
          end)).
Proof.
  split.
  - intros f s Hlt. cbn [shrink_loop].
    replace (max_num_atoms cfg <? zsum natoms) with true
      by (symmetry; apply Z.ltb_lt; exact Hlt).
    destruct (randint_spec 0 MAX_ELEM s ltac:(unfold MAX_ELEM; lia)) as (i & Hi & Ei).
    exists i. unfold MAX_ELEM in Hi. split; [lia|].
    rewrite (bind_eq_Ok _ _ _ _ _ Ei). reflexivity.
  - intros i Hr c. unfold shrink_step.
    rewrite getitem_inrange by exact Hr. cbn [obind]. fold c.
    destruct (fst (dict_get (element_composition cfg) i (None, None))) as [mn|].
    + destruct (0 <? c); cbn [andb]; [|reflexivity].
      destruct (mn <? c); [|reflexivity].
      apply setitem_inrange. exact Hr.
    + destruct (0 <? c); reflexivity.
Qed.

Lemma shrink_iteration_witness :
  0 <= 5 < Z.of_nat (length three_carbons) /\
  max_num_atoms (config 1 2 [] []) < zsum three_carbons /\
  shrink_step (config 1 2 [] []) three_carbons 5 = Ok three_carbons.
Proof.
  assert (Hr : 0 <= 5 < Z.of_nat (length three_carbons))
    by (vm_compute; split; [discriminate | reflexivity]).
  split; [exact Hr|]. split; [reflexivity|].
  destruct (shrink_iteration (config 1 2 [] []) three_carbons) as [_ H].
  exact (H 5 Hr).
Defined.

(** ** Forbidden elements *)

(** C2.  With an empty constraint map every composition vector the sampler
    returns holds at least one hydrogen atom, whether or not hydrogen is a
    forbidden element: the hydrogen backfill does not consult the set of
    valid elements. *)
Theorem hydrogen_despite_forbidden (fuel : nat) (cfg : GenerateConfig) s natoms s' :
  element_composition cfg = [] ->
  generate_atom_list fuel cfg s = Ok (natoms, s') ->
  1 <= nth 0 natoms 0.
Proof.
  intros Hec H. apply generate_atom_list_stages in H.
  destruct H as (a1 & s1 & a2 & a3 & s3 & H1 & H2 & Hg & Hs).
  pose proof (sample_unconstrained_spec fuel cfg s) as Hspec. rewrite H1 in Hspec.
  destruct Hspec as (Hl1 & Hn1 & Hh).
  rewrite Hec in H2. cbn in H2. inversion H2; subst a2; clear H2.
  apply (shrink_loop_unconstrained cfg fuel Hec) in Hs. subst natoms.
  destruct (valid_elems cfg) as [|v0 vs] eqn:Ev.
  - (* no valid element: the grow loop can only have been skipped *)
    destruct fuel as [|f]; cbn [grow_loop] in Hg;
      destruct (zsum a1 <? min_num_atoms cfg); try discriminate; inv_ok; exact Hh.
  - pose proof (grow_loop_spec cfg (valid_elems cfg) 102
                  ltac:(rewrite Ev; discriminate)
                  (in_range_weaken 86 102 _ ltac:(lia) (valid_elems_range cfg))
                  fuel a1 s1 Hl1 Hn1) as Hgs.
    rewrite Ev in Hgs. rewrite Hg in Hgs. destruct Hgs as (_ & _ & Hmono & _).
    specialize (Hmono O). lia.
Qed.

Lemma hydrogen_despite_forbidden_witness :
  In 0 (forbidden_elements cfg_no_hydrogen) /\
  exists natoms s',
    generate_atom_list 9 cfg_no_hydrogen (tape_of carbon_dozen) = Ok (natoms, s') /\
    1 <= nth 0 natoms 0.
Proof.
  split; [left; reflexivity|].
  eexists. eexists. split; [vm_compute; reflexivity|].
  apply (hydrogen_despite_forbidden 9 cfg_no_hydrogen (tape_of carbon_dozen) _
           {| tape := tape (tape_of carbon_dozen); cursor := 14 |}).
  - reflexivity.
  - vm_compute. reflexivity.
Defined.

(** ** Total atom count *)




(** ** Unsatisfiable minimums *)




(** ** What the geometry sampler returns *)

(** Two hydrogen atoms, initial scale 2, threshold 11 and growth factor
    2^1023.  The first draw fails the check, the scale overflows to
    infinity, the second draw puts both atoms at minus infinity; their
    distance is NaN, which is not below the threshold, so the check
    passes, and it is not at least the threshold either. *)
Lemma overflowing_scale_counterexample :
  exists xyz ati,
    run (generate_coordinates 1 two_hydrogens F64.two (F64.of_Z 11) (F64.of_dyadic 1 1023))
        (tape_of []) = Ok (xyz, ati) /\
    length xyz = 2%nat /\
    F64.leb (F64.of_Z 11) (distance xyz 0 1) = false.
Proof.
  eexists. eexists. split; [vm_compute; reflexivity|].
  split; vm_compute; reflexivity.
Qed.

(** C5, as the code has it.  Whenever the geometry sampler returns on a
    composition vector of non-negative counts, the coordinate sequence and
    the element-index sequence both have the length of the total count,
    the element-index sequence lists each element index as many times as
    its count, in non-decreasing order, and no pair of atoms has a
    distance below [dist_threshold]; the distance is at least
    [dist_threshold] whenever neither of the two is NaN. *)
Theorem generate_coordinates_returns
  (fuel : nat) (at_ : list Z) (scaling thr inc : float) s xyz ati s' :
  Forall (fun c => 0 <= c) at_ ->
  generate_coordinates fuel at_ scaling thr inc s = Ok ((xyz, ati), s') ->
  length xyz = Z.to_nat (zsum at_) /\
  length ati = Z.to_nat (zsum at_) /\
  ati = expand at_ 0 /\
  nondecreasing ati /\
  forall i j, (i < j < length xyz)%nat ->
    F64.ltb (distance xyz i j) thr = false /\
    (F64.is_nan (distance xyz i j) = false -> F64.is_nan thr = false ->
     F64.leb thr (distance xyz i j) = true).
Proof.
  intros Hnn H. unfold generate_coordinates in H. inv_ok.
  destruct a as [raw ati0].
  apply generate_random_coordinates_spec in Hm. destruct Hm as [Hl Ha].
  apply rescale_loop_spec in Hk; [| rewrite scale_length; exact Hl | exact Ha].
  destruct Hk as (Hc & Hlen & ->).
  repeat split; auto.
  - apply expand_length; exact Hnn.
  - apply expand_nondecreasing.
  - apply check_distances_spec with (i := i) (j := j) in Hc; auto.
  - intros Hn1 Hn2. apply not_below_is_at_least; auto.
    apply check_distances_spec with (i := i) (j := j) in Hc; auto.
Qed.

Lemma generate_coordinates_returns_witness :
  exists xyz ati s',
    generate_coordinates 0 [1; 1] F64.three (F64.of_dyadic 1 (-1)) F64.two
      (tape_of [0; 0; 0; 2 ^ 52; 2 ^ 52; 2 ^ 52]) = Ok ((xyz, ati), s') /\
    ati = [0; 1] /\
    F64.leb (F64.of_dyadic 1 (-1)) (distance xyz 0 1) = true.
Proof.
  eexists. eexists. eexists. split; [vm_compute; reflexivity|].
  split; [reflexivity|].
  eapply (generate_coordinates_returns 0 [1; 1] F64.three (F64.of_dyadic 1 (-1)) F64.two
            (tape_of [0; 0; 0; 2 ^ 52; 2 ^ 52; 2 ^ 52])).
  - repeat constructor; lia.
  - vm_compute. reflexivity.
  - simpl. lia.
  - vm_compute. reflexivity.
  - vm_compute. reflexivity.
Defined.

(** ** Metal-abundance limiting *)



(** ** Hydrogen backfill *)

(** C7.  On an array of non-negative counts: if the hydrogen count is 0,
    the backfill draws [u] (a float of [[0, 1)], see [rand_unit_interval])
    and adds [1 + int(u * minnat * 1.2)] hydrogen atoms, with [minnat] the
    smaller of the total count and 10 and the product taken in binary64;
    the conversion never fails, so the hydrogen count is at least 1
    afterwards.  If the hydrogen count is not 0, neither the array nor the
    random source changes. *)
Theorem hydrogen_backfill (natoms : list Z) s :
  (0 < length natoms)%nat -> nonneg natoms ->
  (nth 0 natoms 0 = 0 ->
   exists t,
     py_int (F64.mul (F64.mul (F64.of_dyadic (tape s (cursor s) mod 2 ^ 53) (-53))
                              (F64.of_Z (Z.min (zsum natoms) 10)))
                     F64.one_point_two) = Ok t /\
     0 <= t /\
     add_hydrogen natoms s = Ok (list_set 0 (1 + t) natoms, advance s) /\
     1 <= nth 0 (list_set 0 (1 + t) natoms) 0) /\
  (nth 0 natoms 0 <> 0 -> add_hydrogen natoms s = Ok (natoms, s)).
Proof.
  intros Hlen Hnn. split.
  - intros H0. destruct (add_hydrogen_zero natoms s Hlen Hnn H0) as (t & Ht & Ht0 & Ha).
    exists t. repeat split; auto.
    rewrite nth_list_set_eq by exact Hlen. lia.
  - apply add_hydrogen_nonzero. exact Hlen.
Qed.

Lemma hydrogen_backfill_witness :
  add_hydrogen three_heliums (tape_of [2 ^ 52]) =
    Ok (list_set 0 2 three_heliums, advance (tape_of [2 ^ 52])) /\
  add_hydrogen (list_set 0 2 three_heliums) (tape_of [2 ^ 52]) =
    Ok (list_set 0 2 three_heliums, tape_of [2 ^ 52]).
Proof.
  split.
  - destruct (hydrogen_backfill three_heliums (tape_of [2 ^ 52])) as [H _].
    + vm_compute. lia.
    + unfold three_heliums. repeat constructor; try lia; apply nonneg_repeat.
    + destruct (H eq_refl) as (t & Ht & _ & Ha & _).
      vm_compute in Ht. inversion Ht; subst t. exact Ha.
  - destruct (hydrogen_backfill (list_set 0 2 three_heliums) (tape_of [2 ^ 52])) as [_ H].
    + vm_compute. lia.
    + apply nonneg_list_set; [|lia].
      unfold three_heliums. repeat constructor; try lia; apply nonneg_repeat.
    + apply H. vm_compute. discriminate.
Defined.

(** ** Reproducibility *)



(** ** Degenerate geometry *)

(** C9.  With a distance threshold of zero, of either sign, the check
    passes on the first draw: the sampler returns the first coordinates
    scaled by the initial scale, and it does so without fuel, so the
    redraw branch is not entered. *)
Theorem zero_threshold_first_draw
  (sgn : bool) (fuel : nat) (at_ : list Z) (scaling inc : float) s :
  generate_coordinates fuel at_ scaling (S754_zero sgn) inc s =
  ('(xyz, ati) <- generate_random_coordinates at_ ;; ret (scale xyz scaling, ati)) s.
Proof.
  unfold generate_coordinates, bind.
  destruct (generate_random_coordinates at_ s) as [[[xyz ati] s1]| |]; auto.
  destruct fuel; cbn [rescale_loop]; rewrite check_distances_zero; reflexivity.
Qed.

(** C10.  For a composition vector of non-negative counts whose total is 0
    or 1, and any threshold, the first draw succeeds, its check passes,
    and the sampler returns it scaled by the initial scale without
    entering the redraw branch. *)
Theorem small_composition_first_draw
  (at_ : list Z) (thr : float) (fuel : nat) (scaling inc : float) s :
  Forall (fun c => 0 <= c) at_ -> zsum at_ <= 1 ->
  exists xyz ati s',
    generate_random_coordinates at_ s = Ok ((xyz, ati), s') /\
    (length xyz <= 1)%nat /\
    check_distances (scale xyz scaling) thr = true /\
    generate_coordinates fuel at_ scaling thr inc s = Ok ((scale xyz scaling, ati), s').
Proof.
  intros Hnn Hs.
  destruct (generate_random_coordinates_total at_ s Hnn) as (xyz & ati & s' & H).
  exists xyz, ati, s'.
  pose proof (generate_random_coordinates_spec _ _ _ _ _ H) as [Hl _].
  assert (Hshort : (length xyz <= 1)%nat) by lia.
  assert (Hc : check_distances (scale xyz scaling) thr = true)
    by (apply check_distances_short; rewrite scale_length; exact Hshort).
  repeat split; auto.
  unfold generate_coordinates. rewrite (bind_eq_Ok _ _ _ _ _ H).
  destruct fuel; cbn [rescale_loop]; rewrite Hc; reflexivity.
Qed.

Lemma small_composition_first_draw_witness :
  exists xyz ati s',
    generate_coordinates 0 (1 :: repeat 0 101) F64.one (F64.of_dyadic 1 1000) F64.two
      (tape_of [1; 2; 3]) = Ok ((scale xyz F64.one, ati), s') /\ ati = [0].
Proof.
  destruct (small_composition_first_draw (1 :: repeat 0 101) (F64.of_dyadic 1 1000)
              0 F64.one F64.two (tape_of [1; 2; 3]))
    as (xyz & ati & s' & H1 & H2 & H3 & H4).
  - repeat constructor; lia.
  - vm_compute. discriminate.
  - exists xyz, ati, s'. split; [exact H4|].
    apply generate_random_coordinates_spec in H1. destruct H1 as [_ ->]. reflexivity.
Defined.

(** * Further facts about the composition sampler *)

(** ** Metal-limiting passes, exactly *)

Lemma pointwise_le_refl (a : list Z) : pointwise_le a a.
Proof. intros k. lia. Qed.

Lemma pointwise_le_trans (a b c : list Z) :
  pointwise_le a b -> pointwise_le b c -> pointwise_le a c.
Proof. intros H1 H2 k. specialize (H1 k). specialize (H2 k). lia. Qed.

Lemma pointwise_le_list_set (a : list Z) (k : nat) (v : Z) :
  v <= nth k a 0 -> pointwise_le (list_set k v a) a.
Proof.
  intros Hv j. destruct (Nat.eq_dec k j) as [<-|Hne].
  - destruct (Nat.lt_ge_cases k (length a)) as [Hk|Hk].
    + rewrite nth_list_set_eq by exact Hk. exact Hv.
    + rewrite !nth_overflow by (rewrite ?list_set_length; lia). lia.
  - rewrite nth_list_set_neq by exact Hne. lia.
Qed.

Lemma pointwise_ge_list_set (a : list Z) (k : nat) (v : Z) :
  nth k a 0 <= v -> pointwise_le a (list_set k v a).
Proof.
  intros Hv j. destruct (Nat.eq_dec k j) as [<-|Hne].
  - destruct (Nat.lt_ge_cases k (length a)) as [Hk|Hk].
    + rewrite nth_list_set_eq by exact Hk. exact Hv.
    + rewrite !nth_overflow by (rewrite ?list_set_length; lia). lia.
  - rewrite nth_list_set_neq by exact Hne. lia.
Qed.

Lemma scan_group_tight (g : list Z) :
  forall a m a' m',
    scan_group g a m = Ok (a', m') ->
    pointwise_le a' a /\ zsum a' - m' = zsum a - m /\ (3 < m -> 3 <= m').
Proof.
  induction g as [|i rest IH]; intros a m a' m' H; cbn [scan_group] in H.
  - inversion H; subst. split; [apply pointwise_le_refl|]. split; lia.
  - apply obind_Ok in H. destruct H as (c & Hc & H).
    apply getitem_Ok in Hc. destruct Hc as (k & Hk & -> & Hlt).
    apply obind_Ok in H. destruct H as ([a1 m1] & Hst & H). cbn [fst snd] in H.
    assert (H1 : pointwise_le a1 a /\ zsum a1 - m1 = zsum a - m /\
                 m - 1 <= m1 <= m).
    { destruct (0 <? nth k a 0) eqn:E0.
      - apply obind_Ok in Hst. destruct Hst as (a2 & Hset & Hst).
        inversion Hst; subst a2 m1; clear Hst.
        unfold setitem in Hset. rewrite Hk in Hset. inversion Hset; subst a1.
        split; [apply pointwise_le_list_set; lia|].
        rewrite zsum_list_set by exact Hlt. lia.
      - inversion Hst; subst. split; [apply pointwise_le_refl|]. lia. }
    destruct H1 as (Hle1 & Hs1 & Hm1).
    destruct (m1 <=? 3) eqn:E3.
    + apply Z.leb_le in E3. inversion H; subst.
      split; [exact Hle1|]. split; [exact Hs1 | lia].
    + apply Z.leb_gt in E3. apply IH in H. destruct H as (Hle & Hs & Hm).
      split; [eapply pointwise_le_trans; eauto|]. split; lia.
Qed.

Lemma reduce_metals_tight (n : nat) (G : list Z) :
  NoDup G -> in_range n G ->
  forall fuel a m a',
    length a = n -> nonneg a -> m = group_count G a ->
    reduce_metals fuel G a m = Ok a' ->
    pointwise_le a' a /\
    group_count G a' = Z.min m 3 /\
    zsum a' = zsum a - Z.max 0 (m - 3).
Proof.
  intros HndG HG. induction fuel as [|f IH]; intros a m a' Hlen Hnn Hm H;
    cbn [reduce_metals] in H; destruct (3 <? m) eqn:E3;
    try (apply Z.ltb_ge in E3; inversion H; subst a';
         split; [apply pointwise_le_refl|]; split; lia).
  - discriminate.
  - apply Z.ltb_lt in E3.
    destruct (scan_group_spec n G HndG HG G a m (incl_refl G) HndG Hlen Hnn)
      as (a1 & m1 & Hs & Hl1 & Hn1 & _ & Hc1 & _ & _).
    rewrite Hs in H. cbn [obind fst snd] in H.
    apply scan_group_tight in Hs. destruct Hs as (Hle1 & Hz1 & Hfl1).
    specialize (Hfl1 E3).
    apply IH in H; auto; [|lia]. destruct H as (Hle & Hc & Hz).
    split; [eapply pointwise_le_trans; eauto|]. split; lia.
Qed.

(** ** The first loop touches valid elements only *)

Lemma add_random_atoms_outside (n : nat) (valid : list Z) :
  in_range n valid ->
  forall rounds a s a' s',
    length a = n ->
    add_random_atoms rounds valid a s = Ok (a', s') ->
    forall k, ~ In (Z.of_nat k) valid -> nth k a' 0 = nth k a 0.
Proof.
  intros Hv. induction rounds as [|r IH]; intros a s a' s' Hlen H k Hk;
    cbn [add_random_atoms] in H.
  - inv_ok. reflexivity.
  - inv_ok.
    match goal with H : choice _ _ = Ok (?x, _) |- _ =>
      apply choice_Ok in H; destruct H as [Hin ->]; rename x into ati end.
    assert (Hr : 0 <= ati < Z.of_nat n)
      by (unfold in_range in Hv; rewrite Forall_forall in Hv; auto).
    match goal with H : setitem _ _ _ = Ok _ |- _ =>
      apply setitem_Ok in H; destruct H as (j & Hj & -> & Hlt) end.
    apply py_index_nonneg in Hj; [|lia]. destruct Hj as [-> _].
    match goal with H : add_random_atoms _ _ _ _ = Ok _ |- _ =>
      rewrite (IH _ _ _ _ ltac:(rewrite list_set_length; exact Hlen) H k Hk) end.
    apply nth_list_set_neq. intros E. apply Hk. rewrite <- E.
    rewrite Z2Nat.id by lia. exact Hin.
Qed.

Lemma limit_metals_tight (n : nat) (G : list Z) (fuel : nat) (a a' : list Z) :
  NoDup G -> in_range n G -> length a = n -> nonneg a ->
  limit_metals fuel G a = Ok a' ->
  limited n G a a' /\ pointwise_le a' a /\
  group_count G a' = Z.min (group_count G a) 3 /\
  zsum a' = zsum a - Z.max 0 (group_count G a - 3).
Proof.
  intros HndG HG Hlen Hnn H.
  pose proof (limit_metals_spec n G fuel a HndG HG Hlen Hnn) as Hs.
  rewrite H in Hs. split; [exact Hs|].
  unfold limit_metals in H. rewrite (count_group_spec n G a HG Hlen) in H.
  cbn [obind] in H. rewrite Z.add_0_l in H.
  eapply reduce_metals_tight; eauto.
Qed.

Lemma nonneg_zero_stays (a a' : list Z) (k : nat) :
  nonneg a' -> pointwise_le a' a -> nth k a 0 = 0 -> nth k a' 0 = 0.
Proof.
  intros Hn Hle H0. pose proof (nonneg_nth a' k Hn). specialize (Hle k). lia.
Qed.

Lemma sample_and_limit_stages (fuel : nat) (cfg : GenerateConfig) s a s' :
  sample_and_limit fuel cfg s = Ok (a, s') ->
  exists k a0 a1,
    1 <= k < 7 /\
    add_random_atoms (Z.to_nat k) (valid_elems cfg) (repeat 0 102) (advance s)
      = Ok (a0, s') /\
    limit_metals fuel group_one_two a0 = Ok a1 /\
    limit_metals fuel other_metals a1 = Ok a.
Proof.
  unfold sample_and_limit. intros H. inv_ok.
  match goal with H : randint _ _ _ = Ok _ |- _ =>
    apply randint_Ok in H; destruct H as [Hk ->] end.
  eauto 10.
Qed.

Lemma sample_and_limit_footprint (fuel : nat) (cfg : GenerateConfig) s a s' :
  sample_and_limit fuel cfg s = Ok (a, s') ->
  length a = 102%nat /\ nonneg a /\ zsum a <= 12 /\
  forall k, ~ In (Z.of_nat k) (valid_elems cfg) -> nth k a 0 = 0.
Proof.
  intros H. apply sample_and_limit_stages in H.
  destruct H as (k & a0 & a1 & Hk & H0 & H1 & H2).
  pose proof (in_range_weaken 86 102 _ ltac:(lia) (valid_elems_range cfg)) as Hv.
  pose proof (add_random_atoms_spec 102 (valid_elems cfg) Hv (Z.to_nat k)
                (repeat 0 102) (advance s) (repeat_length 0 102)
                (nonneg_repeat 102)) as Hs0.
  rewrite H0 in Hs0. destruct Hs0 as (Hl0 & Hn0 & Hz0).
  replace (zsum (repeat 0 102)) with 0 in Hz0 by reflexivity.
  pose proof (add_random_atoms_outside 102 _ Hv _ _ _ _ _ (repeat_length 0 102) H0)
    as Ho0.
  destruct (limit_metals_tight 102 _ _ _ _ group_one_two_nodup group_one_two_range
              Hl0 Hn0 H1) as ((Hl1 & Hn1 & _ & _) & Hle1 & _ & Hz1).
  destruct (limit_metals_tight 102 _ _ _ _ other_metals_nodup other_metals_range
              Hl1 Hn1 H2) as ((Hl2 & Hn2 & _ & _) & Hle2 & _ & Hz2).
  split; [exact Hl2|]. split; [exact Hn2|]. split; [lia|].
  intros j Hj. apply (nonneg_zero_stays a1 a j Hn2 Hle2).
  apply (nonneg_zero_stays a0 a1 j Hn1 Hle1).
  rewrite (Ho0 j Hj). destruct (Nat.lt_ge_cases j 102).
  - apply nth_repeat_lt. assumption.
  - apply nth_overflow. rewrite repeat_length. lia.
Qed.

(** ** The p-block boost *)

Lemma add_organic_effect (rounds : nat) :
  forall a s a' s',
    add_organic rounds a s = Ok (a', s') ->
    (forall k, ~ (4 <= k <= 9)%nat -> nth k a' 0 = nth k a 0) /\
    pointwise_le a a' /\
    zsum a <= zsum a' <= zsum a + 2 * Z.of_nat rounds /\
    cursor s' = (cursor s + 2 * rounds)%nat /\ tape s' = tape s.
Proof.
  induction rounds as [|r IH]; intros a s a' s' H; cbn [add_organic] in H.
  - inv_ok. split; [reflexivity|]. split; [apply pointwise_le_refl|].
    split; [lia|]. split; [lia|reflexivity].
  - inv_ok.
    repeat match goal with H : randint _ _ _ = Ok _ |- _ =>
      apply randint_Ok in H; destruct H as [? ->] end.
    match goal with H : getitem _ _ _ = Ok _ |- _ =>
      apply getitem_Ok in H; destruct H as (j & Hj & -> & Hlt) end.
    match goal with H : setitem _ _ _ = Ok _ |- _ =>
      unfold setitem in H; rewrite Hj in H; inversion H; subst; clear H end.
    apply py_index_nonneg in Hj; [|lia]. destruct Hj as [-> _].
    match goal with H : add_organic _ _ _ = Ok _ |- _ =>
      apply IH in H; destruct H as (Ho & Hle & Hz & Hc & Ht) end.
    rewrite zsum_list_set in Hz by exact Hlt.
    split; [|split; [|split; [|split]]].
    + intros k Hk. rewrite (Ho k Hk). apply nth_list_set_neq. lia.
    + eapply pointwise_le_trans; [|exact Hle]. apply pointwise_ge_list_set. lia.
    + lia.
    + rewrite Hc. cbn [cursor advance]. lia.
    + rewrite Ht. reflexivity.
Qed.

Lemma add_hydrogen_footprint (a : list Z) s a' s' :
  (0 < length a)%nat -> nonneg a ->
  add_hydrogen a s = Ok (a', s') ->
  length a' = length a /\ nonneg a' /\ 1 <= nth 0 a' 0 /\
  forall k, k <> O -> nth k a' 0 = nth k a 0.
Proof.
  intros Hlen Hnn H.
  destruct (Z.eq_dec (nth 0 a 0) 0) as [E|E].
  - destruct (add_hydrogen_zero a s Hlen Hnn E) as (t & _ & Ht & Ha).
    rewrite Ha in H.
    assert (Ea : a' = list_set 0 (1 + t) a) by congruence. subst a'. clear H.
    rewrite list_set_length. repeat split; auto.
    + apply nonneg_list_set; [exact Hnn | lia].
    + rewrite nth_list_set_eq by exact Hlen. lia.
    + intros k Hk. apply nth_list_set_neq. lia.
  - rewrite (add_hydrogen_nonzero a s Hlen E) in H.
    assert (Ea : a' = a) by congruence. subst a'.
    repeat split; auto. pose proof (nonneg_nth a 0 Hnn). lia.
Qed.

Lemma sample_unconstrained_footprint (fuel : nat) (cfg : GenerateConfig) s a s' :
  sample_unconstrained fuel cfg s = Ok (a, s') ->
  length a = 102%nat /\ nonneg a /\ 1 <= nth 0 a 0 /\
  forall k, ~ In (Z.of_nat k) (valid_elems cfg) -> k <> O -> ~ (4 <= k <= 9)%nat ->
            nth k a 0 = 0.
Proof.
  unfold sample_unconstrained. intros H. inv_ok.
  match goal with H : sample_and_limit _ _ _ = Ok _ |- _ =>
    pose proof (sample_and_limit_footprint _ _ _ _ _ H) as (Hl0 & Hn0 & _ & Hz0) end.
  match goal with H : add_organic _ ?x ?y = Ok _ |- _ =>
    pose proof (add_organic_effect _ _ _ _ _ H) as (Ho1 & _);
    destruct (add_organic_spec 102 ltac:(lia) 5 x y Hl0 Hn0)
      as (b & t & E & Hl1 & Hn1); rewrite E in H; inversion H; subst b t end.
  match goal with H : add_hydrogen _ _ = Ok _ |- _ =>
    apply add_hydrogen_footprint in H; [|lia|exact Hn1];
    destruct H as (Hl2 & Hn2 & Hh & Ho2) end.
  split; [lia|]. split; [exact Hn2|]. split; [exact Hh|].
  intros k Hk H0 H49. rewrite (Ho2 k H0), (Ho1 k H49). apply Hz0. exact Hk.
Qed.

(** ** The grow loop, step by step *)

Lemma grow_step_cases (cfg : GenerateConfig) (a : list Z) (ati : Z) (a' : list Z) :
  grow_step cfg a ati = Ok a' ->
  a' = a \/
  exists k,
    py_index (length a) ati = Some k /\ (k < length a)%nat /\
    a' = list_set k (nth k a 0 + 1) a /\
    forall mx, snd (dict_get (element_composition cfg) ati (None, None)) = Some mx ->
               nth k a 0 < mx.
Proof.
  unfold grow_step. intros H. apply obind_Ok in H. destruct H as (c & Hc & H).
  apply getitem_Ok in Hc. destruct Hc as (k & Hk & -> & Hlt).
  destruct (snd (dict_get (element_composition cfg) ati (None, None))) as [mx|].
  - destruct (mx <=? nth k a 0) eqn:E; [inversion H; auto|].
    apply Z.leb_gt in E. right. exists k.
    unfold setitem in H. rewrite Hk in H. inversion H; subst.
    repeat split; auto. intros mx' Em. inversion Em; subst. exact E.
  - right. exists k. unfold setitem in H. rewrite Hk in H. inversion H; subst.
    repeat split; auto. discriminate.
Qed.

Lemma grow_loop_effect (cfg : GenerateConfig) (valid : list Z) (n : nat) :
  in_range n valid ->
  forall fuel a s a' s',
    length a = n ->
    grow_loop fuel cfg valid a s = Ok (a', s') ->
    length a' = n /\ pointwise_le a a' /\
    zsum a' = Z.max (zsum a) (min_num_atoms cfg) /\
    (forall k, ~ In (Z.of_nat k) valid -> nth k a' 0 = nth k a 0) /\
    (forall i mx,
        0 <= i ->
        snd (dict_get (element_composition cfg) i (None, None)) = Some mx ->
        (nth (Z.to_nat i) a 0 <= mx -> nth (Z.to_nat i) a' 0 <= mx) /\
        (mx <= nth (Z.to_nat i) a 0 -> nth (Z.to_nat i) a' 0 = nth (Z.to_nat i) a 0)).
Proof.
  intros Hv. induction fuel as [|f IH]; intros a s a' s' Hlen H; cbn [grow_loop] in H;
    destruct (zsum a <? min_num_atoms cfg) eqn:E;
    try (apply Z.ltb_ge in E; inv_ok;
         split; [exact Hlen|]; split; [apply pointwise_le_refl|];
         split; [lia|]; split; [reflexivity|]; intros; split; intros; auto).
  - discriminate.
  - apply Z.ltb_lt in E. inv_ok.
    match goal with H : choice _ _ = Ok (?x, _) |- _ =>
      apply choice_Ok in H; destruct H as [Hin ->]; rename x into ati end.
    assert (Hr : 0 <= ati < Z.of_nat n)
      by (unfold in_range in Hv; rewrite Forall_forall in Hv; auto).
    match goal with H : grow_step _ _ _ = Ok ?x |- _ =>
      apply grow_step_cases in H; rename x into a1;
      destruct H as [->|(k & Hk & Hlt & -> & Hcap)] end.
    + match goal with H : grow_loop _ _ _ _ _ = Ok _ |- _ =>
        apply IH in H; [|exact Hlen]; destruct H as (H1 & H2 & H3 & H4 & H5) end.
      repeat split; auto; apply H5; auto.
    + apply py_index_nonneg in Hk; [|lia]. destruct Hk as [-> _].
      match goal with H : grow_loop _ _ _ _ _ = Ok _ |- _ =>
        apply IH in H; [|rewrite list_set_length; exact Hlen];
        destruct H as (H1 & H2 & H3 & H4 & H5) end.
      rewrite zsum_list_set in H3 by exact Hlt.
      split; [exact H1|]. split.
      { eapply pointwise_le_trans; [|exact H2]. apply pointwise_ge_list_set. lia. }
      split; [lia|]. split.
      { intros k Hk. rewrite (H4 k Hk). apply nth_list_set_neq.
        intros Ek. apply Hk. rewrite <- Ek. rewrite Z2Nat.id by lia. exact Hin. }
      intros i mx Hi Hmx. specialize (H5 i mx Hi Hmx). destruct H5 as [H5a H5b].
      destruct (Z.eq_dec i ati) as [->|Hne].
      * specialize (Hcap mx Hmx).
        rewrite nth_list_set_eq in H5a, H5b by exact Hlt.
        split; intros Hle; [apply H5a; lia | lia].
      * rewrite nth_list_set_neq in H5a, H5b by lia. split; assumption.
Qed.

(** ** The shrink loop, step by step *)

Lemma shrink_loop_effect (cfg : GenerateConfig) (fuel : nat) :
  forall a s a' s',
    shrink_loop fuel cfg a s = Ok (a', s') ->
    length a' = length a /\ pointwise_le a' a /\ (nonneg a -> nonneg a') /\
    (forall i, 0 <= i ->
       fst (dict_get (element_composition cfg) i (None, None)) = None ->
       nth (Z.to_nat i) a' 0 = nth (Z.to_nat i) a 0) /\
    (forall i mn, 0 <= i ->
       fst (dict_get (element_composition cfg) i (None, None)) = Some mn ->
       (mn <= nth (Z.to_nat i) a 0 -> mn <= nth (Z.to_nat i) a' 0) /\
       (nth (Z.to_nat i) a 0 <= mn -> nth (Z.to_nat i) a' 0 = nth (Z.to_nat i) a 0)).
Proof.
  induction fuel as [|f IH]; intros a s a' s' H; cbn [shrink_loop] in H;
    destruct (max_num_atoms cfg <? zsum a) eqn:E;
    try (inv_ok; split; [reflexivity|]; split; [apply pointwise_le_refl|];
         split; [auto|]; split; [reflexivity|]; intros; split; intros; auto).
  - discriminate.
  - inv_ok.
    match goal with H : randint _ _ _ = Ok (?x, _) |- _ =>
      apply randint_Ok in H; destruct H as [Hi ->]; rename x into j end.
    match goal with H : shrink_step _ _ _ = Ok ?x |- _ =>
      apply shrink_step_cases in H; rename x into a1;
      destruct H as [->|(k & mn & Hk & Hlt & Hget & Hpos & Hgt & ->)] end.
    + match goal with H : shrink_loop _ _ _ _ = Ok _ |- _ =>
        apply IH in H; exact H end.
    + apply py_index_nonneg in Hk; [|lia]. destruct Hk as [-> _].
      match goal with H : shrink_loop _ _ _ _ = Ok _ |- _ =>
        apply IH in H; destruct H as (H1 & H2 & H3 & H4 & H5) end.
      rewrite list_set_length in H1.
      split; [exact H1|]. split.
      { eapply pointwise_le_trans; [exact H2|]. apply pointwise_le_list_set. lia. }
      split.
      { intros Hnn. apply H3. apply nonneg_list_set; [exact Hnn|lia]. }
      split.
      { intros i Hi0 Hnone. rewrite (H4 i Hi0 Hnone).
        apply nth_list_set_neq. intros Ek.
        assert (i = j) by lia. subst i. congruence. }
      intros i mn' Hi0 Hsome. specialize (H5 i mn' Hi0 Hsome).
      destruct H5 as [H5a H5b].
      destruct (Z.eq_dec i j) as [->|Hne].
      * assert (mn' = mn) by congruence. subst mn'.
        rewrite nth_list_set_eq in H5a, H5b by exact Hlt.
        split; intros Hle; [apply H5a; lia | lia].
      * rewrite nth_list_set_neq in H5a, H5b by lia. split; assumption.
Qed.

(** ** Clamps on arbitrary constraint maps *)

Lemma clamp_max_outcome (a : list Z) (k : Z) (mx : option Z) :
  match clamp_max a k mx with
  | Ok a' =>
      length a' = length a /\
      (mx <> None -> py_index (length a) k <> None) /\
      (forall j, py_index (length a) k <> Some j -> nth j a' 0 = nth j a 0)
  | Raise e => e = IndexError /\ mx <> None /\ py_index (length a) k = None
  | OutOfFuel => False
  end.
Proof.
  unfold clamp_max, getitem, setitem. destruct mx as [x|].
  - destruct (py_index (length a) k) as [j|] eqn:Ek; cbn [obind].
    + destruct (x <? nth j a 0).
      * rewrite list_set_length. repeat split; try discriminate.
        intros j' Hj'. apply nth_list_set_neq. congruence.
      * repeat split; try discriminate.
    + repeat split; discriminate.
  - repeat split; congruence.
Qed.

Lemma clamp_outcome (a : list Z) (k : Z) (r : option Z * option Z) :
  match clamp a k r with
  | Ok a' =>
      length a' = length a /\
      (has_bound r = true -> py_index (length a) k <> None) /\
      (forall j, py_index (length a) k <> Some j -> nth j a' 0 = nth j a 0)
  | Raise e => e = IndexError /\ bad_item (length a) (k, r)
  | OutOfFuel => False
  end.
Proof.
  destruct r as [mn mx]. unfold clamp, bad_item. cbn [fst snd].
  pose proof (clamp_max_outcome a k mx) as Hmax.
  destruct mn as [m|].
  - unfold getitem, setitem.
    destruct (py_index (length a) k) as [j|] eqn:Ek; cbn [obind].
    + destruct (nth j a 0 <? m).
      * rewrite list_set_length. repeat split; try discriminate.
        intros j' Hj'. apply nth_list_set_neq. congruence.
      * destruct (clamp_max a k mx) as [a'| |]; auto.
        -- destruct Hmax as (H1 & _ & H3). repeat split; auto; discriminate.
        -- destruct Hmax as (_ & _ & H). congruence.
    + repeat split.
  - destruct (clamp_max a k mx) as [a'| |]; auto.
    + destruct Hmax as (H1 & H2 & H3). repeat split; auto.
      intros Hb. apply H2. destruct mx; [discriminate|discriminate Hb].
    + destruct Hmax as (H1 & H2 & H3). repeat split; auto.
      destruct mx; [reflexivity|congruence].
Qed.

Lemma apply_composition_outcome (items : list (Z * (option Z * option Z))) :
  forall a,
    match apply_composition items a with
    | Ok a' =>
        length a' = length a /\
        Forall (fun it => ~ bad_item (length a) it) items /\
        (forall j, (forall it, In it items -> py_index (length a) (fst it) <> Some j) ->
                   nth j a' 0 = nth j a 0)
    | Raise e => e = IndexError /\ Exists (bad_item (length a)) items
    | OutOfFuel => False
    end.
Proof.
  induction items as [|[k r] rest IH]; intros a; cbn [apply_composition].
  - repeat split; auto.
  - pose proof (clamp_outcome a k r) as Hc.
    destruct (clamp a k r) as [a1| |]; cbn [obind]; auto.
    + destruct Hc as (Hl1 & Hb1 & Ho1). specialize (IH a1).
      destruct (apply_composition rest a1) as [a'| |]; auto.
      * destruct IH as (Hl & Hf & Ho). rewrite Hl1 in *.
        split; [exact Hl|]. split.
        -- constructor; [|exact Hf]. intros [Hb Hnone]. cbn [fst snd] in *.
           exact (Hb1 Hb Hnone).
        -- intros j Hj. rewrite Ho by (intros it Hit; apply Hj; right; exact Hit).
           apply Ho1. apply (Hj (k, r)). left. reflexivity.
      * destruct IH as (He & Hex). rewrite Hl1 in Hex.
        split; [exact He|]. apply Exists_cons_tl. exact Hex.
    + destruct Hc as (He & Hbad). split; [exact He|].
      apply Exists_cons_hd. exact Hbad.
Qed.

Lemma clamp_max_noop (a : list Z) (k : Z) (mx : option Z) :
  0 <= k < Z.of_nat (length a) ->
  (forall x, mx = Some x -> nth (Z.to_nat k) a 0 <= x) ->
  clamp_max a k mx = Ok a.
Proof.
  intros Hk Hx. unfold clamp_max. destruct mx as [x|]; [|reflexivity].
  rewrite getitem_inrange by exact Hk. cbn [obind].
  replace (x <? nth (Z.to_nat k) a 0) with false
    by (symmetry; apply Z.ltb_ge; apply Hx; reflexivity).
  reflexivity.
Qed.

Lemma clamp_noop (a : list Z) (k : Z) (mn mx : option Z) :
  0 <= k < Z.of_nat (length a) ->
  (forall m, mn = Some m -> m <= nth (Z.to_nat k) a 0) ->
  (forall x, mx = Some x -> nth (Z.to_nat k) a 0 <= x) ->
  clamp a k (mn, mx) = Ok a.
Proof.
  intros Hk Hm Hx. unfold clamp.
  destruct mn as [m|]; [|apply clamp_max_noop; assumption].
  rewrite getitem_inrange by exact Hk. cbn [obind].
  replace (nth (Z.to_nat k) a 0 <? m) with false
    by (symmetry; apply Z.ltb_ge; apply Hm; reflexivity).
  apply clamp_max_noop; assumption.
Qed.

Lemma apply_composition_noop (items : list (Z * (option Z * option Z))) (a : list Z) :
  Forall (fun it => 0 <= fst it < Z.of_nat (length a)) items ->
  meets_minimums items a -> meets_maximums items a ->
  apply_composition items a = Ok a.
Proof.
  induction items as [|[k [mn mx]] rest IH]; intros Hr Hmin Hmax; [reflexivity|].
  inversion Hr as [|? ? Hk Hrest]; subst. cbn [fst] in Hk.
  cbn [apply_composition]. rewrite clamp_noop; auto.
  - cbn [obind]. apply IH; auto.
    + intros k' m x Hin. apply (Hmin k' m x). right. exact Hin.
    + intros k' m x Hin. apply (Hmax k' m x). right. exact Hin.
  - intros m ->. apply (Hmin k m mx). left. reflexivity.
  - intros x ->. apply (Hmax k mn x). left. reflexivity.
Qed.

Lemma nth_repeat_zero (k n : nat) : nth k (repeat 0 n) 0 = 0.
Proof.
  destruct (Nat.lt_ge_cases k n).
  - apply nth_repeat_lt. assumption.
  - apply nth_overflow. rewrite repeat_length. lia.
Qed.

(** ** No valid element *)

Lemma valid_elems_In (cfg : GenerateConfig) (x : Z) :
  In x (valid_elems cfg) <-> 0 <= x < 86 /\ ~ In x (forbidden_elements cfg).
Proof.
  unfold valid_elems. rewrite filter_In, py_range_In, negb_true_iff.
  unfold MAX_ELEM. split; intros [H1 H2]; split; auto.
  - intros F. apply existsb_Zeqb in F. congruence.
  - destruct (existsb (Z.eqb x) (forbidden_elements cfg)) eqn:E; [|reflexivity].
    apply existsb_Zeqb in E. contradiction.
Qed.

Lemma valid_elems_empty (cfg : GenerateConfig) :
  (forall i, 0 <= i < 86 -> In i (forbidden_elements cfg)) -> valid_elems cfg = [].
Proof.
  intros H. destruct (valid_elems cfg) as [|x rest] eqn:E; [reflexivity|].
  assert (Hx : In x (valid_elems cfg)) by (rewrite E; left; reflexivity).
  apply valid_elems_In in Hx. destruct Hx as [Hr Hn]. exfalso. auto.
Qed.

Lemma sample_and_limit_no_valid (fuel : nat) (cfg : GenerateConfig) s :
  valid_elems cfg = [] -> sample_and_limit fuel cfg s = Raise ValueError.
Proof.
  intros Hv. unfold sample_and_limit.
  destruct (randint_spec 1 7 s ltac:(lia)) as (k & Hk & Er).
  rewrite (bind_eq_Ok _ _ _ _ _ Er). rewrite Hv.
  destruct (Z.to_nat k) as [|r] eqn:Ek; [lia|]. reflexivity.
Qed.

(** ** A shrink loop that cannot remove anything *)

Lemma shrink_step_frozen (cfg : GenerateConfig) (a : list Z) (i : Z) :
  (86 <= length a)%nat -> frozen cfg a -> 0 <= i < 86 ->
  shrink_step cfg a i = Ok a.
Proof.
  intros Hlen Hf Hi. unfold shrink_step.
  rewrite getitem_inrange by lia. cbn [obind].
  destruct (0 <? nth (Z.to_nat i) a 0) eqn:E0; [|reflexivity].
  apply Z.ltb_lt in E0. destruct (Hf i Hi) as [H|H]; [lia|].
  destruct (fst (dict_get (element_composition cfg) i (None, None))) as [mn|];
    [|reflexivity].
  replace (mn <? nth (Z.to_nat i) a 0) with false
    by (symmetry; apply Z.ltb_ge; exact H).
  reflexivity.
Qed.

Lemma dict_get_absent {V : Type} (d : list (Z * V)) (k : Z) (default : V) :
  (forall it, In it d -> fst it <> k) -> dict_get d k default = default.
Proof.
  induction d as [|[k' v] rest IH]; intros H; [reflexivity|].
  cbn [dict_get]. destruct (k' =? k) eqn:E.
  - apply Z.eqb_eq in E. exfalso. apply (H (k', v)); [left; reflexivity | exact E].
  - apply IH. intros it Hit. apply H. right. exact Hit.
Qed.

(** * Further properties of the composition sampler *)

(** X1.  A metal-limiting pass over a duplicate-free group of positions,
    run on non-negative counts with enough fuel, returns; the counts of
    the group then sum to the smaller of their former sum and 3, exactly
    the excess over 3 is removed from the total, no count grows, and no
    count outside the group changes. *)
Theorem metal_pass_removes_excess (fuel : nat) (G a : list Z) :
  NoDup G -> in_range (length a) G -> nonneg a ->
  (Z.to_nat (group_count G a - 3) <= fuel)%nat ->
  exists a',
    limit_metals fuel G a = Ok a' /\
    group_count G a' = Z.min (group_count G a) 3 /\
    zsum a' = zsum a - Z.max 0 (group_count G a - 3) /\
    pointwise_le a' a /\ nonneg a' /\ length a' = length a /\
    forall k, ~ In (Z.of_nat k) G -> nth k a' 0 = nth k a 0.
Proof.
  intros Hnd Hr Hnn Hf.
  pose proof (limit_metals_spec (length a) G fuel a Hnd Hr eq_refl Hnn) as Hs.
  destruct (limit_metals fuel G a) as [a'| |] eqn:E; [|contradiction|lia].
  exists a'. split; [reflexivity|].
  destruct (limit_metals_tight (length a) G fuel a a' Hnd Hr eq_refl Hnn E)
    as ((Hl & Hn & Ho & _) & Hle & Hc & Hz).
  repeat split; auto.
Qed.

Lemma metal_pass_removes_excess_witness :
  limit_metals 3 group_one_two six_metals = Ok ([0; 0; 2; 1] ++ repeat 0 98).
Proof.
  destruct (metal_pass_removes_excess 3 group_one_two six_metals)
    as (a' & E & _).
  - exact group_one_two_nodup.
  - exact group_one_two_range.
  - unfold six_metals. repeat constructor; lia.
  - vm_compute. lia.
  - rewrite E. revert E. vm_compute. intros E. inversion E. reflexivity.
Defined.

(** X2.  Before the p-block boost, that is after the first loop and the
    two metal passes, every forbidden element and every element index
    from 86 on has count 0, no count is negative and the molecule has at
    most 12 atoms. *)
Theorem forbidden_untouched_before_boost
  (fuel : nat) (cfg : GenerateConfig) s natoms s' :
  sample_and_limit fuel cfg s = Ok (natoms, s') ->
  (forall i, 0 <= i -> In i (forbidden_elements cfg) ->
             nth (Z.to_nat i) natoms 0 = 0) /\
  (forall k, (86 <= k)%nat -> nth k natoms 0 = 0) /\
  nonneg natoms /\ 0 <= zsum natoms <= 12.
Proof.
  intros H. apply sample_and_limit_footprint in H.
  destruct H as (Hl & Hn & Hz & Ho). repeat split; auto.
  - intros i H0 Hi. apply Ho. rewrite Z2Nat.id by exact H0.
    intros F. apply valid_elems_In in F. tauto.
  - intros k Hk. apply Ho. intros F. apply valid_elems_In in F. lia.
  - apply zsum_nonneg. exact Hn.
Qed.

Lemma forbidden_untouched_before_boost_witness :
  exists natoms s',
    sample_and_limit 9 (config 1 50 [] [5; 6]) (tape_of carbon_dozen) = Ok (natoms, s') /\
    nth 5 natoms 0 = 0 /\ nth 7 natoms 0 = 2.
Proof.
  eexists. eexists. split; [vm_compute; reflexivity|].
  split; [|reflexivity].
  destruct (forbidden_untouched_before_boost 9 (config 1 50 [] [5; 6])
              (tape_of carbon_dozen) _ _ ltac:(vm_compute; reflexivity))
    as (H & _).
  apply (H 5); [lia | left; reflexivity].
Defined.

(** X3.  The p-block boost on an array of at least ten non-negative counts
    returns after [2 * rounds] draws; it changes no count outside the
    positions 4 to 9, lowers none, and adds at most [2 * rounds] atoms. *)
Theorem boost_footprint (rounds : nat) (a : list Z) s :
  (10 <= length a)%nat -> nonneg a ->
  exists a' s',
    add_organic rounds a s = Ok (a', s') /\
    (forall k, ~ (4 <= k <= 9)%nat -> nth k a' 0 = nth k a 0) /\
    pointwise_le a a' /\
    zsum a <= zsum a' <= zsum a + 2 * Z.of_nat rounds /\
    cursor s' = (cursor s + 2 * rounds)%nat /\ tape s' = tape s /\
    length a' = length a.
Proof.
  intros Hlen Hnn.
  destruct (add_organic_spec (length a) Hlen rounds a s eq_refl Hnn)
    as (a' & s' & E & Hl & _).
  exists a', s'. split; [exact E|].
  destruct (add_organic_effect rounds a s a' s' E) as (H1 & H2 & H3 & H4 & H5).
  repeat split; auto; lia.
Qed.

Lemma boost_footprint_witness :
  exists a' s',
    add_organic 5 (repeat 0 102) (tape_of [1; 2; 1; 2; 3; 1]) = Ok (a', s') /\
    zsum a' <= 10 /\ cursor s' = 10%nat /\ nth 5 a' 0 = 4.
Proof.
  destruct (boost_footprint 5 (repeat 0 102) (tape_of [1; 2; 1; 2; 3; 1]))
    as (a' & s' & E & _ & _ & Hz & Hc & _).
  - rewrite repeat_length. lia.
  - apply nonneg_repeat.
  - exists a', s'. split; [exact E|]. split; [exact (proj2 Hz)|].
    split; [exact Hc|]. revert E. vm_compute. intros E. inversion E. reflexivity.
Defined.



(** X5.  Clamping is idempotent for a well-formed constraint map: running
    the clamp loop on its own result changes nothing. *)
Theorem clamps_idempotent
  (items : list (Z * (option Z * option Z))) (a a' : list Z) :
  wf_composition items -> length a = 102%nat -> nonneg a ->
  apply_composition items a = Ok a' ->
  apply_composition items a' = Ok a'.
Proof.
  intros [Hnd Hit] Hlen Hnn H.
  destruct (apply_composition_spec 102 items Hnd Hit a Hlen Hnn)
    as (b & E & Hl & Hn & Ho & Hmin & Hmax).
  rewrite E in H. inversion H; subst b; clear H.
  apply apply_composition_noop; auto.
  rewrite Hl. apply Forall_forall. intros [k r] Hin.
  apply (wf_item_key 102 items k r Hit Hin).
Qed.

Lemma clamps_idempotent_witness :
  apply_composition [(0, (Some 2, Some 2)); (5, (None, Some 1))]
    ([2; 0; 0; 0; 0; 1] ++ repeat 0 96) = Ok ([2; 0; 0; 0; 0; 1] ++ repeat 0 96).
Proof.
  apply (clamps_idempotent [(0, (Some 2, Some 2)); (5, (None, Some 1))]
           ([7; 0; 0; 0; 0; 3] ++ repeat 0 96)).
  - split; [apply nodupb_sound; reflexivity|].
    repeat constructor; cbn; try lia; intros; try discriminate;
      repeat match goal with H : Some _ = Some _ |- _ =>
        inversion H; subst; clear H end; lia.
  - reflexivity.
  - repeat constructor; lia.
  - vm_compute. reflexivity.
Defined.









Lemma generate_atom_list_constraints
  (fuel : nat) (cfg : GenerateConfig) s natoms s' :
  wf_composition (element_composition cfg) ->
  generate_atom_list fuel cfg s = Ok (natoms, s') ->
  length natoms = 102%nat /\ nonneg natoms /\
  meets_minimums (element_composition cfg) natoms /\
  meets_maximums (element_composition cfg) natoms.
Proof.
  intros [Hnd Hit] H. apply generate_atom_list_stages in H.
  destruct H as (a1 & s1 & a2 & a3 & s3 & H1 & H2 & Hg & Hs).
  destruct (sample_unconstrained_footprint fuel cfg s a1 s1 H1) as (Hl1 & Hn1 & _).
  destruct (apply_composition_spec 102 _ Hnd Hit a1 Hl1 Hn1)
    as (b & E & Hl2 & Hn2 & _ & Hmin2 & Hmax2).
  rewrite E in H2. inversion H2; subst b; clear H2.
  pose proof (in_range_weaken 86 102 _ ltac:(lia) (valid_elems_range cfg)) as Hv.
  destruct (grow_loop_effect cfg _ 102 Hv fuel a2 s1 a3 s3 Hl2 Hg)
    as (Hl3 & Hle3 & _ & _ & Hcap3).
  destruct (shrink_loop_effect cfg fuel a3 s3 natoms s' Hs)
    as (Hl4 & Hle4 & Hn4 & _ & Hsome4).
  assert (Hn3 : nonneg a3).
  { apply Forall_forall. intros x Hx. apply In_nth with (d := 0) in Hx.
    destruct Hx as (j & _ & <-). pose proof (nonneg_nth a2 j Hn2).
    specialize (Hle3 j). lia. }
  split; [lia|]. split; [auto|]. split.
  - intros k m x Hin.
    pose proof (wf_item_key 102 _ k _ Hit Hin) as Hk.
    apply (Hsome4 k m ltac:(lia)).
    + rewrite (dict_get_In _ _ _ _ Hnd Hin). reflexivity.
    + specialize (Hmin2 k m x Hin). specialize (Hle3 (Z.to_nat k)). lia.
  - intros k m x Hin.
    pose proof (wf_item_key 102 _ k _ Hit Hin) as Hk.
    specialize (Hle4 (Z.to_nat k)).
    assert (nth (Z.to_nat k) a3 0 <= x); [|lia].
    apply (Hcap3 k x ltac:(lia)).
    + rewrite (dict_get_In _ _ _ _ Hnd Hin). reflexivity.
    + exact (Hmax2 k m x Hin).
Qed.



(** X11.  In every composition vector the sampler returns, an element has
    count 0 unless it is valid, or hydrogen, or one of the elements 4 to
    9 of the p-block boost, or a key of the constraint map; in particular
    the elements from 86 on are never generated. *)
Theorem sampler_footprint (fuel : nat) (cfg : GenerateConfig) s natoms s' :
  generate_atom_list fuel cfg s = Ok (natoms, s') ->
  forall k,
    ~ In (Z.of_nat k) (valid_elems cfg) -> k <> O -> ~ (4 <= k <= 9)%nat ->
    (forall it, In it (element_composition cfg) -> py_index 102 (fst it) <> Some k) ->
    nth k natoms 0 = 0.
Proof.
  intros H k Hv H0 H49 Hkey. apply generate_atom_list_stages in H.
  destruct H as (a1 & s1 & a2 & a3 & s3 & H1 & H2 & Hg & Hs).
  destruct (sample_unconstrained_footprint fuel cfg s a1 s1 H1) as (Hl1 & _ & _ & Hz1).
  pose proof (apply_composition_outcome (element_composition cfg) a1) as Hc.
  rewrite H2 in Hc. destruct Hc as (Hl2 & _ & Ho2). rewrite Hl1 in *.
  pose proof (in_range_weaken 86 102 _ ltac:(lia) (valid_elems_range cfg)) as Hvr.
  destruct (grow_loop_effect cfg _ 102 Hvr fuel a2 s1 a3 s3 Hl2 Hg)
    as (Hl3 & _ & _ & Ho3 & _).
  destruct (shrink_loop_effect cfg fuel a3 s3 natoms s' Hs)
    as (Hl4 & _ & _ & Hnone4 & _).
  destruct (Nat.lt_ge_cases k 102) as [Hk|Hk];
    [|apply nth_overflow; lia].
  assert (Hd : fst (dict_get (element_composition cfg) (Z.of_nat k) (None, None)) = None).
  { rewrite dict_get_absent; [reflexivity|].
    intros it Hit E. apply (Hkey it Hit). rewrite E.
    rewrite py_index_inrange by lia. rewrite Nat2Z.id. reflexivity. }
  pose proof (Hnone4 (Z.of_nat k) ltac:(lia) Hd) as E4. rewrite Nat2Z.id in E4.
  rewrite E4, (Ho3 k Hv), (Ho2 k Hkey). apply Hz1; assumption.
Qed.

Lemma sampler_footprint_witness :
  match generate_atom_list 9 (config 1 50 [(0, (Some 2, Some 2))] [1; 2])
          (tape_of carbon_dozen) with
  | Ok (natoms, _) => nth 1 natoms 0 = 0 /\ nth 90 natoms 0 = 0
  | _ => False
  end.
Proof.
  destruct (generate_atom_list 9 (config 1 50 [(0, (Some 2, Some 2))] [1; 2])
              (tape_of carbon_dozen)) as [[natoms s']| |] eqn:E;
    try (vm_compute in E; discriminate).
  pose proof (sampler_footprint 9 _ _ _ _ E) as H.
  split.
  - apply (H 1%nat); try lia.
    + vm_compute. intuition discriminate.
    + intros it [<-|[]]. vm_compute. discriminate.
  - apply (H 90%nat); try lia.
    + vm_compute. intuition discriminate.
    + intros it [<-|[]]. vm_compute. discriminate.
Defined.

(** X12.  When every element index from 0 to 85 is forbidden, the
    composition sampler raises [ValueError] on its first draw of an
    element, whatever the random source, and so does the generator. *)
Theorem all_forbidden_raises (fuel : nat) (cfg : GenerateConfig) s :
  (forall i, 0 <= i < 86 -> In i (forbidden_elements cfg)) ->
  generate_atom_list fuel cfg s = Raise ValueError /\
  generate_random_molecule fuel cfg s = Raise ValueError.
Proof.
  intros H. apply valid_elems_empty in H.
  assert (E : generate_atom_list fuel cfg s = Raise ValueError).
  { unfold generate_atom_list, sample_unconstrained, bind.
    rewrite (sample_and_limit_no_valid fuel cfg s H). reflexivity. }
  split; [exact E|]. unfold generate_random_molecule, bind. rewrite E. reflexivity.
Qed.

Lemma all_forbidden_raises_witness :
  generate_atom_list 9 cfg_all_forbidden (tape_of carbon_dozen) = Raise ValueError /\
  generate_random_molecule 9 cfg_all_forbidden (tape_of carbon_dozen) = Raise ValueError.
Proof.
  apply all_forbidden_raises. intros i Hi. apply py_range_In. exact Hi.
Defined.

(** * Further properties of the geometry sampler *)

(** ** The raw coordinates follow the draws *)

Lemma state_eq (t : nat -> Z) (c1 c2 : nat) :
  c1 = c2 -> {| tape := t; cursor := c1 |} = {| tape := t; cursor := c2 |}.
Proof. intros ->. reflexivity. Qed.

Lemma skip_skip (a b : nat) s : skip a (skip b s) = skip (b + a) s.
Proof. unfold skip. cbn [tape cursor]. apply state_eq. lia. Qed.

Lemma skip_zero s : skip 0 s = s.
Proof. destruct s as [t c]. unfold skip. cbn [tape cursor]. apply state_eq. lia. Qed.

Lemma unit_draw_skip (a k : nat) s : unit_draw (skip a s) k = unit_draw s (a + k).
Proof.
  unfold unit_draw, skip. cbn [tape cursor].
  replace (cursor s + a + k)%nat with (cursor s + (a + k))%nat by lia. reflexivity.
Qed.

Lemma drawn_row_skip (a q : nat) s elem :
  drawn_row (skip (3 * a) s) elem q = drawn_row s elem (a + q).
Proof.
  unfold drawn_row. rewrite !unit_draw_skip.
  replace (3 * a + 3 * q)%nat with (3 * (a + q))%nat by lia.
  replace (3 * a + (3 * q + 1))%nat with (3 * (a + q) + 1)%nat by lia.
  replace (3 * a + (3 * q + 2))%nat with (3 * (a + q) + 2)%nat by lia.
  reflexivity.
Qed.

Lemma rand3_draws s :
  rand3 s = Ok ((unit_draw s 0, unit_draw s 1, unit_draw s 2), skip 3 s).
Proof.
  unfold rand3, rand, bind, next_raw, ret, unit_draw, skip. cbn [tape cursor].
  rewrite Nat.add_0_r.
  replace (cursor s + 1)%nat with (S (cursor s)) by lia.
  replace (cursor s + 2)%nat with (S (S (cursor s))) by lia.
  replace (cursor s + 3)%nat with (S (S (S (cursor s)))) by lia.
  reflexivity.
Qed.

Lemma place_element_rows (todo : nat) :
  forall m elem numatoms xyz atilist s,
    0 <= numatoms + m ->
    numatoms + m + Z.of_nat todo <= Z.of_nat (length xyz) ->
    exists xyz',
      place_element todo m elem numatoms xyz atilist s =
        Ok ((xyz', atilist ++ repeat elem todo), skip (3 * todo) s) /\
      length xyz' = length xyz /\
      (forall q, (q < todo)%nat ->
         nth (Z.to_nat (numatoms + m) + q) xyz' vec3_zero = drawn_row s elem q) /\
      (forall p, (p < Z.to_nat (numatoms + m))%nat \/
                 (Z.to_nat (numatoms + m) + todo <= p)%nat ->
         nth p xyz' vec3_zero = nth p xyz vec3_zero).
Proof.
  induction todo as [|t IH]; intros m elem numatoms xyz atilist s Hlo Hhi.
  - exists xyz. cbn [place_element repeat]. rewrite app_nil_r.
    change (3 * 0)%nat with O. rewrite skip_zero.
    repeat split; auto. intros q Hq. lia.
  - cbn [place_element].
    rewrite (bind_eq_Ok _ _ _ _ _ (rand3_draws s)).
    assert (Hin : 0 <= numatoms + m < Z.of_nat (length xyz)) by lia.
    rewrite (bind_lift_Ok _ _ _ _ (setitem_inrange xyz _ _ Hin)).
    set (row := if elem =? 0 then _ else _).
    assert (Hrow : row = drawn_row s elem 0).
    { unfold row, drawn_row, box_rule. change (3 * 0)%nat with O.
      destruct (elem =? 0); reflexivity. }
    set (k0 := Z.to_nat (numatoms + m)).
    destruct (IH (m + 1) elem numatoms (list_set k0 row xyz) (atilist ++ [elem]) (skip 3 s))
      as (xyz' & E & Hlen & Hrows & Hout).
    { lia. }
    { rewrite list_set_length. lia. }
    exists xyz'. rewrite E. rewrite skip_skip, <- app_assoc.
    replace (3 + 3 * t)%nat with (3 * S t)%nat by lia.
    rewrite list_set_length in Hlen.
    replace (Z.to_nat (numatoms + (m + 1))) with (S k0) in Hrows, Hout by (unfold k0; lia).
    split; [reflexivity|]. split; [exact Hlen|]. split.
    + intros [|q] Hq.
      * rewrite Nat.add_0_r, Hout by lia.
        rewrite nth_list_set_eq by (unfold k0; lia). exact Hrow.
      * replace (k0 + S q)%nat with (S k0 + q)%nat by lia.
        rewrite Hrows by lia.
        change 3%nat with (3 * 1)%nat. rewrite drawn_row_skip. reflexivity.
    + intros p Hp. rewrite Hout by lia. apply nth_list_set_neq. lia.
Qed.

Lemma place_all_rows (at_ : list Z) :
  nonneg at_ ->
  forall elem numatoms xyz atilist s,
    0 <= numatoms ->
    numatoms + zsum at_ <= Z.of_nat (length xyz) ->
    exists xyz',
      place_all at_ elem numatoms xyz atilist s =
        Ok ((xyz', atilist ++ expand at_ elem), skip (3 * Z.to_nat (zsum at_)) s) /\
      length xyz' = length xyz /\
      (forall q, (q < Z.to_nat (zsum at_))%nat ->
         nth (Z.to_nat numatoms + q) xyz' vec3_zero =
         drawn_row s (nth q (expand at_ elem) 0) q) /\
      (forall p, (p < Z.to_nat numatoms)%nat \/
                 (Z.to_nat numatoms + Z.to_nat (zsum at_) <= p)%nat ->
         nth p xyz' vec3_zero = nth p xyz vec3_zero).
Proof.
  induction 1 as [|count rest Hc Hrest IH]; intros elem numatoms xyz atilist s Hlo Hhi.
  - exists xyz. cbn [place_all expand]. rewrite app_nil_r.
    change (zsum []) with 0. change (3 * Z.to_nat 0)%nat with O. rewrite skip_zero.
    repeat split; auto. intros q Hq. cbn in Hq. lia.
  - cbn [place_all expand]. rewrite zsum_cons in *.
    pose proof (zsum_nonneg rest Hrest) as Hs.
    destruct (place_element_rows (Z.to_nat count) 0 elem numatoms xyz atilist s
                ltac:(lia) ltac:(lia)) as (xyz1 & E1 & Hl1 & Hr1 & Ho1).
    rewrite (bind_eq_Ok _ _ _ _ _ E1).
    destruct (IH (elem + 1) (numatoms + count) xyz1
                (atilist ++ repeat elem (Z.to_nat count)) (skip (3 * Z.to_nat count) s)
                ltac:(lia) ltac:(lia)) as (xyz' & E2 & Hl2 & Hr2 & Ho2).
    exists xyz'. rewrite E2, skip_skip, <- app_assoc.
    replace (3 * Z.to_nat count + 3 * Z.to_nat (zsum rest))%nat
      with (3 * Z.to_nat (count + zsum rest))%nat by lia.
    replace (numatoms + 0) with numatoms in Hr1, Ho1 by lia.
    replace (Z.to_nat (numatoms + count))
      with (Z.to_nat numatoms + Z.to_nat count)%nat in Hr2, Ho2 by lia.
    split; [reflexivity|]. split; [congruence|]. split.
    + intros q Hq. destruct (Nat.lt_ge_cases q (Z.to_nat count)) as [Hlt|Hge].
      * rewrite app_nth1 by (rewrite repeat_length; exact Hlt).
        rewrite nth_repeat_lt by exact Hlt.
        rewrite Ho2 by lia. apply Hr1. exact Hlt.
      * rewrite app_nth2 by (rewrite repeat_length; exact Hge).
        rewrite repeat_length.
        replace (Z.to_nat numatoms + q)%nat
          with (Z.to_nat numatoms + Z.to_nat count + (q - Z.to_nat count))%nat by lia.
        rewrite Hr2 by lia. rewrite drawn_row_skip.
        replace (Z.to_nat count + (q - Z.to_nat count))%nat with q by lia.
        reflexivity.
    + intros p Hp. rewrite Ho2 by lia. apply Ho1. lia.
Qed.

Lemma generate_random_coordinates_rows (at_ : list Z) s :
  nonneg at_ ->
  exists xyz,
    generate_random_coordinates at_ s =
      Ok ((xyz, expand at_ 0), skip (3 * Z.to_nat (zsum at_)) s) /\
    length xyz = Z.to_nat (zsum at_) /\
    forall p, (p < Z.to_nat (zsum at_))%nat ->
      nth p xyz vec3_zero = drawn_row s (nth p (expand at_ 0) 0) p.
Proof.
  intros Hnn. pose proof (zsum_nonneg at_ Hnn) as Hs.
  unfold generate_random_coordinates.
  replace (zsum at_ <? 0) with false by (symmetry; apply Z.ltb_ge; lia).
  destruct (place_all_rows at_ Hnn 0 0 (repeat vec3_zero (Z.to_nat (zsum at_))) [] s
              ltac:(lia) ltac:(rewrite repeat_length; lia)) as (xyz & E & Hl & Hr & _).
  exists xyz. rewrite E. rewrite repeat_length in Hl.
  split; [reflexivity|]. split; [exact Hl|]. intros p Hp. apply (Hr p Hp).
Qed.

(** X13.  On a composition vector of non-negative counts the raw
    coordinate sampler always returns; it consumes exactly three draws per
    atom, the atoms are numbered element by element in increasing element
    index, and the row of the [p]-th atom is made of the draws [3p],
    [3p+1] and [3p+2] by the rule of that atom's element: [c * 3 - 1.5]
    for hydrogen and [c * 2 - 1] otherwise. *)
Theorem coordinates_follow_draws (at_ : list Z) s :
  nonneg at_ ->
  exists xyz,
    generate_random_coordinates at_ s =
      Ok ((xyz, expand at_ 0), skip (3 * Z.to_nat (zsum at_)) s) /\
    length xyz = Z.to_nat (zsum at_) /\
    forall p, (p < Z.to_nat (zsum at_))%nat ->
      nth p xyz vec3_zero = drawn_row s (nth p (expand at_ 0) 0) p.
Proof. apply generate_random_coordinates_rows. Qed.

Lemma coordinates_follow_draws_witness :
  exists xyz,
    generate_random_coordinates [1; 0; 1] (tape_of [0; 0; 0; 2 ^ 52; 2 ^ 52; 2 ^ 52]) =
      Ok ((xyz, [0; 2]), skip 6 (tape_of [0; 0; 0; 2 ^ 52; 2 ^ 52; 2 ^ 52])) /\
    nth 1 xyz vec3_zero = (F64.zero, F64.zero, F64.zero).
Proof.
  destruct (coordinates_follow_draws [1; 0; 1]
              (tape_of [0; 0; 0; 2 ^ 52; 2 ^ 52; 2 ^ 52]))
    as (xyz & E & _ & Hrow).
  - repeat constructor; lia.
  - exists xyz. split; [exact E|].
    rewrite (Hrow 1%nat) by (vm_compute; lia). vm_compute. reflexivity.
Defined.

(** ** Retries *)

Lemma attempt_next (at_ : list Z) (scaling inc : float) s (k : nat) :
  nonneg at_ ->
  exists raw,
    generate_random_coordinates at_ (skip (k * (3 * Z.to_nat (zsum at_))) s) =
      Ok ((raw, expand at_ 0), skip (S k * (3 * Z.to_nat (zsum at_))) s) /\
    attempt at_ scaling inc s k = scale raw (grown_scaling k scaling inc).
Proof.
  intros Hnn.
  destruct (generate_random_coordinates_rows at_
              (skip (k * (3 * Z.to_nat (zsum at_))) s) Hnn) as (raw & E & _).
  exists raw. unfold attempt. rewrite E. rewrite skip_skip.
  replace (k * (3 * Z.to_nat (zsum at_)) + 3 * Z.to_nat (zsum at_))%nat
    with (S k * (3 * Z.to_nat (zsum at_)))%nat by lia.
  split; reflexivity.
Qed.

Lemma rescale_loop_law (at_ : list Z) (scaling thr inc : float) s0 :
  nonneg at_ ->
  forall fuel j,
    match rescale_loop fuel at_ thr inc (grown_scaling j scaling inc)
            (attempt at_ scaling inc s0 j) (expand at_ 0)
            (skip (S j * (3 * Z.to_nat (zsum at_))) s0) with
    | Ok ((xyz, ati), s') =>
        exists n, (j <= n <= j + fuel)%nat /\
          (forall k, (j <= k < n)%nat ->
             check_distances (attempt at_ scaling inc s0 k) thr = false) /\
          xyz = attempt at_ scaling inc s0 n /\
          check_distances xyz thr = true /\
          ati = expand at_ 0 /\
          s' = skip (S n * (3 * Z.to_nat (zsum at_))) s0
    | Raise _ => False
    | OutOfFuel =>
        forall k, (j <= k <= j + fuel)%nat ->
          check_distances (attempt at_ scaling inc s0 k) thr = false
    end.
Proof.
  intros Hnn. induction fuel as [|f IH]; intros j; cbn [rescale_loop];
    destruct (check_distances (attempt at_ scaling inc s0 j) thr) eqn:Hc.
  - exists j. repeat split; auto; lia.
  - intros k Hk. replace k with j by lia. exact Hc.
  - exists j. repeat split; auto; lia.
  - destruct (attempt_next at_ scaling inc s0 (S j) Hnn) as (raw & E & Ea).
    rewrite (bind_eq_Ok _ _ _ _ _ E).
    cbn [grown_scaling] in Ea. rewrite <- Ea.
    specialize (IH (S j)). cbn [grown_scaling] in IH.
    destruct (rescale_loop f at_ thr inc _ _ _ _) as [[[xyz ati] s']| |].
    + destruct IH as (n & Hn & Hfail & Hx & Hok & Hati & Hs).
      exists n. repeat split; auto; try lia.
      intros k Hk. destruct (Nat.eq_dec k j) as [->|Hne]; [exact Hc|].
      apply Hfail. lia.
    + exact IH.
    + intros k Hk. destruct (Nat.eq_dec k j) as [->|Hne]; [exact Hc|].
      apply IH. lia.
Qed.

(** X14.  On a composition vector of non-negative counts the geometry
    sampler never raises.  It returns the first attempt that passes the
    distance check: attempt [k] is made of the [3N] draws that follow the
    earlier attempts and is scaled by the initial scaling multiplied [k]
    times by the growth factor; every earlier attempt failed the check
    and [3N(n+1)] draws are consumed.  It is still running after [fuel]
    retries exactly when the first [fuel + 1] attempts all fail. *)
Theorem retries_scale_geometrically
  (fuel : nat) (at_ : list Z) (scaling thr inc : float) s :
  nonneg at_ ->
  match generate_coordinates fuel at_ scaling thr inc s with
  | Ok ((xyz, ati), s') =>
      exists n, (n <= fuel)%nat /\
        (forall k, (k < n)%nat ->
           check_distances (attempt at_ scaling inc s k) thr = false) /\
        xyz = attempt at_ scaling inc s n /\
        check_distances xyz thr = true /\
        ati = expand at_ 0 /\
        s' = skip (S n * (3 * Z.to_nat (zsum at_))) s
  | Raise _ => False
  | OutOfFuel =>
      forall k, (k <= fuel)%nat ->
        check_distances (attempt at_ scaling inc s k) thr = false
  end.
Proof.
  intros Hnn. unfold generate_coordinates.
  destruct (attempt_next at_ scaling inc s 0 Hnn) as (raw & E & Ea).
  change (0 * (3 * Z.to_nat (zsum at_)))%nat with O in E. rewrite skip_zero in E.
  rewrite (bind_eq_Ok _ _ _ _ _ E).
  cbn [grown_scaling] in Ea. rewrite <- Ea.
  pose proof (rescale_loop_law at_ scaling thr inc s Hnn fuel 0) as H.
  cbn [grown_scaling] in H.
  destruct (rescale_loop fuel at_ thr inc _ _ _ _) as [[[xyz ati] s']| |].
  - destruct H as (n & Hn & Hfail & Hx & Hok & Hati & Hs).
    exists n. repeat split; auto; try lia. intros k Hk. apply Hfail. lia.
  - exact H.
  - intros k Hk. apply H. lia.
Qed.

Lemma retries_scale_geometrically_witness :
  exists xyz ati s',
    generate_coordinates 3 [2] F64.three (F64.of_dyadic 1 (-1)) F64.two
      (tape_of retry_tape) = Ok ((xyz, ati), s') /\
    xyz = attempt [2] F64.three F64.two (tape_of retry_tape) 1 /\
    cursor s' = 12%nat.
Proof.
  pose proof (retries_scale_geometrically 3 [2] F64.three (F64.of_dyadic 1 (-1)) F64.two
                (tape_of retry_tape) ltac:(repeat constructor; lia)) as H.
  destruct (generate_coordinates 3 [2] F64.three (F64.of_dyadic 1 (-1)) F64.two
              (tape_of retry_tape)) as [[[xyz ati] s']| |] eqn:E;
    try (vm_compute in E; discriminate).
  exists xyz, ati, s'. split; [reflexivity|].
  destruct H as (n & Hn & Hfail & Hx & Hok & _ & Hs).
  assert (n = 1%nat) as ->.
  { destruct n as [|[|n]]; [|reflexivity|].
    - rewrite Hx in Hok. vm_compute in Hok. discriminate.
    - specialize (Hfail 1%nat ltac:(lia)). vm_compute in Hfail. discriminate. }
  split; [exact Hx|]. rewrite Hs. reflexivity.
Defined.

(** ** The distance check *)

Lemma sub_self (x : float) : is_finite x = true -> F64.sub x x = F64.zero.
Proof.
  destruct x as [s| | |s m e]; try discriminate; intros _.
  - destruct s; reflexivity.
  - unfold F64.sub, SFsub. rewrite Z.sub_diag. reflexivity.
Qed.

Lemma norm_sub_self (v : vec3) : finite3 v = true -> norm (vec3_sub v v) = F64.zero.
Proof.
  destruct v as [[x y] z]. cbn [finite3]. intros H.
  apply andb_true_iff in H. destruct H as [H Hz].
  apply andb_true_iff in H. destruct H as [Hx Hy].
  cbn [vec3_sub]. rewrite !sub_self by assumption. reflexivity.
Qed.

(** X15.  The distance check fails on every geometry in which two atoms
    have the same finite coordinates, for every threshold above zero
    (infinity included): their distance is computed as [+0]. *)
Theorem coincident_atoms_rejected (xyz : list vec3) (thr : float) (i j : nat) :
  (i < j < length xyz)%nat ->
  nth i xyz vec3_zero = nth j xyz vec3_zero ->
  finite3 (nth i xyz vec3_zero) = true ->
  F64.ltb F64.zero thr = true ->
  check_distances xyz thr = false.
Proof.
  intros Hij Heq Hfin Hthr.
  destruct (check_distances xyz thr) eqn:Hc; [|reflexivity].
  rewrite check_distances_spec in Hc. specialize (Hc i j Hij).
  unfold distance in Hc. rewrite <- Heq, norm_sub_self in Hc by exact Hfin.
  congruence.
Qed.

Lemma coincident_atoms_rejected_witness :
  check_distances [(F64.one, F64.two, F64.three); vec3_zero; (F64.one, F64.two, F64.three)]
    (F64.of_dyadic 1 (-1074)) = false.
Proof.
  apply (coincident_atoms_rejected _ _ 0 2); try reflexivity. cbn [length]. lia.
Defined.

Lemma sqrt_not_below_nonpositive (x thr : float) :
  F64.ltb F64.zero thr = false -> F64.ltb (F64.sqrt x) thr = false.
Proof.
  intros Hthr.
  assert (Hcases : F64.sqrt x = S754_nan \/ F64.sqrt x = S754_infinity false \/
                   (exists s, F64.sqrt x = S754_zero s) \/
                   exists m e, F64.sqrt x = S754_finite false m e).
  { destruct x as [s|s| |s m e]; try (destruct s; cbn; eauto; fail); cbn; eauto.
    destruct s; [cbn; eauto|].
    unfold F64.sqrt, SFsqrt.
    destruct (SFsqrt_core_binary F64.prec F64.emax (Z.pos m) e) as [[mz ez] lz].
    destruct (binary_round_aux_cases false mz ez lz) as [H|[H|[H|(m' & e' & H)]]];
      rewrite H; eauto 6. }
  destruct thr as [s|s| |s m e]; try destruct s; try discriminate;
    destruct Hcases as [H|[H|[(s' & H)|(m' & e' & H)]]]; rewrite H; reflexivity.
Qed.

(** X16.  A threshold that is not above zero (a zero, a negative number,
    minus infinity or NaN) switches the distance check off: the check
    passes on every geometry, so the geometry sampler returns its first
    draw scaled by the initial scaling, whatever the fuel. *)
Theorem nonpositive_threshold_disables_check
  (thr : float) (fuel : nat) (at_ : list Z) (scaling inc : float) s :
  F64.ltb F64.zero thr = false ->
  (forall xyz, check_distances xyz thr = true) /\
  generate_coordinates fuel at_ scaling thr inc s =
  ('(xyz, ati) <- generate_random_coordinates at_ ;; ret (scale xyz scaling, ati)) s.
Proof.
  intros Hthr.
  assert (Hall : forall xyz, check_distances xyz thr = true).
  { intros xyz. apply check_distances_spec. intros i j _.
    unfold distance. destruct (vec3_sub _ _) as [[x y] z]. unfold norm.
    apply sqrt_not_below_nonpositive. exact Hthr. }
  split; [exact Hall|].
  unfold generate_coordinates, bind.
  destruct (generate_random_coordinates at_ s) as [[[xyz ati] s1]| |]; try reflexivity.
  destruct fuel; cbn [rescale_loop]; rewrite Hall; reflexivity.
Qed.

Lemma nonpositive_threshold_disables_check_witness :
  check_distances [vec3_zero; vec3_zero] S754_nan = true /\
  check_distances [vec3_zero; vec3_zero] (F64.of_dyadic (-1) 0) = true.
Proof.
  split.
  - apply (nonpositive_threshold_disables_check S754_nan 0 [] F64.one F64.one (tape_of [])).
    reflexivity.
  - apply (nonpositive_threshold_disables_check (F64.of_dyadic (-1) 0) 0 [] F64.one F64.one
             (tape_of [])).
    reflexivity.
Defined.

(** * Further properties: the assembled molecule and a capped grow loop *)

Lemma generate_coordinates_Ok
  (fuel : nat) (at_ : list Z) (scaling thr inc : float) s xyz ati s' :
  generate_coordinates fuel at_ scaling thr inc s = Ok ((xyz, ati), s') ->
  check_distances xyz thr = true /\
  length xyz = Z.to_nat (zsum at_) /\ ati = expand at_ 0.
Proof.
  unfold generate_coordinates. intros H. apply bind_Ok in H.
  destruct H as ([xyz0 ati0] & s0 & H0 & H).
  apply generate_random_coordinates_spec in H0. destruct H0 as [Hl0 Ha0].
  apply (rescale_loop_spec at_ thr inc fuel scaling (scale xyz0 scaling) ati0 s0 xyz ati s');
    [rewrite scale_length; exact Hl0 | exact Ha0 | exact H].
Qed.

Lemma cfg_small_wf : wf_composition (element_composition cfg_small).
Proof.
  split; [apply nodupb_sound; reflexivity|].
  repeat constructor; cbn; try lia; intros; try discriminate;
    repeat match goal with H : Some _ = Some _ |- _ =>
      inversion H; subst; clear H end; lia.
Qed.



(** X18.  The grow loop never exits, on any random source and with any
    amount of fuel, when the total is below [min_num_atoms] and every
    valid element has a configured maximum that its count has reached:
    every draw is skipped by the [continue]. *)
Theorem capped_grow_loop_never_exits (cfg : GenerateConfig) (valid a : list Z) :
  valid <> [] -> all_capped cfg valid a -> zsum a < min_num_atoms cfg ->
  forall fuel s, grow_loop fuel cfg valid a s = OutOfFuel.
Proof. apply grow_loop_stuck. Qed.

Lemma capped_grow_loop_never_exits_witness :
  grow_loop 20 (config 3 9 [(0, (None, Some 1)); (5, (None, Some 0))] []) [0; 5]
    (1 :: repeat 0 101) (tape_of [0; 1; 0; 1]) = OutOfFuel.
Proof.
  apply capped_grow_loop_never_exits.
  - discriminate.
  - intros ati [<-|[<-|[]]]; (split; [vm_compute; split; [discriminate|reflexivity]|]).
    + exists 1. split; [reflexivity | vm_compute; discriminate].
    + exists 0. split; [reflexivity | vm_compute; discriminate].
  - vm_compute. reflexivity.
Defined.

(** * Further properties: the coordinate box, atom totals and termination *)

(** ** Rounding never crosses a representable number *)

Lemma iter_pos_iter {A : Type} (f : A -> A) (p : positive) :
  forall x, iter_pos f p x = Pos.iter f x p.
Proof.
  induction p as [q IH|q IH|]; intros x; cbn [iter_pos Pos.iter].
  - rewrite !IH, !Pos.iter_swap. reflexivity.
  - rewrite !IH. reflexivity.
  - reflexivity.
Qed.

Lemma shr_1_spec (mrs : shr_record) :
  0 <= shr_m mrs ->
  shr_m (shr_1 mrs) = shr_m mrs / 2 /\
  shr_r (shr_1 mrs) = Z.odd (shr_m mrs) /\
  shr_s (shr_1 mrs) = shr_r mrs || shr_s mrs.
Proof.
  destruct mrs as [m r s]. cbn [shr_m shr_r shr_s]. intros Hm.
  rewrite <- Z.div2_div.
  destruct m as [|[q|q|]|q]; try lia; cbn; auto.
Qed.

Lemma shr_iter_spec (m : Z) (n : positive) :
  0 <= m ->
  let r := Pos.iter shr_1 {| shr_m := m; shr_r := false; shr_s := false |} n in
  shr_m r = m / 2 ^ Zpos n /\
  (m mod 2 ^ Zpos n = 0 -> shr_r r = false /\ shr_s r = false).
Proof.
  intros Hm. induction n as [|n IH] using Pos.peano_ind.
  - cbn [Pos.iter]. destruct (shr_1_spec {| shr_m := m; shr_r := false; shr_s := false |} Hm)
      as (H1 & H2 & H3). cbn [shr_m shr_r shr_s] in *.
    split; [rewrite H1; reflexivity|]. intros Hmod.
    rewrite H2, H3. split; [|reflexivity].
    change (2 ^ 1) with 2 in Hmod. rewrite Zmod_odd in Hmod.
    destruct (Z.odd m); [discriminate|reflexivity].
  - cbv zeta in IH |- *. rewrite Pos.iter_succ.
    set (r := Pos.iter shr_1 {| shr_m := m; shr_r := false; shr_s := false |} n) in *.
    destruct IH as [IH1 IH2].
    assert (Hp : 0 < 2 ^ Zpos n) by (apply Z.pow_pos_nonneg; lia).
    assert (Hr : 0 <= shr_m r) by (rewrite IH1; apply Z.div_pos; lia).
    destruct (shr_1_spec r Hr) as (H1 & H2 & H3).
    rewrite Pos2Z.inj_succ, Z.pow_succ_r by lia.
    split.
    + rewrite H1, IH1, Z.div_div by lia. f_equal. lia.
    + intros Hmod.
      apply Z.div_exact in Hmod; [|lia].
      set (q := m / (2 * 2 ^ Zpos n)) in Hmod.
      assert (Em : m = 2 * q * 2 ^ Zpos n) by lia.
      assert (Hmod' : m mod 2 ^ Zpos n = 0) by (rewrite Em; apply Z.mod_mul; lia).
      destruct (IH2 Hmod') as [Hr0 Hs0].
      rewrite H2, H3, Hr0, Hs0, IH1. split; [|reflexivity].
      rewrite Em, Z.div_mul by lia. rewrite Z.odd_mul. reflexivity.
Qed.

Lemma round_shr_upper (m T : Z) (p : positive) :
  0 <= m -> m <= T * 2 ^ Zpos p ->
  let r := iter_pos shr_1 p (shr_record_of_loc m loc_Exact) in
  let m1 := round_nearest_even (shr_m r) (loc_of_shr_record r) in
  0 <= m1 <= T /\ m1 <= m / 2 ^ Zpos p + 1.
Proof.
  intros Hm HT. cbv zeta. rewrite iter_pos_iter. cbn [shr_record_of_loc].
  destruct (shr_iter_spec m p Hm) as [H1 H2].
  set (r := Pos.iter shr_1 {| shr_m := m; shr_r := false; shr_s := false |} p) in *.
  assert (Hp : 0 < 2 ^ Zpos p) by (apply Z.pow_pos_nonneg; lia).
  assert (Hq : 0 <= m / 2 ^ Zpos p) by (apply Z.div_pos; lia).
  pose proof (round_nearest_even_bound (shr_m r) (loc_of_shr_record r)) as Hb.
  rewrite H1 in *.
  destruct (Z.eq_dec (m mod 2 ^ Zpos p) 0) as [Hz|Hnz].
  - destruct (H2 Hz) as [Hr0 Hs0].
    assert (El : loc_of_shr_record r = loc_Exact).
    { destruct r as [rm rr rs]. cbn [shr_r shr_s] in Hr0, Hs0. subst. reflexivity. }
    rewrite El. cbn [round_nearest_even].
    split; [|lia]. split; [lia|].
    apply Z.div_le_upper_bound; lia.
  - split; [|lia]. split; [lia|].
    assert (m <> T * 2 ^ Zpos p).
    { intros E. apply Hnz. rewrite E. apply Z.mod_mul. lia. }
    assert (m / 2 ^ Zpos p < T) by (apply Z.div_lt_upper_bound; lia).
    lia.
Qed.

Lemma digits2_pos_spec (p : positive) :
  2 ^ (Zpos (digits2_pos p) - 1) <= Zpos p < 2 ^ Zpos (digits2_pos p).
Proof.
  induction p as [q IH|q IH|]; cbn [digits2_pos]; rewrite ?Pos2Z.inj_succ.
  - replace (Z.succ (Zpos (digits2_pos q)) - 1) with (Z.succ (Zpos (digits2_pos q) - 1)) by lia.
    rewrite !Z.pow_succ_r by lia. lia.
  - replace (Z.succ (Zpos (digits2_pos q)) - 1) with (Z.succ (Zpos (digits2_pos q) - 1)) by lia.
    rewrite !Z.pow_succ_r by lia. lia.
  - cbn. lia.
Qed.

Lemma shr_fexp_aligned (m e : Z) :
  fexp F64.prec F64.emax (Zdigits2 m + e) <= e ->
  shr_fexp F64.prec F64.emax m e loc_Exact =
    ({| shr_m := m; shr_r := false; shr_s := false |}, e).
Proof.
  intros H. unfold shr_fexp, shr. cbn [shr_record_of_loc].
  destruct (fexp F64.prec F64.emax (Zdigits2 m + e) - e) eqn:E; try reflexivity. lia.
Qed.

Lemma binary_round_aux_upper (s : bool) (mx : positive) (ex B eb : Z) :
  ex <= fexp F64.prec F64.emax (Zpos (digits2_pos mx) + ex) ->
  2 ^ 52 <= B < 2 ^ 53 -> -1074 <= eb <= 971 ->
  ex <= eb -> Zpos mx <= B * 2 ^ (eb - ex) ->
  not_above s B eb (binary_round_aux F64.prec F64.emax s (Zpos mx) ex loc_Exact).
Proof.
  intros Hal HB Heb Hex Hval.
  pose proof (digits2_pos_spec mx) as Hd.
  set (d := Zpos (digits2_pos mx)) in *.
  assert (Hd0 : 0 < d) by (unfold d; lia).
  rewrite fexp_eq in Hal.
  assert (HP : 0 < 2 ^ (eb - ex)) by (apply Z.pow_pos_nonneg; lia).
  assert (Hde : d + ex - 53 <= eb).
  { destruct (Z_le_gt_dec (d + ex - 53) eb) as [H|H]; [exact H|exfalso].
    assert (H1 : 2 ^ (53 + (eb - ex)) <= 2 ^ (d - 1)) by (apply Z.pow_le_mono_r; lia).
    rewrite Z.pow_add_r in H1 by lia.
    assert (B * 2 ^ (eb - ex) < 2 ^ 53 * 2 ^ (eb - ex))
      by (apply Z.mul_lt_mono_pos_r; lia).
    lia. }
  set (e0 := Z.max (d + ex - 53) (-1074)) in *.
  assert (He0 : e0 <= eb) by (unfold e0; lia).
  assert (He0' : -1074 <= e0) by (unfold e0; lia).
  unfold binary_round_aux.
  (* the first shift *)
  assert (Hfirst : exists mrs',
             shr_fexp F64.prec F64.emax (Zpos mx) ex loc_Exact = (mrs', e0) /\
             let m1 := round_nearest_even (shr_m mrs') (loc_of_shr_record mrs') in
             0 <= m1 <= B * 2 ^ (eb - e0) /\ m1 <= 2 ^ 53).
  { unfold shr_fexp, shr. rewrite fexp_eq. cbn [Zdigits2]. fold d. fold e0.
    destruct (e0 - ex) as [|p|p] eqn:En; try lia.
    - eexists. split; [f_equal; lia|]. cbn [shr_record_of_loc shr_m loc_of_shr_record
        round_nearest_even]. replace e0 with ex by lia.
      assert (2 ^ d <= 2 ^ 53) by (apply Z.pow_le_mono_r; unfold e0 in En; lia).
      lia.
    - eexists. split; [f_equal; lia|].
      assert (Hn : e0 = ex + Zpos p) by lia.
      destruct (round_shr_upper (Zpos mx) (B * 2 ^ (eb - e0)) p ltac:(lia)) as [H1 H2].
      { rewrite <- Z.mul_assoc, <- Z.pow_add_r by lia.
        replace (eb - e0 + Zpos p) with (eb - ex) by lia. exact Hval. }
      cbv zeta. split; [exact H1|].
      assert (Hp : 0 < 2 ^ Zpos p) by (apply Z.pow_pos_nonneg; lia).
      assert (Zpos mx / 2 ^ Zpos p < 2 ^ 53); [|lia].
      apply Z.div_lt_upper_bound; [lia|].
      rewrite <- Z.pow_add_r by lia.
      assert (2 ^ d <= 2 ^ (Zpos p + 53)) by (apply Z.pow_le_mono_r; unfold e0 in Hn; lia).
      lia. }
  destruct Hfirst as (mrs' & -> & Hm1). cbv zeta in Hm1.
  set (m1 := round_nearest_even (shr_m mrs') (loc_of_shr_record mrs')) in *.
  destruct Hm1 as [Hm1 Hm1'].
  assert (HP0 : 0 < 2 ^ (eb - e0)) by (apply Z.pow_pos_nonneg; lia).
  destruct (Z.eq_dec m1 (2 ^ 53)) as [Etop|Htop].
  - (* the mantissa overflowed to 2^53: one more shift *)
    assert (He1 : e0 + 1 <= eb).
    { destruct (Z.eq_dec e0 eb) as [E|E]; [|lia].
      rewrite E, Z.sub_diag in Hm1. change (2 ^ 0) with 1 in Hm1. lia. }
    rewrite Etop.
    assert (Hs : shr_fexp F64.prec F64.emax (2 ^ 53) e0 loc_Exact =
                 ({| shr_m := 2 ^ 52; shr_r := false; shr_s := false |}, e0 + 1)).
    { unfold shr_fexp, shr. rewrite fexp_eq.
      change (Zdigits2 (2 ^ 53)) with 54.
      replace (Z.max (54 + e0 - 53) (-1074) - e0) with 1 by lia. reflexivity. }
    rewrite Hs. cbn [shr_m]. change (2 ^ 52) with (Zpos 4503599627370496).
    replace (e0 + 1 <=? F64.emax - F64.prec) with true
      by (symmetry; apply Z.leb_le; unfold F64.emax, F64.prec; lia).
    cbn [not_above]. split; [reflexivity|]. split; [lia|].
    change (Zpos 4503599627370496) with (2 ^ 52). lia.
  - assert (Hm1lt : m1 < 2 ^ 53) by lia.
    rewrite shr_fexp_aligned.
    + cbn [shr_m]. destruct m1 as [|q|q] eqn:Eq; [reflexivity| |lia].
      replace (e0 <=? F64.emax - F64.prec) with true
        by (symmetry; apply Z.leb_le; unfold F64.emax, F64.prec; lia).
      cbn [not_above]. split; [reflexivity|]. split; [lia|].
      destruct (Z.eq_dec e0 eb) as [E|E]; [right|left; lia].
      split; [exact E|]. rewrite E, Z.sub_diag in Hm1. change (2 ^ 0) with 1 in Hm1. lia.
    + rewrite fexp_eq.
      pose proof (Zdigits2_bound m1 53 ltac:(lia) ltac:(lia)). lia.
Qed.

Lemma binary_round_upper (s : bool) (mx : positive) (ex B eb : Z) :
  2 ^ 52 <= B < 2 ^ 53 -> -1074 <= eb <= 971 ->
  ex <= eb -> Zpos mx <= B * 2 ^ (eb - ex) ->
  not_above s B eb (binary_round F64.prec F64.emax s mx ex).
Proof.
  intros HB Heb Hex Hval. unfold binary_round, shl_align.
  set (ef := fexp F64.prec F64.emax (Zpos (digits2_pos mx) + ex)).
  destruct (ef - ex) as [|p|p] eqn:En.
  - apply binary_round_aux_upper; auto. fold ef. lia.
  - apply binary_round_aux_upper; auto. fold ef. lia.
  - assert (Hef : ef = ex - Zpos p) by lia.
    apply binary_round_aux_upper; auto; try lia.
    + rewrite digits2_pos_iter_xO.
      replace (Zpos (digits2_pos mx) + Zpos p + ef) with (Zpos (digits2_pos mx) + ex) by lia.
      fold ef. lia.
    + rewrite pos_iter_xO.
      replace (eb - ef) with (eb - ex + Zpos p) by lia.
      rewrite Z.pow_add_r, Z.mul_assoc by lia.
      apply Z.mul_le_mono_nonneg_r; [apply Z.pow_nonneg; lia | exact Hval].
Qed.

Lemma of_dyadic_unit (k : Z) :
  0 < k < 2 ^ 53 ->
  exists m e, F64.of_dyadic k (-53) = S754_finite false m e /\
              -105 <= e <= -53 /\ Zpos m < 2 ^ 53.
Proof.
  intros Hk. unfold F64.of_dyadic, binary_normalize.
  destruct k as [|p|p]; try lia.
  unfold binary_round.
  pose proof (digits2_pos_bound p 53 ltac:(lia) ltac:(lia)) as Hd.
  pose proof (digits2_pos_positive p) as Hd0.
  pose proof (digits2_pos_spec p) as Hs.
  unfold shl_align. rewrite fexp_eq.
  replace (Z.max (Zpos (digits2_pos p) + -53 - 53) (-1074) - -53)
    with (Zpos (digits2_pos p) - 53) by lia.
  destruct (Zpos (digits2_pos p) - 53) as [|d|d] eqn:Ed; try lia.
  - exists p, (-53). split; [apply binary_round_aux_exact; lia|]. lia.
  - eexists. eexists. split.
    + apply binary_round_aux_exact.
      * rewrite digits2_pos_iter_xO. lia.
      * lia.
    + split; [lia|]. rewrite pos_iter_xO.
      assert (E : 2 ^ 53 = 2 ^ Zpos (digits2_pos p) * 2 ^ Zpos d).
      { rewrite <- Z.pow_add_r by lia. f_equal. lia. }
      rewrite E. apply Z.mul_lt_mono_pos_r; [apply Z.pow_pos_nonneg; lia | lia].
Qed.

Lemma shl_align_value (m : positive) (e ez : Z) :
  ez <= e -> Zpos (fst (shl_align m e ez)) = Zpos m * 2 ^ (e - ez).
Proof.
  intros H. unfold shl_align. destruct (ez - e) as [|p|p] eqn:E; cbn [fst]; try lia.
  - replace (e - ez) with 0 by lia. cbn. lia.
  - rewrite pos_iter_xO. f_equal. f_equal. lia.
Qed.

(** [not_above], read as a comparison. *)
Lemma not_above_leb (B : positive) (eb : Z) (x : float) :
  not_above false (Zpos B) eb x -> F64.leb x (S754_finite false B eb) = true.
Proof.
  destruct x as [s|s| |s m e]; cbn [not_above]; try contradiction.
  - intros _. reflexivity.
  - intros (-> & _ & H). unfold F64.leb, SFleb, SFcompare.
    destruct H as [H|[-> H]].
    + apply Z.compare_lt_iff in H. rewrite H. reflexivity.
    + rewrite Z.compare_refl.
      change (Pos.compare_cont Eq m B) with (Pos.compare m B).
      destruct (Pos.compare_spec m B); try reflexivity. lia.
Qed.

Lemma not_above_opp_leb (B : positive) (eb : Z) (x : float) :
  not_above true (Zpos B) eb x -> F64.leb (S754_finite true B eb) x = true.
Proof.
  destruct x as [s|s| |s m e]; cbn [not_above]; try contradiction.
  - intros _. reflexivity.
  - intros (-> & _ & H). unfold F64.leb, SFleb, SFcompare.
    destruct H as [H|[-> H]].
    + apply Z.compare_gt_iff in H. rewrite H. reflexivity.
    + rewrite Z.compare_refl.
      change (Pos.compare_cont Eq B m) with (Pos.compare B m).
      destruct (Pos.compare_spec B m); try reflexivity. lia.
Qed.

Lemma not_above_sign_leb (s' : bool) (B B' : positive) (eb eb' : Z) (x : float) :
  (not_above false (Zpos B) eb x -> F64.leb (S754_finite true B' eb') x = true) /\
  (not_above true (Zpos B) eb x -> F64.leb x (S754_finite false B' eb') = true).
Proof.
  split; destruct x as [s|s| |s m e]; cbn [not_above]; try contradiction;
    try (intros _; reflexivity); intros (-> & _); reflexivity.
Qed.

(** The product of a draw of [[0, 1)] and a positive normal number [c]
    is at most [c]. *)
Lemma mul_unit_upper (k : Z) (mc : positive) (ec : Z) :
  0 <= k < 2 ^ 53 -> 2 ^ 52 <= Zpos mc < 2 ^ 53 -> -1074 <= ec <= 971 ->
  not_above false (Zpos mc) ec
    (F64.mul (F64.of_dyadic k (-53)) (S754_finite false mc ec)).
Proof.
  intros Hk Hmc Hec.
  destruct (Z.eq_dec k 0) as [->|Hk0]; [reflexivity|].
  destruct (of_dyadic_unit k ltac:(lia)) as (m & e & -> & He & Hm).
  unfold F64.mul, SFmul. cbn [xorb].
  apply binary_round_aux_upper; try lia.
  - rewrite fexp_eq.
    pose proof (digits2_pos_spec (m * mc)) as Hd.
    assert (2 ^ 52 < 2 ^ Zpos (digits2_pos (m * mc))) by (rewrite Pos2Z.inj_mul in Hd; nia).
    apply Z.pow_lt_mono_r_iff in H; lia.
  - replace (ec - (e + ec)) with (- e) by lia.
    rewrite Pos2Z.inj_mul, Z.mul_comm.
    apply Z.mul_le_mono_nonneg_l; [lia|].
    assert (2 ^ 53 <= 2 ^ (- e)) by (apply Z.pow_le_mono_r; lia). lia.
Qed.

(** Subtracting half of [c] from a number between zero and [c] gives a
    number between minus and plus half of [c]. *)
Lemma sub_half_within (mc : positive) (ec : Z) (t : float) :
  2 ^ 52 <= Zpos mc < 2 ^ 53 -> -1073 <= ec <= 971 ->
  not_above false (Zpos mc) ec t ->
  let r := F64.sub t (S754_finite false mc (ec - 1)) in
  F64.leb (S754_finite true mc (ec - 1)) r = true /\
  F64.leb r (S754_finite false mc (ec - 1)) = true.
Proof.
  intros Hmc Hec Ht. cbv zeta.
  assert (Hrefl : F64.leb (S754_finite true mc (ec - 1)) (S754_finite true mc (ec - 1)) = true).
  { unfold F64.leb, SFleb, SFcompare. rewrite Z.compare_refl.
    change (Pos.compare_cont Eq mc mc) with (Pos.compare mc mc).
    rewrite Pos.compare_refl. reflexivity. }
  destruct t as [s|s| |s m e]; cbn [not_above] in Ht; try contradiction.
  - subst s. cbn [F64.sub SFsub negb]. split; [exact Hrefl | reflexivity].
  - destruct Ht as (-> & Hm & Hlex).
    unfold F64.sub, SFsub. cbn [cond_Zopp].
    set (ez := Z.min e (ec - 1)).
    assert (Hez1 : ez <= e) by (unfold ez; lia).
    assert (Hez2 : ez <= ec - 1) by (unfold ez; lia).
    rewrite !shl_align_value by assumption.
    set (a := Zpos m * 2 ^ (e - ez)).
    set (b := Zpos mc * 2 ^ (ec - 1 - ez)).
    assert (Hb : 0 < b) by (unfold b; apply Z.mul_pos_pos; [lia|apply Z.pow_pos_nonneg; lia]).
    assert (Ha : 0 < a) by (unfold a; apply Z.mul_pos_pos; [lia|apply Z.pow_pos_nonneg; lia]).
    assert (Hab : a <= 2 * b).
    { unfold a, b.
      assert (E2 : 2 * (Zpos mc * 2 ^ (ec - 1 - ez)) = Zpos mc * 2 ^ (ec - ez)).
      { replace (ec - ez) with (Z.succ (ec - 1 - ez)) by lia.
        rewrite Z.pow_succ_r by lia. lia. }
      rewrite E2.
      destruct Hlex as [Hlt|[-> Hle]].
      - assert (E3 : 2 ^ (ec - ez) = 2 ^ (e - ez) * 2 ^ (ec - e))
          by (rewrite <- Z.pow_add_r by lia; f_equal; lia).
        rewrite E3.
        assert (2 ^ 1 <= 2 ^ (ec - e)) by (apply Z.pow_le_mono_r; lia).
        change (2 ^ 1) with 2 in *.
        assert (0 < 2 ^ (e - ez)) by (apply Z.pow_pos_nonneg; lia).
        nia.
      - apply Z.mul_le_mono_nonneg_r; [apply Z.pow_nonneg; lia | exact Hle]. }
    unfold binary_normalize.
    destruct (a - b) as [|D|D] eqn:ED.
    + split; reflexivity.
    + assert (Hup : not_above false (Zpos mc) (ec - 1)
                      (binary_round F64.prec F64.emax false D ez)).
      { apply binary_round_upper; try lia; fold b; lia. }
      split.
      * apply (proj1 (not_above_sign_leb false mc mc (ec - 1) (ec - 1) _)). exact Hup.
      * apply not_above_leb. exact Hup.
    + assert (Hup : not_above true (Zpos mc) (ec - 1)
                      (binary_round F64.prec F64.emax true D ez)).
      { apply binary_round_upper; try lia; fold b; lia. }
      split.
      * apply not_above_opp_leb. exact Hup.
      * apply (proj2 (not_above_sign_leb false mc mc (ec - 1) (ec - 1) _)). exact Hup.
Qed.

(** ** The coordinate box *)

Lemma box_rule_within (elem k : Z) :
  0 <= k < 2 ^ 53 ->
  within (half_width elem) (box_rule elem (F64.of_dyadic k (-53))) = true.
Proof.
  intros Hk. unfold within, half_width, box_rule.
  assert (E3 : F64.three = S754_finite false 6755399441055744 (-51))
    by (vm_compute; reflexivity).
  assert (E32 : F64.three_halves = S754_finite false 6755399441055744 (-51 - 1))
    by (vm_compute; reflexivity).
  assert (E2 : F64.two = S754_finite false 4503599627370496 (-51))
    by (vm_compute; reflexivity).
  assert (E1 : F64.one = S754_finite false 4503599627370496 (-51 - 1))
    by (vm_compute; reflexivity).
  destruct (elem =? 0).
  - rewrite E3, E32. cbn [SFopp negb].
    pose proof (mul_unit_upper k 6755399441055744 (-51) Hk) as Hm.
    destruct (sub_half_within 6755399441055744 (-51) _
                ltac:(split; [vm_compute; congruence | vm_compute; reflexivity])
                ltac:(lia)
                (Hm ltac:(split; [vm_compute; congruence | vm_compute; reflexivity])
                    ltac:(lia))) as [H1 H2].
    rewrite H1, H2. reflexivity.
  - rewrite E2, E1. cbn [SFopp negb].
    pose proof (mul_unit_upper k 4503599627370496 (-51) Hk) as Hm.
    destruct (sub_half_within 4503599627370496 (-51) _
                ltac:(split; [vm_compute; congruence | vm_compute; reflexivity])
                ltac:(lia)
                (Hm ltac:(split; [vm_compute; congruence | vm_compute; reflexivity])
                    ltac:(lia))) as [H1 H2].
    rewrite H1, H2. reflexivity.
Qed.

Lemma within_finite (w c : float) :
  is_finite w = true -> within w c = true -> is_finite c = true.
Proof.
  unfold within. intros Hw H. apply andb_true_iff in H. destruct H as [H1 H2].
  destruct c as [s|s| |s m e]; try reflexivity.
  - destruct w as [sw|sw| |sw mw ew]; try discriminate; destruct s, sw; discriminate.
  - destruct w as [sw|sw| |sw mw ew]; discriminate.
Qed.

Lemma drawn_row_in_box (s : RandomState) (elem : Z) (p : nat) :
  in_box (half_width elem) (drawn_row s elem p) = true /\
  finite3 (drawn_row s elem p) = true.
Proof.
  assert (H : forall k, within (half_width elem) (box_rule elem (unit_draw s k)) = true).
  { intros k. unfold unit_draw. apply box_rule_within. apply Z.mod_pos_bound. lia. }
  assert (Hw : is_finite (half_width elem) = true)
    by (unfold half_width; destruct (elem =? 0); reflexivity).
  unfold drawn_row. cbn [in_box finite3].
  rewrite !H, !(within_finite _ _ Hw (H _)). split; reflexivity.
Qed.

(** X19.  Every atom the raw coordinate sampler places lies in a cube
    around the origin, of half-width 1.5 for hydrogen and 1 for every
    other element: each of its coordinates [c] is a finite binary64
    number with [-w <= c <= w], whatever the random draws. *)
Theorem coordinates_in_box (at_ : list Z) s xyz ati s' :
  nonneg at_ ->
  generate_random_coordinates at_ s = Ok ((xyz, ati), s') ->
  forall p, (p < length xyz)%nat ->
    in_box (half_width (nth p ati 0)) (nth p xyz vec3_zero) = true /\
    finite3 (nth p xyz vec3_zero) = true.
Proof.
  intros Hnn H p Hp.
  destruct (generate_random_coordinates_rows at_ s Hnn) as (xyz0 & E & Hl & Hrows).
  rewrite E in H.
  assert (Ex : xyz0 = xyz) by congruence.
  assert (Ea : expand at_ 0 = ati) by congruence.
  subst xyz0 ati. rewrite Hrows by lia. apply drawn_row_in_box.
Qed.

Lemma coordinates_in_box_witness :
  match generate_random_coordinates [1; 0; 1] (tape_of [0; 2 ^ 53 - 1; 7; 1; 2 ^ 52; 3]) with
  | Ok ((xyz, _), _) =>
      in_box F64.three_halves (nth 0 xyz vec3_zero) = true /\
      in_box F64.one (nth 1 xyz vec3_zero) = true
  | _ => False
  end.
Proof.
  pose proof (coordinates_in_box [1; 0; 1] (tape_of [0; 2 ^ 53 - 1; 7; 1; 2 ^ 52; 3])) as H.
  destruct (generate_random_coordinates [1; 0; 1] _) as [[[xyz ati] s']| |] eqn:E;
    [| vm_compute in E; discriminate E ..].
  specialize (H xyz ati s' ltac:(repeat constructor; lia) eq_refl).
  assert (El : length xyz = 2%nat /\ ati = [0; 2]).
  { apply generate_random_coordinates_spec in E. exact E. }
  destruct El as [El ->].
  split.
  - apply (H 0%nat). lia.
  - apply (H 1%nat). lia.
Defined.

(** ** The number of atoms before the constraint map *)

Lemma not_above_weaken (s : bool) (B eb B' eb' : Z) (x : float) :
  not_above s B eb x -> eb < eb' \/ (eb = eb' /\ B <= B') -> not_above s B' eb' x.
Proof.
  destruct x as [s0|s0| |s0 m e]; cbn [not_above]; auto.
  intros (-> & Hm & H) H'. split; [reflexivity|]. split; [exact Hm|]. lia.
Qed.

Lemma of_Z_small (n : Z) :
  1 <= n <= 10 ->
  exists mn en,
    F64.of_Z n = S754_finite false mn en /\
    2 ^ 52 <= Zpos mn < 2 ^ 53 /\ -1074 <= en <= 971 /\
    (en < -49 \/ (en = -49 /\ Zpos mn <= 5629499534213120)).
Proof.
  intros Hn.
  assert (H : n = 1 \/ n = 2 \/ n = 3 \/ n = 4 \/ n = 5 \/ n = 6 \/ n = 7 \/ n = 8 \/
              n = 9 \/ n = 10) by lia.
  repeat (destruct H as [->|H]); try subst n;
    (eexists; eexists; split; [vm_compute; reflexivity|];
     split; [split; [vm_compute; congruence | vm_compute; reflexivity]|];
     split; [lia|];
     first [left; lia | right; split; [reflexivity | vm_compute; congruence]]).
Qed.

(** [u * minnat * 1.2] is at most 12 for a draw [u] of [[0, 1)] and
    [minnat] at most 10. *)
Lemma hydrogen_product_upper (k minnat : Z) :
  0 <= k < 2 ^ 53 -> 0 <= minnat <= 10 ->
  not_above false 6755399441055744 (-49)
    (F64.mul (F64.mul (F64.of_dyadic k (-53)) (F64.of_Z minnat)) F64.one_point_two).
Proof.
  intros Hk Hn.
  assert (E12 : F64.one_point_two = S754_finite false 5404319552844595 (-52))
    by (vm_compute; reflexivity).
  rewrite E12.
  destruct (Z.eq_dec minnat 0) as [->|Hn0].
  - change (F64.of_Z 0) with (S754_zero false).
    destruct (Z.eq_dec k 0) as [->|Hk0]; [reflexivity|].
    destruct (of_dyadic_unit k ltac:(lia)) as (m & e & -> & _). reflexivity.
  - destruct (of_Z_small minnat ltac:(lia)) as (mn & en & -> & Hmn & Hen & Hlex).
    pose proof (mul_unit_upper k mn en Hk Hmn Hen) as H1.
    apply (not_above_weaken _ _ _ 5629499534213120 (-49)) in H1; [|exact Hlex].
    destruct (F64.mul (F64.of_dyadic k (-53)) (S754_finite false mn en))
      as [s1|s1| |s1 m1 e1]; cbn [not_above] in H1; try contradiction.
    + subst s1. reflexivity.
    + destruct H1 as (-> & Hm1 & Hl1).
      unfold F64.mul, SFmul. cbn [xorb].
      apply binary_round_aux_upper.
      * rewrite fexp_eq.
        pose proof (digits2_pos_spec (m1 * 5404319552844595)) as Hd.
        assert (2 ^ 52 < 2 ^ Zpos (digits2_pos (m1 * 5404319552844595))).
        { rewrite Pos2Z.inj_mul in Hd.
          assert (2 ^ 52 < 5404319552844595) by reflexivity. nia. }
        apply Z.pow_lt_mono_r_iff in H; lia.
      * split; [vm_compute; congruence | vm_compute; reflexivity].
      * lia.
      * lia.
      * rewrite Pos2Z.inj_mul.
        replace (-49 - (e1 + -52)) with (3 - e1) by lia.
        destruct Hl1 as [Hlt|[-> Hle]].
        -- assert (Hp : 2 ^ 53 <= 2 ^ (3 - e1)) by (apply Z.pow_le_mono_r; lia).
           assert (Zpos m1 * 5404319552844595 <= 2 ^ 53 * 6755399441055744).
           { apply Z.mul_le_mono_nonneg; lia. }
           assert (6755399441055744 * 2 ^ 53 <= 6755399441055744 * 2 ^ (3 - e1))
             by (apply Z.mul_le_mono_nonneg_l; lia).
           lia.
        -- change (2 ^ (3 - -49)) with 4503599627370496.
           change (2 ^ 53) with 9007199254740992 in Hm1. lia.
Qed.

Lemma py_int_not_above (x : float) (t : Z) :
  not_above false 6755399441055744 (-49) x -> py_int x = Ok t -> 0 <= t <= 12.
Proof.
  destruct x as [s|s| |s m e]; cbn [not_above py_int]; try contradiction.
  - intros _ H. assert (t = 0) by congruence. lia.
  - intros (-> & Hm & Hl) H.
    assert (Et : t = Z.shiftl (Zpos m) e) by congruence. subst t. clear H.
    assert (He : e <= -49) by lia.
    replace e with (- (- e)) by lia. rewrite Z.shiftl_opp_r, Z.shiftr_div_pow2 by lia.
    assert (Hp : 0 < 2 ^ (- e)) by (apply Z.pow_pos_nonneg; lia).
    split; [apply Z.div_pos; lia|].
    apply Z.div_le_upper_bound; [lia|].
    destruct Hl as [Hlt|[-> Hle]].
    + assert (2 ^ 50 <= 2 ^ (- e)) by (apply Z.pow_le_mono_r; lia).
      change (2 ^ 50) with 1125899906842624 in *.
      change (2 ^ 53) with 9007199254740992 in *. lia.
    + change (2 ^ (- -49)) with 562949953421312. lia.
Qed.

Lemma add_hydrogen_total (a : list Z) s a' s' :
  (0 < length a)%nat -> nonneg a ->
  add_hydrogen a s = Ok (a', s') ->
  zsum a <= zsum a' <= zsum a + 13.
Proof.
  intros Hlen Hnn H.
  destruct (Z.eq_dec (nth 0 a 0) 0) as [E|E].
  - destruct (add_hydrogen_zero a s Hlen Hnn E) as (t & Hpy & Ht & Ha).
    rewrite Ha in H.
    assert (Ea : a' = list_set 0 (1 + t) a) by congruence. subst a'. clear H.
    rewrite zsum_list_set by exact Hlen. rewrite E.
    pose proof (zsum_nonneg a Hnn) as Hs.
    apply py_int_not_above in Hpy.
    + lia.
    + apply hydrogen_product_upper; [apply Z.mod_pos_bound; lia | lia].
  - rewrite (add_hydrogen_nonzero a s Hlen E) in H.
    assert (Ea : a' = a) by congruence. subst a'. lia.
Qed.

Lemma sample_unconstrained_total (fuel : nat) (cfg : GenerateConfig) s a s' :
  sample_unconstrained fuel cfg s = Ok (a, s') -> 1 <= zsum a <= 35.
Proof.
  intros H.
  pose proof (sample_unconstrained_footprint fuel cfg s a s' H) as (Hl & Hn & Hh & _).
  unfold sample_unconstrained in H.
  apply bind_Ok in H. destruct H as (a0 & s0 & H0 & H).
  apply bind_Ok in H. destruct H as (a1 & s1 & H1 & H2).
  pose proof (sample_and_limit_footprint _ _ _ _ _ H0) as (Hl0 & Hn0 & Hs0 & _).
  pose proof (add_organic_effect _ _ _ _ _ H1) as (_ & _ & Hs1 & _).
  destruct (before_backfill _ _ _ _ _ _ _ H0 H1) as [Hl1 Hn1].
  pose proof (add_hydrogen_total a1 s1 a s' ltac:(lia) Hn1 H2) as Hs2.
  split; [|lia].
  assert (Hge : nth 0 a 0 <= zsum a).
  { destruct a as [|h t]; [cbn in Hl; lia|]. cbn [nth]. rewrite zsum_cons.
    inversion Hn; subst. pose proof (zsum_nonneg t ltac:(assumption)). lia. }
  lia.
Qed.

(** ** Termination without constraints *)

Lemma grow_loop_returns (cfg : GenerateConfig) (valid : list Z) (n : nat) :
  (forall i, snd (dict_get (element_composition cfg) i (None, None)) = None) ->
  valid <> [] -> in_range n valid ->
  forall fuel a s,
    length a = n -> (Z.to_nat (min_num_atoms cfg - zsum a) <= fuel)%nat ->
    exists a' s', grow_loop fuel cfg valid a s = Ok (a', s').
Proof.
  intros Hnone Hne Hv. induction fuel as [|f IH]; intros a s Hlen Hfuel;
    cbn [grow_loop]; destruct (zsum a <? min_num_atoms cfg) eqn:E;
    try (eexists; eexists; reflexivity); apply Z.ltb_lt in E; [lia|].
  destruct (choice_spec valid s Hne) as (x & Hx & Ec).
  rewrite (bind_eq_Ok _ _ _ _ _ Ec).
  assert (Hr : 0 <= x < Z.of_nat (length a)).
  { unfold in_range in Hv. rewrite Forall_forall in Hv. rewrite Hlen. apply Hv. exact Hx. }
  assert (Es : grow_step cfg a x =
               Ok (list_set (Z.to_nat x) (nth (Z.to_nat x) a 0 + 1) a)).
  { unfold grow_step. rewrite Hnone, (getitem_inrange 0 a x Hr). cbn [obind].
    apply setitem_inrange. exact Hr. }
  rewrite (bind_lift_Ok _ _ _ _ Es).
  apply IH.
  - rewrite list_set_length. exact Hlen.
  - rewrite zsum_list_set by lia. lia.
Qed.

(** X20.  Before the constraint map is applied, that is after the first
    loop, the metal passes, the p-block boost and the hydrogen backfill,
    the molecule has at least one hydrogen atom and between 1 and 35
    atoms in all: at most 12 from the first loop, at most 10 from the
    boost and at most 13 from the backfill, whose binary64 product
    [u * minnat * 1.2] never exceeds 12. *)
Theorem unconstrained_total_bounds (fuel : nat) (cfg : GenerateConfig) s natoms s' :
  sample_unconstrained fuel cfg s = Ok (natoms, s') ->
  1 <= nth 0 natoms 0 /\ 1 <= zsum natoms <= 35.
Proof.
  intros H. split; [|exact (sample_unconstrained_total fuel cfg s natoms s' H)].
  apply (sample_unconstrained_footprint fuel cfg s natoms s' H).
Qed.

Lemma unconstrained_total_bounds_witness :
  match sample_unconstrained 9 cfg_no_hydrogen (tape_of carbon_dozen) with
  | Ok (natoms, _) => 1 <= nth 0 natoms 0 /\ 1 <= zsum natoms <= 35
  | _ => False
  end.
Proof.
  pose proof (unconstrained_total_bounds 9 cfg_no_hydrogen (tape_of carbon_dozen)) as H.
  destruct (sample_unconstrained 9 cfg_no_hydrogen (tape_of carbon_dozen))
    as [[natoms s']| |] eqn:E; [| vm_compute in E; discriminate E ..].
  apply (H natoms s' eq_refl).
Defined.

(** X21.  With an empty constraint map, some valid element,
    [min_num_atoms <= max_num_atoms] and [max_num_atoms] at least 35, the
    composition sampler returns on every random source, with a total
    between [min_num_atoms] and [max_num_atoms]: the shrink loop is never
    entered, the metal passes need at most nine rounds and the grow loop
    at most [min_num_atoms] iterations. *)
Theorem unconstrained_sampler_returns (fuel : nat) (cfg : GenerateConfig) s :
  element_composition cfg = [] -> valid_elems cfg <> [] ->
  min_num_atoms cfg <= max_num_atoms cfg -> 35 <= max_num_atoms cfg ->
  (9 <= fuel)%nat -> (Z.to_nat (min_num_atoms cfg) <= fuel)%nat ->
  exists natoms s',
    generate_atom_list fuel cfg s = Ok (natoms, s') /\
    min_num_atoms cfg <= zsum natoms <= max_num_atoms cfg.
Proof.
  intros Hec Hne Hmm Hmax Hf9 Hfm.
  pose proof (sample_unconstrained_spec fuel cfg s) as H1.
  destruct (sample_unconstrained fuel cfg s) as [[a1 s1]| |] eqn:E1;
    [|contradiction|lia].
  destruct H1 as (Hl1 & Hn1 & _).
  pose proof (sample_unconstrained_total fuel cfg s a1 s1 E1) as Ht1.
  pose proof (in_range_weaken 86 102 _ ltac:(lia) (valid_elems_range cfg)) as Hv.
  destruct (grow_loop_returns cfg (valid_elems cfg) 102
              ltac:(intros i; rewrite Hec; reflexivity) Hne Hv fuel a1 s1 Hl1 ltac:(lia))
    as (a3 & s3 & E3).
  destruct (grow_loop_effect cfg _ 102 Hv fuel a1 s1 a3 s3 Hl1 E3) as (_ & _ & Hs3 & _).
  assert (E4 : shrink_loop fuel cfg a3 s3 = Ok (a3, s3)).
  { assert (E : (max_num_atoms cfg <? zsum a3) = false) by (apply Z.ltb_ge; lia).
    destruct fuel; cbn [shrink_loop]; rewrite E; reflexivity. }
  exists a3, s3. split; [|lia].
  unfold generate_atom_list.
  rewrite (bind_eq_Ok _ _ _ _ _ E1), Hec. cbn [apply_composition].
  rewrite (bind_lift_Ok _ _ _ _ eq_refl).
  rewrite (bind_eq_Ok _ _ _ _ _ E3). exact E4.
Qed.

Lemma unconstrained_sampler_returns_witness :
  exists natoms s',
    generate_atom_list 9 cfg_roomy (tape_of carbon_dozen) = Ok (natoms, s') /\
    2 <= zsum natoms <= 40.
Proof.
  apply (unconstrained_sampler_returns 9 cfg_roomy (tape_of carbon_dozen)).
  - reflexivity.
  - vm_compute. discriminate.
  - vm_compute. discriminate.
  - vm_compute. discriminate.
  - lia.
  - vm_compute. lia.
Defined.

(** ** A scaling of zero *)

Lemma mul_zero_r (c z : float) :
  is_finite c = true -> is_zero z = true -> is_zero (F64.mul c z) = true.
Proof.
  destruct c as [s| | |s m e], z as [s'| | |s' m' e']; try discriminate; reflexivity.
Qed.

Lemma grown_scaling_zero (n : nat) (scaling inc : float) :
  is_zero scaling = true -> is_finite inc = true ->
  is_zero (grown_scaling n scaling inc) = true.
Proof.
  intros Hs Hi. induction n as [|n IH]; cbn [grown_scaling]; [exact Hs|].
  destruct (grown_scaling n scaling inc) as [s| | |s m e]; try discriminate.
  destruct inc as [s'| | |s' m' e']; try discriminate; reflexivity.
Qed.

Lemma distance_of_zeros (v w : vec3) :
  zero3 v = true -> zero3 w = true -> norm (vec3_sub v w) = F64.zero.
Proof.
  destruct v as [[x y] z], w as [[x' y'] z']. cbn [zero3]. intros Hv Hw.
  apply andb_true_iff in Hv. destruct Hv as [Hv Hz].
  apply andb_true_iff in Hv. destruct Hv as [Hx Hy].
  apply andb_true_iff in Hw. destruct Hw as [Hw Hz'].
  apply andb_true_iff in Hw. destruct Hw as [Hx' Hy'].
  destruct x as [a| | |? ? ?], y as [b| | |? ? ?], z as [c| | |? ? ?]; try discriminate.
  destruct x' as [a'| | |? ? ?], y' as [b'| | |? ? ?], z' as [c'| | |? ? ?];
    try discriminate.
  destruct a, b, c, a', b', c'; reflexivity.
Qed.

Lemma scale_by_zero (xyz : list vec3) (z : float) (p : nat) :
  is_zero z = true -> (p < length xyz)%nat -> finite3 (nth p xyz vec3_zero) = true ->
  zero3 (nth p (scale xyz z) vec3_zero) = true.
Proof.
  intros Hz Hp Hf. unfold scale.
  rewrite (nth_indep _ vec3_zero (vec3_map (fun c => F64.mul c z) vec3_zero))
    by (rewrite length_map; exact Hp).
  rewrite map_nth.
  destruct (nth p xyz vec3_zero) as [[x y] c]. cbn [finite3] in Hf.
  apply andb_true_iff in Hf. destruct Hf as [Hf Hc].
  apply andb_true_iff in Hf. destruct Hf as [Hx Hy].
  cbn [vec3_map zero3]. rewrite !mul_zero_r by assumption. reflexivity.
Qed.

Lemma attempt_fails_at_zero_scaling
  (at_ : list Z) (scaling thr inc : float) s (k : nat) :
  nonneg at_ -> 2 <= zsum at_ ->
  is_zero scaling = true -> is_finite inc = true -> F64.ltb F64.zero thr = true ->
  check_distances (attempt at_ scaling inc s k) thr = false.
Proof.
  intros Hnn Hsum Hs Hi Hthr.
  destruct (generate_random_coordinates_rows at_
              (skip (k * (3 * Z.to_nat (zsum at_))) s) Hnn) as (raw & E & Hl & Hrows).
  unfold attempt. rewrite E.
  set (z := grown_scaling k scaling inc).
  assert (Hz : is_zero z = true) by (apply grown_scaling_zero; assumption).
  destruct (check_distances (scale raw z) thr) eqn:Hc; [|reflexivity].
  rewrite check_distances_spec in Hc.
  specialize (Hc 0%nat 1%nat ltac:(rewrite scale_length; lia)).
  unfold distance in Hc.
  rewrite distance_of_zeros in Hc.
  - congruence.
  - apply scale_by_zero; [exact Hz | lia|]. rewrite Hrows by lia. apply drawn_row_in_box.
  - apply scale_by_zero; [exact Hz | lia|]. rewrite Hrows by lia. apply drawn_row_in_box.
Qed.

(** X22.  With an initial scaling of zero, a finite growth factor and a
    threshold above zero, the geometry sampler never returns on a
    molecule of two or more atoms: every attempt puts all atoms at the
    origin, the check fails, and the scaling stays zero. *)
Theorem zero_scaling_never_returns
  (at_ : list Z) (scaling thr inc : float) :
  nonneg at_ -> 2 <= zsum at_ ->
  is_zero scaling = true -> is_finite inc = true -> F64.ltb F64.zero thr = true ->
  forall fuel s, generate_coordinates fuel at_ scaling thr inc s = OutOfFuel.
Proof.
  intros Hnn Hsum Hs Hi Hthr fuel s.
  assert (Hfail : forall k, check_distances (attempt at_ scaling inc s k) thr = false)
    by (intros k; apply attempt_fails_at_zero_scaling; assumption).
  unfold generate_coordinates.
  destruct (attempt_next at_ scaling inc s 0 Hnn) as (raw & E & Ea).
  change (0 * (3 * Z.to_nat (zsum at_)))%nat with O in E. rewrite skip_zero in E.
  rewrite (bind_eq_Ok _ _ _ _ _ E).
  cbn [grown_scaling] in Ea. rewrite <- Ea.
  pose proof (rescale_loop_law at_ scaling thr inc s Hnn fuel 0) as H.
  cbn [grown_scaling] in H.
  destruct (rescale_loop fuel at_ thr inc _ _ _ _) as [[[xyz ati] s']| |].
  - destruct H as (n & _ & _ & Hx & Hok & _). rewrite Hx, Hfail in Hok. discriminate.
  - contradiction.
  - reflexivity.
Qed.

Lemma zero_scaling_never_returns_witness :
  generate_coordinates 25 [2] F64.zero (F64.of_dyadic 1 (-1)) F64.two
    (tape_of retry_tape) = OutOfFuel.
Proof.
  apply zero_scaling_never_returns; try reflexivity.
  repeat constructor; lia.
Defined.
